(** * flok-demo: route selection state machine and polyline codec

    A shallow embedding of the two variants of the application that the
    repository holds:

    - [src/index.tsx]: the GraphHopper variant, with the five-phase selection
      machine and the match simulation (module [Index]);
    - [src/unnamed/part_000]: the Google Directions variant, with the
      three-phase machine and the polyline decoder (modules [Polyline] and
      [Part000]).

    Conventions.  A JavaScript number that the code only uses as an integer
    is a [Z]; the 32-bit operators ([|], [&], [<<], [>>], [~]) wrap to the
    signed 32-bit range as ECMAScript's ToInt32 does.  A coordinate is an
    exact rational ([Q]); the code computes the nearest double to it, so two
    coordinates that are equal as rationals are the same double.  A string
    is its sequence of UTF-16 code units.

    The file has the definitions first (the JavaScript operators, the
    decoder, the map collaborator, the two variants of the component with
    their event loop, the duration text of the ETA label, what the
    components render), then the lemmas about them, then the claims, then
    further properties of the code. *)

From Stdlib Require Import ZArith List Bool Lia String Ascii QArith Qabs Qround Lqa.
Import ListNotations.

Local Open Scope Z_scope.

(** ** JavaScript numbers and 32-bit operators *)

Module JS.

(** The values the decoder's variable [b] can take: a code unit minus 63, or
    [NaN] when [charCodeAt] is asked for an index outside the string. *)
Inductive number : Type :=
| NaN
| Int (n : Z).

(** A string is the list of its UTF-16 code units. *)
Definition jsstring : Type := list Z.

(** The code units of a string literal whose characters are all ASCII. *)
Fixpoint str (s : string) : jsstring :=
  match s with
  | EmptyString => []
  | String c rest => Z.of_N (N_of_ascii c) :: str rest
  end.

(** [s.charCodeAt(i)]: the code unit at [i], [NaN] when [i] is out of range. *)
Definition charCodeAt (s : jsstring) (i : nat) : number :=
  match nth_error s i with
  | Some c => Int c
  | None => NaN
  end.

(** [x - k] on numbers. *)
Definition minus (x : number) (k : Z) : number :=
  match x with
  | NaN => NaN
  | Int n => Int (n - k)
  end.

(** [x >= k]: every comparison with [NaN] is false. *)
Definition ge (x : number) (k : Z) : bool :=
  match x with
  | NaN => false
  | Int n => k <=? n
  end.

(** ToInt32 on an integer: reduction modulo 2^32 into [-2^31, 2^31). *)
Definition wrap32 (n : Z) : Z := (n + 2 ^ 31) mod 2 ^ 32 - 2 ^ 31.

(** ToInt32 on a number: [NaN] becomes [0]. *)
Definition ToInt32 (x : number) : Z :=
  match x with
  | NaN => 0
  | Int n => wrap32 n
  end.

(** [x & k], [x | y], [x << s], [x >> s] and [~x] on 32-bit operands.  The
    shift count is taken modulo 32. *)
Definition and32 (x y : Z) : Z := wrap32 (Z.land (wrap32 x) (wrap32 y)).
Definition or32 (x y : Z) : Z := wrap32 (Z.lor (wrap32 x) (wrap32 y)).
Definition shl32 (x s : Z) : Z := wrap32 (Z.shiftl (wrap32 x) (Z.land s 31)).
Definition sar32 (x s : Z) : Z := Z.shiftr (wrap32 x) (Z.land s 31).
Definition not32 (x : Z) : Z := Z.lnot (wrap32 x).

End JS.

(** ** The polyline decoder ([decodePolyline], src/unnamed/part_000) *)

Module Polyline.
Import JS.

(** One coordinate pair [[lat, lng]] of the decoded path. *)
Definition LatLngTuple : Type := (Q * Q)%type.

(** [n / 1e5], as the exact rational. *)
Definition div1e5 (n : Z) : Q := (n # 100000)%Q.

(** The [do { ... } while (b >= 0x20)] loop that reads one varint group,
    started at [index] with the given [shift] and [result].  It returns the
    index after the last read and the assembled [result].  Every iteration
    advances [index], and a read at or beyond the end of the string yields
    [NaN] and leaves the loop, so [fuel] bounds the number of iterations. *)
Fixpoint readGroup (fuel : nat) (encoded : jsstring) (index : nat)
    (shift result : Z) : option (nat * Z) :=
  match fuel with
  | O => None
  | S fuel' =>
      let b := minus (charCodeAt encoded index) 63 in
      let index := S index in
      let result := or32 result (shl32 (and32 (ToInt32 b) 31) shift) in
      let shift := shift + 5 in
      if ge b 32 then readGroup fuel' encoded index shift result
      else Some (index, result)
  end.

(** [(result & 1) ? ~(result >> 1) : (result >> 1)]. *)
Definition unzigzag (result : Z) : Z :=
  if negb (and32 result 1 =? 0) then not32 (sar32 result 1) else sar32 result 1.

(** The outer [while (index < len)] loop.  Besides the path it returns the
    final value of [index]: the code reads the code units at 0, 1, 2, ... in
    turn, one per increment of [index], so the final index is the number of
    [charCodeAt] calls made, and it exceeds the length exactly when the
    decoder has read beyond the end of the string.  The accumulators [lat]
    and [lng] are sums of 32-bit deltas, exact in a double as long as they
    stay below 2^53 in magnitude. *)
Fixpoint decodeLoop (fuel : nat) (encoded : jsstring) (index : nat)
    (lat lng : Z) (path : list LatLngTuple) : option (nat * list LatLngTuple) :=
  match fuel with
  | O => None
  | S fuel' =>
      let len := List.length encoded in
      if (index <? len)%nat then
        match readGroup (S len) encoded index 0 0 with
        | None => None
        | Some (index, result) =>
            let dlat := unzigzag result in
            let lat := lat + dlat in
            match readGroup (S len) encoded index 0 0 with
            | None => None
            | Some (index, result) =>
                let dlng := unzigzag result in
                let lng := lng + dlng in
                decodeLoop fuel' encoded index lat lng
                  (path ++ [(div1e5 lat, div1e5 lng)])
            end
        end
      else Some (index, path)
  end.

(** The whole body of [decodePolyline]: the number of reads and the path.
    [None] stands for running out of fuel, which
    [PolylineFacts.decodeRun_total] excludes; the function has no other
    outcome than a returned path. *)
Definition decodeRun (encoded : jsstring) : option (nat * list LatLngTuple) :=
  decodeLoop (S (List.length encoded)) encoded 0 0 0 [].

(** [decodePolyline(encoded)]. *)
Definition decodePolyline (encoded : jsstring) : option (list LatLngTuple) :=
  option_map snd (decodeRun encoded).

(** Two paths hold the same coordinates, as rationals. *)
Definition same_path (p q : list LatLngTuple) : Prop :=
  Forall2 (fun a b => (fst a == fst b)%Q /\ (snd a == snd b)%Q) p q.

(** *** Reference encoder *)

(** Modelled from the spec: the reference encoder of the round-trip property
    is not in the repository; this is the encoder of the same scheme (round to
    1e-5, delta against the previous rounded point, zig-zag, 5-bit groups
    with the 0x20 continuation bit, offset 63). *)
Fixpoint encodeUnsigned (fuel : nat) (num : Z) : jsstring :=
  match fuel with
  | O => [num + 63]
  | S fuel' =>
      if 32 <=? num
      then (Z.lor 32 (Z.land num 31) + 63) :: encodeUnsigned fuel' (Z.shiftr num 5)
      else [num + 63]
  end.

(** Modelled from the spec: the zig-zag value the reference encoder writes
    for the delta [d]. *)
Definition zigzag (d : Z) : Z :=
  if d <? 0 then Z.lnot (Z.shiftl d 1) else Z.shiftl d 1.

(** Modelled from the spec: one signed delta, zig-zag and then groups; a
    32-bit value takes at most seven groups. *)
Definition encodeSigned (num : Z) : jsstring := encodeUnsigned 6 (zigzag num).

(** Modelled from the spec: [Math.round(x * 1e5)]. *)
Definition round1e5 (x : Q) : Z := Qfloor (x * 100000 + (1 # 2))%Q.

(** Modelled from the spec: the encoder's loop over the coordinates, [plat]
    and [plng] being the previous rounded point. *)
Fixpoint encodeFrom (plat plng : Z) (coords : list LatLngTuple) : jsstring :=
  match coords with
  | [] => []
  | (lat, lng) :: rest =>
      let late5 := round1e5 lat in
      let lnge5 := round1e5 lng in
      encodeSigned (late5 - plat) ++ encodeSigned (lnge5 - plng)
        ++ encodeFrom late5 lnge5 rest
  end.

Definition encodePolyline (coords : list LatLngTuple) : jsstring :=
  encodeFrom 0 0 coords.

(** A Coordinate of the data model: latitude in [-90, 90], longitude in
    [-180, 180]. *)
Definition Coordinate (c : LatLngTuple) : Prop :=
  (-90 <= fst c <= 90)%Q /\ (-180 <= snd c <= 180)%Q.

(** Rounded components small enough for every delta to fit the 32-bit
    zig-zag value. *)
Definition fits (c : LatLngTuple) : Prop :=
  - 2 ^ 29 < round1e5 (fst c) < 2 ^ 29 /\ - 2 ^ 29 < round1e5 (snd c) < 2 ^ 29.

(** What the decoder returns for a coordinate the encoder wrote. *)
Definition rounded (c : LatLngTuple) : LatLngTuple :=
  (div1e5 (round1e5 (fst c)), div1e5 (round1e5 (snd c))).

(** The last code unit of the string carries the continuation bit. *)
Definition unterminated (encoded : jsstring) : Prop :=
  exists body c, encoded = body ++ [c] /\ 32 <= c - 63.

End Polyline.

(** ** The map collaborator (Leaflet, the global [L]) *)

Module Leaflet.

(** [e.latlng] and [marker.getLatLng()]. *)
Record LatLng : Type := { lat : Q; lng : Q }.

(** The [type] argument of [createMarker]: ['start'] or ['end']. *)
Inductive MarkerType : Type :=
| type_start
| type_end.

(** A marker object.  Objects are told apart by [marker_id], the stamp
    Leaflet gives every layer. *)
Record Marker : Type := {
  marker_id : positive;
  getLatLng : LatLng;
  marker_type : MarkerType
}.

(** A polyline object with the [[lat, lng]] pairs it was built from. *)
Record Polyline : Type := {
  polyline_id : positive;
  getLatLngs : list (Q * Q)
}.

Inductive Layer : Type :=
| MarkerLayer (m : Marker)
| PolylineLayer (p : Polyline).

Definition layer_id (l : Layer) : positive :=
  match l with
  | MarkerLayer m => marker_id m
  | PolylineLayer p => polyline_id p
  end.

(** What the map shows: [setView(center, zoom)] or [fitBounds] on the
    bounds of a polyline. *)
Inductive View : Type :=
| ViewAt (center : Q * Q) (zoom : Z)
| ViewFitted (polyline : positive).

(** [map.removeLayer(layer)]: the layer with that stamp leaves the map. *)
Definition removeLayer (id : positive) (layers : list Layer) : list Layer :=
  filter (fun l => negb (Pos.eqb (layer_id l) id)) layers.

(** The markers among the layers of the map. *)
Definition marker_layers (layers : list Layer) : list Marker :=
  flat_map (fun l => match l with MarkerLayer m => [m] | PolylineLayer _ => [] end)
    layers.

(** The polylines among the layers of the map. *)
Definition polyline_layers (layers : list Layer) : list Polyline :=
  flat_map (fun l => match l with MarkerLayer _ => [] | PolylineLayer p => [p] end)
    layers.

(** The layers left when every marker of [ms] has been removed. *)
Definition remove_markers (ms : list Marker) (l : list Layer) : list Layer :=
  fold_left (fun l m => removeLayer (marker_id m) l) ms l.

Definition TEHRAN_COORDS : Q * Q := (35.6892, 51.3890)%Q.

(** [Math.round(n / d)] for an integer [n] and a positive integer [d]:
    the floor of [n / d + 1/2].  The code rounds the double nearest to the
    quotient.  For [d = 60000] the two agree as long as [n] is below 2^53 in
    magnitude: the quotient is a multiple of 1/60000, so it is a half-integer
    or at least 1/60000 away from one, and its double is then less than that
    away from it.  For larger [n] the double can fall on the other side of a
    half and the code's result differ by one, so no theorem of this file
    about the code states the value for every [n]. *)
Definition Math_round_div (n d : Z) : Z := (2 * n + d) / (2 * d).

End Leaflet.

(** ** The GraphHopper variant ([App], src/index.tsx) *)

Module Index.
Import Leaflet.

Inductive SelectionState : Type :=
| SELECTING_START
| SELECTING_END
| PATH_CONFIRMED
| SEARCHING_FOR_MATCH
| MATCH_FOUND.

Definition SelectionState_eqb (a b : SelectionState) : bool :=
  match a, b with
  | SELECTING_START, SELECTING_START
  | SELECTING_END, SELECTING_END
  | PATH_CONFIRMED, PATH_CONFIRMED
  | SEARCHING_FOR_MATCH, SEARCHING_FOR_MATCH
  | MATCH_FOUND, MATCH_FOUND => true
  | _, _ => false
  end.

(** The text passed to [alert]: the one message of this variant, routing
    failed, please try other points. *)
Inductive Alert : Type :=
| alert_routing_failed.

(** The label passed to [setEta]: about [durationMinutes] minutes of
    walking. *)
Inductive Eta : Type :=
| about_minutes_walking (durationMinutes : Z).

(** What [handleReset] reads from the render that created it: the
    component's [mapInstance], [markers] and [path] of that render. *)
Record Closure : Type := {
  seen_mapInstance : bool;
  seen_markers : list Marker;
  seen_path : option Polyline
}.

(** A route fetch on its way: the two points of the URL and the closure of
    the [fetchRoute] that awaits the response. *)
Record Request : Type := {
  origin : LatLng;
  destination : LatLng;
  closure : Closure
}.

(** One entry of [data.paths]: [points.coordinates], pairs [[lng, lat]],
    and [time] in milliseconds. *)
Record Path : Type := {
  coordinates : list (Q * Q);
  time : Z
}.

(** The JSON body of a response: [paths] may be absent. *)
Record Data : Type := {
  paths : option (list Path);
  message : option string
}.

(** How the awaited [fetch] ends: it rejects, or it resolves to a response
    with [response.ok], a status, and a body that parses as JSON or not. *)
Inductive Response : Type :=
| NetworkError
| HttpResponse (ok : bool) (status : Z) (json : option Data).

(** The state of the component (the [useState] values and the ref) and of
    what it acts on (the layers and view of the map, the running interval
    timers, the fetches on their way, the alerts shown).  [markersVersion]
    is the identity of the array held by [markers]: every [setMarkers] call
    of the file passes a new array, and React re-runs an effect when a
    dependency is not the same object as before. *)
Record State : Type := {
  mapInstance : bool;
  markers : list Marker;
  markersVersion : nat;
  path : option Polyline;
  eta : option Eta;
  isLoading : bool;
  matchedUsersCount : Z;
  matchIntervalRef : option positive;
  selectionState : SelectionState;
  layers : list Layer;
  view : option View;
  intervals : list positive;
  fresh : positive;
  pending : list Request;
  alerts : list Alert
}.

(** The state at the first render: the [useState] defaults, no map yet. *)
Definition initial : State := {|
  mapInstance := false;
  markers := [];
  markersVersion := 0;
  path := None;
  eta := None;
  isLoading := false;
  matchedUsersCount := 0;
  matchIntervalRef := None;
  selectionState := SELECTING_START;
  layers := [];
  view := None;
  intervals := [];
  fresh := 1;
  pending := [];
  alerts := []
|}.

(** *** State setters *)

Definition setMapInstance (v : bool) (s : State) : State :=
  {| mapInstance := v; markers := markers s; markersVersion := markersVersion s;
     path := path s; eta := eta s; isLoading := isLoading s;
     matchedUsersCount := matchedUsersCount s;
     matchIntervalRef := matchIntervalRef s; selectionState := selectionState s;
     layers := layers s; view := view s; intervals := intervals s;
     fresh := fresh s; pending := pending s; alerts := alerts s |}.

Definition setMarkers (v : list Marker) (s : State) : State :=
  {| mapInstance := mapInstance s; markers := v;
     markersVersion := S (markersVersion s);
     path := path s; eta := eta s; isLoading := isLoading s;
     matchedUsersCount := matchedUsersCount s;
     matchIntervalRef := matchIntervalRef s; selectionState := selectionState s;
     layers := layers s; view := view s; intervals := intervals s;
     fresh := fresh s; pending := pending s; alerts := alerts s |}.

Definition setPath (v : option Polyline) (s : State) : State :=
  {| mapInstance := mapInstance s; markers := markers s;
     markersVersion := markersVersion s;
     path := v; eta := eta s; isLoading := isLoading s;
     matchedUsersCount := matchedUsersCount s;
     matchIntervalRef := matchIntervalRef s; selectionState := selectionState s;
     layers := layers s; view := view s; intervals := intervals s;
     fresh := fresh s; pending := pending s; alerts := alerts s |}.

Definition setEta (v : option Eta) (s : State) : State :=
  {| mapInstance := mapInstance s; markers := markers s;
     markersVersion := markersVersion s;
     path := path s; eta := v; isLoading := isLoading s;
     matchedUsersCount := matchedUsersCount s;
     matchIntervalRef := matchIntervalRef s; selectionState := selectionState s;
     layers := layers s; view := view s; intervals := intervals s;
     fresh := fresh s; pending := pending s; alerts := alerts s |}.

Definition setIsLoading (v : bool) (s : State) : State :=
  {| mapInstance := mapInstance s; markers := markers s;
     markersVersion := markersVersion s;
     path := path s; eta := eta s; isLoading := v;
     matchedUsersCount := matchedUsersCount s;
     matchIntervalRef := matchIntervalRef s; selectionState := selectionState s;
     layers := layers s; view := view s; intervals := intervals s;
     fresh := fresh s; pending := pending s; alerts := alerts s |}.

Definition setMatchedUsersCount (v : Z) (s : State) : State :=
  {| mapInstance := mapInstance s; markers := markers s;
     markersVersion := markersVersion s;
     path := path s; eta := eta s; isLoading := isLoading s;
     matchedUsersCount := v;
     matchIntervalRef := matchIntervalRef s; selectionState := selectionState s;
     layers := layers s; view := view s; intervals := intervals s;
     fresh := fresh s; pending := pending s; alerts := alerts s |}.

Definition setMatchIntervalRef (v : option positive) (s : State) : State :=
  {| mapInstance := mapInstance s; markers := markers s;
     markersVersion := markersVersion s;
     path := path s; eta := eta s; isLoading := isLoading s;
     matchedUsersCount := matchedUsersCount s;
     matchIntervalRef := v; selectionState := selectionState s;
     layers := layers s; view := view s; intervals := intervals s;
     fresh := fresh s; pending := pending s; alerts := alerts s |}.

Definition setSelectionState (v : SelectionState) (s : State) : State :=
  {| mapInstance := mapInstance s; markers := markers s;
     markersVersion := markersVersion s;
     path := path s; eta := eta s; isLoading := isLoading s;
     matchedUsersCount := matchedUsersCount s;
     matchIntervalRef := matchIntervalRef s; selectionState := v;
     layers := layers s; view := view s; intervals := intervals s;
     fresh := fresh s; pending := pending s; alerts := alerts s |}.

Definition setLayers (v : list Layer) (s : State) : State :=
  {| mapInstance := mapInstance s; markers := markers s;
     markersVersion := markersVersion s;
     path := path s; eta := eta s; isLoading := isLoading s;
     matchedUsersCount := matchedUsersCount s;
     matchIntervalRef := matchIntervalRef s; selectionState := selectionState s;
     layers := v; view := view s; intervals := intervals s;
     fresh := fresh s; pending := pending s; alerts := alerts s |}.

Definition setView (v : View) (s : State) : State :=
  {| mapInstance := mapInstance s; markers := markers s;
     markersVersion := markersVersion s;
     path := path s; eta := eta s; isLoading := isLoading s;
     matchedUsersCount := matchedUsersCount s;
     matchIntervalRef := matchIntervalRef s; selectionState := selectionState s;
     layers := layers s; view := Some v; intervals := intervals s;
     fresh := fresh s; pending := pending s; alerts := alerts s |}.

Definition setIntervals (v : list positive) (s : State) : State :=
  {| mapInstance := mapInstance s; markers := markers s;
     markersVersion := markersVersion s;
     path := path s; eta := eta s; isLoading := isLoading s;
     matchedUsersCount := matchedUsersCount s;
     matchIntervalRef := matchIntervalRef s; selectionState := selectionState s;
     layers := layers s; view := view s; intervals := v;
     fresh := fresh s; pending := pending s; alerts := alerts s |}.

Definition setFresh (v : positive) (s : State) : State :=
  {| mapInstance := mapInstance s; markers := markers s;
     markersVersion := markersVersion s;
     path := path s; eta := eta s; isLoading := isLoading s;
     matchedUsersCount := matchedUsersCount s;
     matchIntervalRef := matchIntervalRef s; selectionState := selectionState s;
     layers := layers s; view := view s; intervals := intervals s;
     fresh := v; pending := pending s; alerts := alerts s |}.

Definition setPending (v : list Request) (s : State) : State :=
  {| mapInstance := mapInstance s; markers := markers s;
     markersVersion := markersVersion s;
     path := path s; eta := eta s; isLoading := isLoading s;
     matchedUsersCount := matchedUsersCount s;
     matchIntervalRef := matchIntervalRef s; selectionState := selectionState s;
     layers := layers s; view := view s; intervals := intervals s;
     fresh := fresh s; pending := v; alerts := alerts s |}.

(** [alert(msg)]. *)
Definition alert (msg : Alert) (s : State) : State :=
  {| mapInstance := mapInstance s; markers := markers s;
     markersVersion := markersVersion s;
     path := path s; eta := eta s; isLoading := isLoading s;
     matchedUsersCount := matchedUsersCount s;
     matchIntervalRef := matchIntervalRef s; selectionState := selectionState s;
     layers := layers s; view := view s; intervals := intervals s;
     fresh := fresh s; pending := pending s; alerts := alerts s ++ [msg] |}.

(** *** Leaflet and timer calls *)

(** [createMarker(latlng, type)]: a new marker, added to the map. *)
Definition createMarker (latlng : LatLng) (type : MarkerType) (s : State)
  : Marker * State :=
  let marker :=
    {| marker_id := fresh s; getLatLng := latlng; marker_type := type |} in
  (marker,
   setFresh (Pos.succ (fresh s)) (setLayers (layers s ++ [MarkerLayer marker]) s)).

(** [L.polyline(decodedPath, ...).addTo(mapInstance)]. *)
Definition L_polyline_addTo (decodedPath : list (Q * Q)) (s : State)
  : Polyline * State :=
  let polyline := {| polyline_id := fresh s; getLatLngs := decodedPath |} in
  (polyline,
   setFresh (Pos.succ (fresh s))
     (setLayers (layers s ++ [PolylineLayer polyline]) s)).

(** [mapInstance.removeLayer(layer)]. *)
Definition mapInstance_removeLayer (id : positive) (s : State) : State :=
  setLayers (removeLayer id (layers s)) s.

(** [window.setInterval(callback, 3000)]: a new running timer; the handle is
    a positive integer. *)
Definition window_setInterval (s : State) : positive * State :=
  (fresh s,
   setFresh (Pos.succ (fresh s)) (setIntervals (intervals s ++ [fresh s]) s)).

(** [clearInterval(id)]: the timer no longer fires. *)
Definition clearInterval (id : positive) (s : State) : State :=
  setIntervals (filter (fun i => negb (Pos.eqb i id)) (intervals s)) s.

(** [if (matchIntervalRef.current) { clearInterval(...); ... = null; }]. *)
Definition clear_match_interval (s : State) : State :=
  match matchIntervalRef s with
  | Some id => setMatchIntervalRef None (clearInterval id s)
  | None => s
  end.

(** *** Handlers *)

(** The closure of a handler created by the current render. *)
Definition closure_of (s : State) : Closure :=
  {| seen_mapInstance := mapInstance s;
     seen_markers := markers s;
     seen_path := path s |}.

(** [handleMapClick(e)], created by a render whose [selectionState] is the
    current one. *)
Definition handleMapClick (latlng : LatLng) (s : State) : State :=
  match selectionState s with
  | SELECTING_START =>
      let (startMarker, s) := createMarker latlng type_start s in
      setSelectionState SELECTING_END (setMarkers [startMarker] s)
  | SELECTING_END =>
      let (endMarker, s) := createMarker latlng type_end s in
      setSelectionState PATH_CONFIRMED (setMarkers (markers s ++ [endMarker]) s)
  | _ => s
  end.

(** [handleReset()], reading [mapInstance], [markers] and [path] from the
    closure [c]. *)
Definition handleReset (c : Closure) (s : State) : State :=
  if negb (seen_mapInstance c) then s
  else
    let s := clear_match_interval s in
    let s :=
      fold_left (fun s marker => mapInstance_removeLayer (marker_id marker) s)
        (seen_markers c) s in
    let s := setMarkers [] s in
    let s :=
      match seen_path c with
      | Some p => setPath None (mapInstance_removeLayer (polyline_id p) s)
      | None => s
      end in
    let s := setEta None s in
    let s := setMatchedUsersCount 0 s in
    let s := setSelectionState SELECTING_START s in
    let s := setIsLoading false s in
    setView (ViewAt TEHRAN_COORDS 13) s.

(** [handleConfirm()]. *)
Definition handleConfirm (s : State) : State :=
  setSelectionState SEARCHING_FOR_MATCH s.

(** The callback given to [setInterval]. *)
Definition interval_callback (s : State) : State :=
  let newCount := matchedUsersCount s + 1 in
  let s :=
    if 3 <=? newCount
    then setSelectionState MATCH_FOUND (clear_match_interval s)
    else s in
  setMatchedUsersCount newCount s.

(** *** The route fetch *)

(** The body of [fetchRoute] up to the awaited [fetch]: the loading flag is
    raised and the request leaves with the positions of the two markers. *)
Definition fetchRoute_start (s : State) : State :=
  match markers s with
  | [m0; m1] =>
      let request :=
        {| origin := getLatLng m0; destination := getLatLng m1;
           closure := closure_of s |} in
      setPending (pending s ++ [request]) (setIsLoading true s)
  | _ => s
  end.

(** How a block of statements ends. *)
Inductive Completion : Type :=
| Normal (s : State)
| Thrown (s : State).

(** [mapInstance.fitBounds(polyline.getBounds().pad(0.2))].  The bounds of
    a polyline without points have no corners, and [pad] throws on them. *)
Definition fitBounds_padded (polyline : Polyline) (s : State) : Completion :=
  match getLatLngs polyline with
  | [] => Thrown s
  | _ :: _ => Normal (setView (ViewFitted (polyline_id polyline)) s)
  end.

(** The [try] block of [fetchRoute] from the point where [fetch] settles. *)
Definition fetchRoute_try (r : Response) (s : State) : Completion :=
  match r with
  | NetworkError => Thrown s
  | HttpResponse ok status json =>
      if negb ok then Thrown s
      else
        match json with
        | None => Thrown s
        | Some data =>
            match paths data with
            | Some (route :: _) =>
                let decodedPath :=
                  map (fun p => (snd p, fst p)) (coordinates route) in
                let (polyline, s) := L_polyline_addTo decodedPath s in
                let s := setPath (Some polyline) s in
                let durationMinutes := Math_round_div (time route) 60000 in
                let s := setEta (Some (about_minutes_walking durationMinutes)) s in
                fitBounds_padded polyline s
            | _ => Thrown s
            end
        end
  end.

(** [fetchRoute] from the point where [fetch] settles: [try], [catch] with
    the alert and the reset of the closure, [finally]. *)
Definition fetchRoute_settle (req : Request) (r : Response) (s : State) : State :=
  let s :=
    match fetchRoute_try r s with
    | Normal s => s
    | Thrown s => handleReset (closure req) (alert alert_routing_failed s)
    end in
  setIsLoading false s.

(** The response passes the checks of the [try] block: [response.ok], a
    body that parses, and [data.paths && data.paths.length > 0]. *)
Definition carries_route (r : Response) : bool :=
  match r with
  | HttpResponse true _ (Some data) =>
      match paths data with
      | Some (_ :: _) => true
      | _ => false
      end
  | _ => false
  end.

(** [data.paths[0]] of such a response. *)
Definition first_path (r : Response) : option Path :=
  match r with
  | HttpResponse true _ (Some data) =>
      match paths data with
      | Some (route :: _) => Some route
      | _ => None
      end
  | _ => None
  end.

(** The polyline [fetchRoute] builds from [route] in the state [s]: the
    pairs swapped to [[lat, lng]]. *)
Definition polyline_of (route : Path) (s : State) : Polyline :=
  {| polyline_id := fresh s;
     getLatLngs := map (fun p => (snd p, fst p)) (coordinates route) |}.

(** *** Effects *)

(** The dependencies [[selectionState, markers, mapInstance]] differ. *)
Definition fetch_deps_changed (prev s : State) : bool :=
  negb (SelectionState_eqb (selectionState prev) (selectionState s))
  || negb (Nat.eqb (markersVersion prev) (markersVersion s))
  || negb (Bool.eqb (mapInstance prev) (mapInstance s)).

(** The effect that fetches the route. *)
Definition fetch_effect (s : State) : State :=
  if negb (SelectionState_eqb (selectionState s) PATH_CONFIRMED)
     || negb (Nat.eqb (List.length (markers s)) 2)
     || negb (mapInstance s)
  then s
  else fetchRoute_start s.

(** The effect that simulates the matches, and its cleanup. *)
Definition match_effect (s : State) : State :=
  if SelectionState_eqb (selectionState s) SEARCHING_FOR_MATCH then
    let s := setMatchedUsersCount 0 s in
    let (id, s) := window_setInterval s in
    setMatchIntervalRef (Some id) s
  else s.

Definition match_cleanup (s : State) : State := clear_match_interval s.

(** The effects that follow the render of [s] after the render of [prev]:
    the cleanups of the effects whose dependencies changed, then their
    bodies in the order of the file.  The state the bodies set
    ([isLoading], [matchedUsersCount]) is no dependency of theirs, so the
    render that follows runs none of them again. *)
Definition effects (prev s : State) : State :=
  let phase_changed :=
    negb (SelectionState_eqb (selectionState prev) (selectionState s)) in
  let s1 := if phase_changed then match_cleanup s else s in
  let s2 := if fetch_deps_changed prev s then fetch_effect s1 else s1 in
  if phase_changed then match_effect s2 else s2.

(** *** What the render offers *)

(** The click handler is registered on the map. *)
Definition click_registered (s : State) : bool :=
  mapInstance s && negb (isLoading s)
  && negb (SelectionState_eqb (selectionState s) SEARCHING_FOR_MATCH)
  && negb (SelectionState_eqb (selectionState s) MATCH_FOUND).

(** The confirm and reset buttons are rendered and not disabled. *)
Definition confirm_enabled (s : State) : bool :=
  SelectionState_eqb (selectionState s) PATH_CONFIRMED && negb (isLoading s).

Definition reset_enabled (s : State) : bool :=
  SelectionState_eqb (selectionState s) PATH_CONFIRMED && negb (isLoading s).

(** The cancel button of the searching view and the end button of the
    match-found view are rendered. *)
Definition cancel_rendered (s : State) : bool :=
  SelectionState_eqb (selectionState s) SEARCHING_FOR_MATCH.

Definition end_rendered (s : State) : bool :=
  SelectionState_eqb (selectionState s) MATCH_FOUND.

(** *** Events *)

Inductive Event : Type :=
| Mount
| MapClick (latlng : LatLng)
| PressConfirm
| PressReset
| PressCancel
| PressEnd
| IntervalFires (id : positive)
| FetchSettles (k : nat) (r : Response).

(** [handleReset] called from the current render, and the effects that
    follow. *)
Definition reset (s : State) : State :=
  effects s (handleReset (closure_of s) s).

(** The [k]-th fetch on its way settles with [r]. *)
Definition settle (k : nat) (r : Response) (s : State) : State :=
  match nth_error (pending s) k with
  | Some req =>
      let s' := setPending (firstn k (pending s) ++ skipn (S k) (pending s)) s in
      effects s (fetchRoute_settle req r s')
  | None => s
  end.

(** What the handler of an event leaves, when the render offers it: the
    values the component is rendered with next, before the effects of that
    render have run.  [Mount] is the effect of the first render, which
    creates the map, centred on Tehran. *)
Definition rendered (e : Event) (s : State) : State :=
  match e with
  | Mount =>
      if mapInstance s then s
      else setMapInstance true (setView (ViewAt TEHRAN_COORDS 13) s)
  | MapClick latlng =>
      if click_registered s then handleMapClick latlng s else s
  | PressConfirm => if confirm_enabled s then handleConfirm s else s
  | PressReset =>
      if reset_enabled s then handleReset (closure_of s) s else s
  | PressCancel =>
      if cancel_rendered s then handleReset (closure_of s) s else s
  | PressEnd => if end_rendered s then handleReset (closure_of s) s else s
  | IntervalFires id =>
      if existsb (Pos.eqb id) (intervals s) then interval_callback s else s
  | FetchSettles k r =>
      match nth_error (pending s) k with
      | Some req =>
          fetchRoute_settle req r
            (setPending (firstn k (pending s) ++ skipn (S k) (pending s)) s)
      | None => s
      end
  end.

(** One event of the event loop, processed to the end: the handler, when
    the render offers it, the render that follows ([rendered]) and the
    effects of that render.  The states of [run] and [reachable] are the
    states between two events; the render in between, which React commits
    before the effects run, is [rendered e s]
    ([IndexFacts.step_rendered]). *)
Definition step (e : Event) (s : State) : State :=
  match e with
  | Mount =>
      if mapInstance s then s
      else effects s (setMapInstance true (setView (ViewAt TEHRAN_COORDS 13) s))
  | MapClick latlng =>
      if click_registered s then effects s (handleMapClick latlng s) else s
  | PressConfirm =>
      if confirm_enabled s then effects s (handleConfirm s) else s
  | PressReset => if reset_enabled s then reset s else s
  | PressCancel => if cancel_rendered s then reset s else s
  | PressEnd => if end_rendered s then reset s else s
  | IntervalFires id =>
      if existsb (Pos.eqb id) (intervals s)
      then effects s (interval_callback s)
      else s
  | FetchSettles k r => settle k r s
  end.

Definition run (events : list Event) (s : State) : State :=
  fold_left (fun s e => step e s) events s.

(** The event is the settlement of a fetch. *)
Definition settles (e : Event) : bool :=
  match e with
  | FetchSettles _ _ => true
  | _ => false
  end.

(** The states the application can be in. *)
Inductive reachable : State -> Prop :=
| reachable_initial : reachable initial
| reachable_step (e : Event) (s : State) :
    reachable s -> reachable (step e s).

(** The state [handleReset] leaves, field by field. *)
Definition after_reset (c : Closure) (s : State) : State :=
  {| mapInstance := mapInstance s;
     markers := [];
     markersVersion := S (markersVersion s);
     path := match seen_path c with Some _ => None | None => path s end;
     eta := None;
     isLoading := false;
     matchedUsersCount := 0;
     matchIntervalRef := None;
     selectionState := SELECTING_START;
     layers :=
       match seen_path c with
       | Some p => removeLayer (polyline_id p)
                     (remove_markers (seen_markers c) (layers s))
       | None => remove_markers (seen_markers c) (layers s)
       end;
     view := Some (ViewAt TEHRAN_COORDS 13);
     intervals :=
       match matchIntervalRef s with
       | Some id => filter (fun i => negb (Pos.eqb i id)) (intervals s)
       | None => intervals s
       end;
     fresh := fresh s;
     pending := pending s;
     alerts := alerts s |}.

(** What holds of every reachable state (see [IndexFacts.reachable_Inv]). *)

Record Inv (s : State) : Prop := {
  inv_unmounted : mapInstance s = false -> s = initial;
  inv_markers :
    match selectionState s with
    | SELECTING_START => markers s = []
    | SELECTING_END => List.length (markers s) = 1%nat
    | _ => List.length (markers s) = 2%nat
    end;
  inv_timer :
    intervals s = match matchIntervalRef s with Some id => [id] | None => [] end;
  inv_ref :
    matchIntervalRef s <> None -> selectionState s = SEARCHING_FOR_MATCH;
  inv_searching :
    selectionState s = SEARCHING_FOR_MATCH -> matchIntervalRef s <> None;
  inv_pending :
    match pending s with
    | [] => isLoading s = false
    | [req] =>
        isLoading s = true /\ selectionState s = PATH_CONFIRMED
        /\ closure req = closure_of s
    | _ => False
    end;
  inv_layers : marker_layers (layers s) = markers s
}.

(** The state once the map exists. *)
Definition mounted : State := step Mount initial.

(** The interval timer [id] fires [n] times in a row. *)
Definition ticks (n : nat) (id : positive) (s : State) : State :=
  Nat.iter n (step (IntervalFires id)) s.

End Index.

(** ** The Google Directions variant ([App], src/unnamed/part_000) *)

Module Part000.
Import JS Polyline Leaflet.

Inductive SelectionState : Type :=
| SELECTING_START
| SELECTING_END
| PATH_CONFIRMED.

Definition SelectionState_eqb (a b : SelectionState) : bool :=
  match a, b with
  | SELECTING_START, SELECTING_START
  | SELECTING_END, SELECTING_END
  | PATH_CONFIRMED, PATH_CONFIRMED => true
  | _, _ => false
  end.

(** The texts passed to [alert]: the API key was not found; routing
    failed, please try other points; the routing service could not be
    reached; searching for a companion. *)
Inductive Alert : Type :=
| alert_api_key_missing
| alert_routing_failed
| alert_connection_failed
| alert_searching.

(** [durationText] with the English unit words replaced by the Persian
    ones; the replacement itself is not unfolded. *)
Inductive FarsiDuration : Type :=
| farsi (durationText : string).

(** The label passed to [setEta]: about [farsiDuration] of walking. *)
Inductive Eta : Type :=
| about_walking (farsiDuration : FarsiDuration).

(** What [handleReset] reads from the render that created it. *)
Record Closure : Type := {
  seen_mapInstance : bool;
  seen_markers : list Marker;
  seen_path : option Polyline
}.

(** A route fetch on its way: origin and destination of the URL and the
    closure of the [fetchRoute] that awaits the response. *)
Record Request : Type := {
  origin : LatLng;
  destination : LatLng;
  closure : Closure
}.

(** [route.legs[i]]: its [duration.text]. *)
Record Leg : Type := { duration_text : string }.

(** One entry of [data.routes]: [overview_polyline.points] and [legs]. *)
Record Route : Type := {
  overview_polyline_points : jsstring;
  legs : list Leg
}.

(** The JSON body of a response. *)
Record Data : Type := {
  status : string;
  routes : list Route;
  error_message : option string
}.

(** How the awaited [fetch] and [response.json()] end: one of them
    rejects, or the body parses. *)
Inductive Response : Type :=
| NetworkError
| JsonError
| Json (data : Data).

(** The state of the component and of what it acts on, as in [Index].
    [API_KEY] is [process.env.API_KEY], which no event changes. *)
Record State : Type := {
  mapInstance : bool;
  markers : list Marker;
  markersVersion : nat;
  path : option Polyline;
  eta : option Eta;
  isLoading : bool;
  selectionState : SelectionState;
  layers : list Layer;
  view : option View;
  fresh : positive;
  pending : list Request;
  alerts : list Alert;
  API_KEY : option string
}.

(** The state at the first render. *)
Definition initial (apiKey : option string) : State := {|
  mapInstance := false;
  markers := [];
  markersVersion := 0;
  path := None;
  eta := None;
  isLoading := false;
  selectionState := SELECTING_START;
  layers := [];
  view := None;
  fresh := 1;
  pending := [];
  alerts := [];
  API_KEY := apiKey
|}.

(** *** State setters *)

Definition setMapInstance (v : bool) (s : State) : State :=
  {| mapInstance := v;
     markers := markers s;
     markersVersion := markersVersion s;
     path := path s;
     eta := eta s;
     isLoading := isLoading s;
     selectionState := selectionState s;
     layers := layers s;
     view := view s;
     fresh := fresh s;
     pending := pending s;
     alerts := alerts s;
     API_KEY := API_KEY s |}.

Definition setMarkers (v : list Marker) (s : State) : State :=
  {| mapInstance := mapInstance s;
     markers := v;
     markersVersion := S (markersVersion s);
     path := path s;
     eta := eta s;
     isLoading := isLoading s;
     selectionState := selectionState s;
     layers := layers s;
     view := view s;
     fresh := fresh s;
     pending := pending s;
     alerts := alerts s;
     API_KEY := API_KEY s |}.

Definition setPath (v : option Polyline) (s : State) : State :=
  {| mapInstance := mapInstance s;
     markers := markers s;
     markersVersion := markersVersion s;
     path := v;
     eta := eta s;
     isLoading := isLoading s;
     selectionState := selectionState s;
     layers := layers s;
     view := view s;
     fresh := fresh s;
     pending := pending s;
     alerts := alerts s;
     API_KEY := API_KEY s |}.

Definition setEta (v : option Eta) (s : State) : State :=
  {| mapInstance := mapInstance s;
     markers := markers s;
     markersVersion := markersVersion s;
     path := path s;
     eta := v;
     isLoading := isLoading s;
     selectionState := selectionState s;
     layers := layers s;
     view := view s;
     fresh := fresh s;
     pending := pending s;
     alerts := alerts s;
     API_KEY := API_KEY s |}.

Definition setIsLoading (v : bool) (s : State) : State :=
  {| mapInstance := mapInstance s;
     markers := markers s;
     markersVersion := markersVersion s;
     path := path s;
     eta := eta s;
     isLoading := v;
     selectionState := selectionState s;
     layers := layers s;
     view := view s;
     fresh := fresh s;
     pending := pending s;
     alerts := alerts s;
     API_KEY := API_KEY s |}.

Definition setSelectionState (v : SelectionState) (s : State) : State :=
  {| mapInstance := mapInstance s;
     markers := markers s;
     markersVersion := markersVersion s;
     path := path s;
     eta := eta s;
     isLoading := isLoading s;
     selectionState := v;
     layers := layers s;
     view := view s;
     fresh := fresh s;
     pending := pending s;
     alerts := alerts s;
     API_KEY := API_KEY s |}.

Definition setLayers (v : list Layer) (s : State) : State :=
  {| mapInstance := mapInstance s;
     markers := markers s;
     markersVersion := markersVersion s;
     path := path s;
     eta := eta s;
     isLoading := isLoading s;
     selectionState := selectionState s;
     layers := v;
     view := view s;
     fresh := fresh s;
     pending := pending s;
     alerts := alerts s;
     API_KEY := API_KEY s |}.

Definition setView (v : View) (s : State) : State :=
  {| mapInstance := mapInstance s;
     markers := markers s;
     markersVersion := markersVersion s;
     path := path s;
     eta := eta s;
     isLoading := isLoading s;
     selectionState := selectionState s;
     layers := layers s;
     view := Some v;
     fresh := fresh s;
     pending := pending s;
     alerts := alerts s;
     API_KEY := API_KEY s |}.

Definition setFresh (v : positive) (s : State) : State :=
  {| mapInstance := mapInstance s;
     markers := markers s;
     markersVersion := markersVersion s;
     path := path s;
     eta := eta s;
     isLoading := isLoading s;
     selectionState := selectionState s;
     layers := layers s;
     view := view s;
     fresh := v;
     pending := pending s;
     alerts := alerts s;
     API_KEY := API_KEY s |}.

Definition setPending (v : list Request) (s : State) : State :=
  {| mapInstance := mapInstance s;
     markers := markers s;
     markersVersion := markersVersion s;
     path := path s;
     eta := eta s;
     isLoading := isLoading s;
     selectionState := selectionState s;
     layers := layers s;
     view := view s;
     fresh := fresh s;
     pending := v;
     alerts := alerts s;
     API_KEY := API_KEY s |}.

(** [alert(msg)]. *)
Definition alert (v : Alert) (s : State) : State :=
  {| mapInstance := mapInstance s;
     markers := markers s;
     markersVersion := markersVersion s;
     path := path s;
     eta := eta s;
     isLoading := isLoading s;
     selectionState := selectionState s;
     layers := layers s;
     view := view s;
     fresh := fresh s;
     pending := pending s;
     alerts := alerts s ++ [v];
     API_KEY := API_KEY s |}.

(** *** Leaflet calls *)

Definition createMarker (latlng : LatLng) (type : MarkerType) (s : State)
  : Marker * State :=
  let marker :=
    {| marker_id := fresh s; getLatLng := latlng; marker_type := type |} in
  (marker,
   setFresh (Pos.succ (fresh s)) (setLayers (layers s ++ [MarkerLayer marker]) s)).

Definition L_polyline_addTo (decodedPath : list (Q * Q)) (s : State)
  : Polyline * State :=
  let polyline := {| polyline_id := fresh s; getLatLngs := decodedPath |} in
  (polyline,
   setFresh (Pos.succ (fresh s))
     (setLayers (layers s ++ [PolylineLayer polyline]) s)).

Definition mapInstance_removeLayer (id : positive) (s : State) : State :=
  setLayers (removeLayer id (layers s)) s.

(** *** Handlers *)

Definition closure_of (s : State) : Closure :=
  {| seen_mapInstance := mapInstance s;
     seen_markers := markers s;
     seen_path := path s |}.

(** [handleMapClick(e)]. *)
Definition handleMapClick (latlng : LatLng) (s : State) : State :=
  match selectionState s with
  | SELECTING_START =>
      let (startMarker, s) := createMarker latlng type_start s in
      setSelectionState SELECTING_END (setMarkers [startMarker] s)
  | SELECTING_END =>
      let (endMarker, s) := createMarker latlng type_end s in
      setSelectionState PATH_CONFIRMED (setMarkers (markers s ++ [endMarker]) s)
  | PATH_CONFIRMED => s
  end.

(** [handleReset()], reading from the closure [c]. *)
Definition handleReset (c : Closure) (s : State) : State :=
  if negb (seen_mapInstance c) then s
  else
    let s :=
      fold_left (fun s marker => mapInstance_removeLayer (marker_id marker) s)
        (seen_markers c) s in
    let s := setMarkers [] s in
    let s :=
      match seen_path c with
      | Some p => setPath None (mapInstance_removeLayer (polyline_id p) s)
      | None => s
      end in
    let s := setEta None s in
    let s := setSelectionState SELECTING_START s in
    let s := setIsLoading false s in
    setView (ViewAt TEHRAN_COORDS 13) s.

(** [handleConfirm()]. *)
Definition handleConfirm (s : State) : State := alert alert_searching s.

(** *** The route fetch *)

(** [!apiKey] is false: the key is defined and not the empty string. *)
Definition truthy (apiKey : option string) : bool :=
  match apiKey with
  | Some (String _ _) => true
  | _ => false
  end.

(** The body of [fetchRoute] up to the awaited [fetch], in the closure [c]
    with the positions [startLatLng] and [endLatLng]: without a key, the
    alert and the reset; with one, the request leaves. *)
Definition fetchRoute_start (c : Closure) (startLatLng endLatLng : LatLng)
    (s : State) : State :=
  let s := setIsLoading true s in
  if negb (truthy (API_KEY s))
  then handleReset c (alert alert_api_key_missing s)
  else
    setPending
      (pending s ++ [{| origin := startLatLng; destination := endLatLng;
                        closure := c |}]) s.

Inductive Completion : Type :=
| Normal (s : State)
| Thrown (s : State).

(** [mapInstance.fitBounds(polyline.getBounds().pad(0.2))]. *)
Definition fitBounds_padded (polyline : Polyline) (s : State) : Completion :=
  match getLatLngs polyline with
  | [] => Thrown s
  | _ :: _ => Normal (setView (ViewFitted (polyline_id polyline)) s)
  end.

(** [data.status === 'OK']. *)
Definition status_OK (data : Data) : bool := String.eqb (status data) "OK".

(** The [try] block of [fetchRoute] from the point where [fetch] settles.
    A missing [routes[0]] or [legs[0]] makes the property access throw.
    [decodePolyline] always returns ([PolylineFacts.decodeRun_total]). *)
Definition fetchRoute_try (c : Closure) (r : Response) (s : State) : Completion :=
  match r with
  | NetworkError => Thrown s
  | JsonError => Thrown s
  | Json data =>
      if status_OK data then
        match routes data with
        | [] => Thrown s
        | route :: _ =>
            let encodedPolyline := overview_polyline_points route in
            match decodePolyline encodedPolyline with
            | None => Thrown s
            | Some decodedPath =>
                let (polyline, s) := L_polyline_addTo decodedPath s in
                let s := setPath (Some polyline) s in
                match legs route with
                | [] => Thrown s
                | leg :: _ =>
                    let durationText := duration_text leg in
                    let farsiDuration := farsi durationText in
                    let s := setEta (Some (about_walking farsiDuration)) s in
                    fitBounds_padded polyline s
                end
            end
        end
      else Normal (handleReset c (alert alert_routing_failed s))
  end.

(** [fetchRoute] from the point where [fetch] settles: [try], [catch],
    [finally]. *)
Definition fetchRoute_settle (req : Request) (r : Response) (s : State) : State :=
  let s :=
    match fetchRoute_try (closure req) r s with
    | Normal s => s
    | Thrown s => handleReset (closure req) (alert alert_connection_failed s)
    end in
  setIsLoading false s.

(** The response has status OK and a first route. *)
Definition first_route (r : Response) : option Route :=
  match r with
  | Json data =>
      if status_OK data then
        match routes data with
        | route :: _ => Some route
        | [] => None
        end
      else None
  | _ => None
  end.

Definition carries_route (r : Response) : bool :=
  match first_route r with
  | Some _ => true
  | None => false
  end.

(** The alert shown for a response that carries no route: the [else]
    branch for a status other than OK, the [catch] block otherwise. *)
Definition failure_alert (r : Response) : Alert :=
  match r with
  | Json data =>
      if status_OK data then alert_connection_failed else alert_routing_failed
  | _ => alert_connection_failed
  end.

(** The polyline [fetchRoute] builds from the decoded path in the state [s]. *)
Definition polyline_of (decodedPath : list LatLngTuple) (s : State) : Polyline :=
  {| polyline_id := fresh s; getLatLngs := decodedPath |}.

(** *** Effects *)

Definition fetch_deps_changed (prev s : State) : bool :=
  negb (SelectionState_eqb (selectionState prev) (selectionState s))
  || negb (Nat.eqb (markersVersion prev) (markersVersion s))
  || negb (Bool.eqb (mapInstance prev) (mapInstance s)).

(** The effect that fetches the route.  When it resets at once for want of
    a key, the render that follows runs it again and its guard fails. *)
Definition fetch_effect (s : State) : State :=
  if SelectionState_eqb (selectionState s) PATH_CONFIRMED && mapInstance s then
    match markers s with
    | [m0; m1] => fetchRoute_start (closure_of s) (getLatLng m0) (getLatLng m1) s
    | _ => s
    end
  else s.

Definition effects (prev s : State) : State :=
  if fetch_deps_changed prev s then fetch_effect s else s.

(** *** What the render offers *)

Definition click_registered (s : State) : bool :=
  mapInstance s && negb (isLoading s).

(** The two buttons are always rendered, and disabled while loading. *)
Definition buttons_enabled (s : State) : bool := negb (isLoading s).

(** *** Events *)

Inductive Event : Type :=
| Mount
| MapClick (latlng : LatLng)
| PressConfirm
| PressReset
| FetchSettles (k : nat) (r : Response).

Definition reset (s : State) : State :=
  effects s (handleReset (closure_of s) s).

Definition settle (k : nat) (r : Response) (s : State) : State :=
  match nth_error (pending s) k with
  | Some req =>
      let s' := setPending (firstn k (pending s) ++ skipn (S k) (pending s)) s in
      effects s (fetchRoute_settle req r s')
  | None => s
  end.

(** What the handler of an event leaves: the values the component is
    rendered with next, before the effects of that render have run. *)
Definition rendered (e : Event) (s : State) : State :=
  match e with
  | Mount =>
      if mapInstance s then s
      else setMapInstance true (setView (ViewAt TEHRAN_COORDS 13) s)
  | MapClick latlng =>
      if click_registered s then handleMapClick latlng s else s
  | PressConfirm => if buttons_enabled s then handleConfirm s else s
  | PressReset =>
      if buttons_enabled s then handleReset (closure_of s) s else s
  | FetchSettles k r =>
      match nth_error (pending s) k with
      | Some req =>
          fetchRoute_settle req r
            (setPending (firstn k (pending s) ++ skipn (S k) (pending s)) s)
      | None => s
      end
  end.

(** One event of the event loop, processed to the end: the handler, the
    render that follows ([rendered]) and the effects of that render.  The
    states of [run] and [reachable] are the states between two events; the
    render in between is [rendered e s] ([Part000Facts.step_rendered_g]). *)
Definition step (e : Event) (s : State) : State :=
  match e with
  | Mount =>
      if mapInstance s then s
      else effects s (setMapInstance true (setView (ViewAt TEHRAN_COORDS 13) s))
  | MapClick latlng =>
      if click_registered s then effects s (handleMapClick latlng s) else s
  | PressConfirm =>
      if buttons_enabled s then effects s (handleConfirm s) else s
  | PressReset => if buttons_enabled s then reset s else s
  | FetchSettles k r => settle k r s
  end.

Definition run (events : list Event) (s : State) : State :=
  fold_left (fun s e => step e s) events s.

(** The event is the settlement of a fetch. *)
Definition settles (e : Event) : bool :=
  match e with
  | FetchSettles _ _ => true
  | _ => false
  end.

Inductive reachable (apiKey : option string) : State -> Prop :=
| reachable_initial : reachable apiKey (initial apiKey)
| reachable_step (e : Event) (s : State) :
    reachable apiKey s -> reachable apiKey (step e s).

(** The state [handleReset] leaves, field by field. *)
Definition after_reset (c : Closure) (s : State) : State :=
  {| mapInstance := mapInstance s;
     markers := [];
     markersVersion := S (markersVersion s);
     path := match seen_path c with Some _ => None | None => path s end;
     eta := None;
     isLoading := false;
     selectionState := SELECTING_START;
     layers :=
       match seen_path c with
       | Some p => removeLayer (polyline_id p)
                     (remove_markers (seen_markers c) (layers s))
       | None => remove_markers (seen_markers c) (layers s)
       end;
     view := Some (ViewAt TEHRAN_COORDS 13);
     fresh := fresh s;
     pending := pending s;
     alerts := alerts s;
     API_KEY := API_KEY s |}.

(** What holds of every reachable state (see [Part000Facts.reachable_Inv]). *)
Record Inv (s : State) : Prop := {
  inv_unmounted :
    mapInstance s = false ->
    selectionState s = SELECTING_START /\ path s = None /\ eta s = None
    /\ pending s = [];
  inv_markers :
    match selectionState s with
    | SELECTING_START => markers s = []
    | SELECTING_END => List.length (markers s) = 1%nat
    | PATH_CONFIRMED => List.length (markers s) = 2%nat
    end;
  inv_pending :
    match pending s with
    | [] => isLoading s = false
    | [req] =>
        isLoading s = true /\ selectionState s = PATH_CONFIRMED
        /\ closure req = closure_of s /\ mapInstance s = true
    | _ => False
    end;
  inv_layers : marker_layers (layers s) = markers s
}.

(** The state once the map exists. *)
Definition mounted (apiKey : option string) : State := step Mount (initial apiKey).

End Part000.

(** ** The duration text of the ETA label (src/unnamed/part_000, [fetchRoute]) *)

Module Part000Text.
Import JS.

(** [w] is a prefix of [s]: the literal [w] matches at the start of [s]. *)
Fixpoint starts (w s : jsstring) : bool :=
  match w, s with
  | [], _ => true
  | c :: w', d :: s' => (c =? d) && starts w' s'
  | _ :: _, [] => false
  end.

(** [s.includes(w)]. *)
Fixpoint includes (s w : jsstring) : bool :=
  match s with
  | [] => starts w []
  | _ :: rest => starts w s || includes rest w
  end.

(** A pattern [/w1|w2|.../] at the start of [s]: the alternatives are tried
    from left to right; the length of the first one that matches. *)
Fixpoint first_match (alternatives : list jsstring) (s : jsstring) : option nat :=
  match alternatives with
  | [] => None
  | w :: rest =>
      if starts w s then Some (List.length w) else first_match rest s
  end.

(** [s.replace(/w1|w2|.../g, replacement)] for literal alternatives, none of
    them empty, and a replacement without [$]: the string is scanned from the
    left; where the pattern matches, the replacement is written and the scan
    goes on behind the match; elsewhere the code unit is copied.  [skip] is
    the number of code units of the last match still to be passed over. *)
Fixpoint replace_from (alternatives : list jsstring) (replacement : jsstring)
    (skip : nat) (s : jsstring) : jsstring :=
  match s with
  | [] => []
  | c :: rest =>
      match skip with
      | S k => replace_from alternatives replacement k rest
      | O =>
          match first_match alternatives s with
          | Some len =>
              replacement
                ++ replace_from alternatives replacement (Nat.pred len) rest
          | None => c :: replace_from alternatives replacement 0 rest
          end
      end
  end.

Definition replace (alternatives : list jsstring) (replacement s : jsstring)
  : jsstring :=
  replace_from alternatives replacement 0 s.

(** The two replacement literals, the Persian words for minute (U+062F
    U+0642 U+06CC U+0642 U+0647) and for hour (U+0633 U+0627 U+0639
    U+062A). *)
Definition minute_word : jsstring := [1583; 1602; 1740; 1602; 1607].
Definition hour_word : jsstring := [1587; 1575; 1593; 1578].

(** [durationText.replace(/mins|min/g, ...).replace(/hours|hour/g, ...)]. *)
Definition farsiDuration (durationText : jsstring) : jsstring :=
  replace [str "hours"; str "hour"] hour_word
    (replace [str "mins"; str "min"] minute_word durationText).

End Part000Text.

(** ** Sample inputs *)

Module Fixtures.
Import JS Polyline Leaflet.

(** The reference fixture of the encoding. *)
Definition fixture : jsstring := str "_p~iF~ps|U_ulLnnqC_mqNvxq`@".

(** Two points in Tehran. *)
Definition point_a : LatLng := {| lat := 35.70; lng := 51.40 |}%Q.
Definition point_b : LatLng := {| lat := 35.71; lng := 51.41 |}%Q.

(** A GraphHopper response with a path of two points, and one whose path
    has a single point. *)
Definition two_point_response : Index.Response :=
  Index.HttpResponse true 200
    (Some {| Index.paths :=
               Some [{| Index.coordinates := [(51.40, 35.70); (51.41, 35.71)]%Q;
                        Index.time := 95000 |}];
             Index.message := None |}).




(** A GraphHopper response whose path has no point, and a Google Directions
    response whose route has the reference fixture as geometry and no
    leg. *)
Definition no_point_response : Index.Response :=
  Index.HttpResponse true 200
    (Some {| Index.paths :=
               Some [{| Index.coordinates := []; Index.time := 95000 |}];
             Index.message := None |}).

Definition no_leg_directions : Part000.Response :=
  Part000.Json
    {| Part000.status := "OK";
       Part000.routes :=
         [{| Part000.overview_polyline_points := fixture;
             Part000.legs := [] |}];
       Part000.error_message := None |}.

(** The events up to the point where the route fetch is on its way. *)
Definition two_clicks : list Index.Event :=
  [Index.Mount; Index.MapClick point_a; Index.MapClick point_b].

Definition two_clicks_g : list Part000.Event :=
  [Part000.Mount; Part000.MapClick point_a; Part000.MapClick point_b].

End Fixtures.

(** ** What the components render, and what else holds of their states *)

Module IndexView.
Import Leaflet Index.

(** The instruction banner, with the phase whose text it shows:
    [(selectionState === 'SELECTING_START' || ... 'SELECTING_END') &&
    !isLoading]. *)
Definition instruction_banner (s : State) : option SelectionState :=
  if (SelectionState_eqb (selectionState s) SELECTING_START
      || SelectionState_eqb (selectionState s) SELECTING_END)
     && negb (isLoading s)
  then Some (selectionState s)
  else None.

(** The banner that says the route is being computed: [isLoading]. *)
Definition loading_banner (s : State) : bool := isLoading s.

(** The bottom sheet has the class [visible]. *)
Definition bottom_sheet_visible (s : State) : bool :=
  (SelectionState_eqb (selectionState s) PATH_CONFIRMED
   || SelectionState_eqb (selectionState s) SEARCHING_FOR_MATCH
   || SelectionState_eqb (selectionState s) MATCH_FOUND)
  && negb (isLoading s).

(** The number of the three panels (instruction banner, loading banner,
    visible bottom sheet) that are on the screen. *)
Definition panels_shown (s : State) : nat :=
  (match instruction_banner s with Some _ => 1 | None => 0 end)
  + (if loading_banner s then 1 else 0)
  + (if bottom_sheet_visible s then 1 else 0).

(** A route is on the screen: one of the last three phases, not loading. *)
Definition routed (s : State) : bool := bottom_sheet_visible s.

(** The markers are a start marker, then an end marker. *)
Definition kinds_ok (ms : list Marker) : Prop :=
  map marker_type ms = firstn (List.length ms) [type_start; type_end].

(** What holds of every reachable state besides [Inv] (see
    [IndexMore.run_Inv2]). *)
Record Inv2 (s : State) : Prop := {
  inv2_count :
    match selectionState s with
    | SEARCHING_FOR_MATCH => 0 <= matchedUsersCount s < 3
    | MATCH_FOUND => matchedUsersCount s = 3
    | _ => matchedUsersCount s = 0
    end;
  inv2_kinds : kinds_ok (markers s);
  inv2_request :
    forall req, In req (pending s) ->
      map getLatLng (markers s) = [origin req; destination req];
  inv2_routed :
    routed s = true ->
    exists polyline,
      path s = Some polyline
      /\ getLatLngs polyline <> []
      /\ eta s <> None
      /\ view s = Some (ViewFitted (polyline_id polyline))
      /\ In (PolylineLayer polyline) (layers s);
  inv2_selecting :
    mapInstance s = true -> routed s = false ->
    eta s = None /\ view s = Some (ViewAt TEHRAN_COORDS 13)
}.

(** The stamps of the map: every layer on the map and the stored path
    carry a stamp below the next one to be given (see
    [IndexMore.run_Stamps]). *)
Record Stamps (s : State) : Prop := {
  stamps_layers :
    Forall (fun l => (layer_id l < fresh s)%positive) (layers s);
  stamps_path :
    forall p, path s = Some p -> (polyline_id p < fresh s)%positive
}.

(** Events that lead back to the first phase: the button of the phase; in
    SELECTING_END, which has no button, a second click at [latlng] and the
    failure of the fetch it starts; while loading, the failure of the
    fetch. *)
Definition way_back (latlng : LatLng) (s : State) : list Event :=
  match selectionState s with
  | SELECTING_START => []
  | SELECTING_END => [MapClick latlng; FetchSettles 0 NetworkError]
  | PATH_CONFIRMED =>
      if isLoading s then [FetchSettles 0 NetworkError] else [PressReset]
  | SEARCHING_FOR_MATCH => [PressCancel]
  | MATCH_FOUND => [PressEnd]
  end.

End IndexView.

Module Part000View.
Import Leaflet Part000.

(** The instruction banner: [selectionState !== 'PATH_CONFIRMED' &&
    !isLoading]. *)
Definition instruction_banner (s : State) : option SelectionState :=
  if negb (SelectionState_eqb (selectionState s) PATH_CONFIRMED)
     && negb (isLoading s)
  then Some (selectionState s)
  else None.

Definition loading_banner (s : State) : bool := isLoading s.

Definition bottom_sheet_visible (s : State) : bool :=
  SelectionState_eqb (selectionState s) PATH_CONFIRMED && negb (isLoading s).

Definition panels_shown (s : State) : nat :=
  (match instruction_banner s with Some _ => 1 | None => 0 end)
  + (if loading_banner s then 1 else 0)
  + (if bottom_sheet_visible s then 1 else 0).

Definition routed (s : State) : bool := bottom_sheet_visible s.

Definition kinds_ok (ms : list Marker) : Prop :=
  map marker_type ms = firstn (List.length ms) [type_start; type_end].

(** What holds of every reachable state besides [Inv] (see
    [Part000More.run_Inv2_g]). *)
Record Inv2 (s : State) : Prop := {
  inv2_kinds : kinds_ok (markers s);
  inv2_request :
    forall req, In req (pending s) ->
      map getLatLng (markers s) = [origin req; destination req];
  inv2_key : pending s <> [] -> truthy (API_KEY s) = true;
  inv2_routed :
    routed s = true ->
    truthy (API_KEY s) = true
    /\ exists polyline,
         path s = Some polyline
         /\ getLatLngs polyline <> []
         /\ eta s <> None
         /\ view s = Some (ViewFitted (polyline_id polyline))
         /\ In (PolylineLayer polyline) (layers s);
  inv2_selecting :
    routed s = false ->
    eta s = None
    /\ (mapInstance s = true -> view s = Some (ViewAt TEHRAN_COORDS 13))
}.

(** The stamps of the map, as in [IndexView]. *)
Record Stamps (s : State) : Prop := {
  stamps_layers :
    Forall (fun l => (layer_id l < fresh s)%positive) (layers s);
  stamps_path :
    forall p, path s = Some p -> (polyline_id p < fresh s)%positive
}.

(** Events that lead back to the first phase: a second click at [latlng]
    and the failure of the fetch it starts (if it starts one), the failure
    of the fetch on its way, or the reset button. *)
Definition way_back (latlng : LatLng) (s : State) : list Event :=
  match selectionState s with
  | SELECTING_START => []
  | SELECTING_END => [MapClick latlng; FetchSettles 0 NetworkError]
  | PATH_CONFIRMED =>
      if isLoading s then [FetchSettles 0 NetworkError] else [PressReset]
  end.

End Part000View.

(** * Lemmas *)

(** ** Facts about the polyline decoder *)

Module PolylineFacts.
Import JS Polyline.

(** *** 32-bit operators on values that fit *)

Lemma wrap32_small (x : Z) : - 2 ^ 31 <= x < 2 ^ 31 -> wrap32 x = x.
Proof. intros H. unfold wrap32. rewrite Z.mod_small; lia. Qed.

Lemma land_31 (v : Z) : Z.land v 31 = v mod 32.
Proof. change 31 with (Z.ones 5). rewrite Z.land_ones by lia. reflexivity. Qed.

Lemma land_1 (v : Z) : Z.land v 1 = v mod 2.
Proof. change 1 with (Z.ones 1). rewrite Z.land_ones by lia. reflexivity. Qed.

Lemma land_low_high (r c s : Z) :
  0 <= s -> 0 <= r < 2 ^ s -> Z.land r (Z.shiftl c s) = 0.
Proof.
  intros Hs Hr. apply Z.bits_inj'. intros n Hn.
  rewrite Z.land_spec, Z.bits_0.
  destruct (Z.ltb_spec n s) as [Hlt | Hge].
  - rewrite Z.shiftl_spec_low by assumption. apply andb_false_r.
  - destruct (Z.eq_dec r 0) as [-> | Hnz].
    + rewrite Z.bits_0. reflexivity.
    + rewrite (Z.bits_above_log2 r n); [reflexivity | lia |].
      assert (Z.log2 r < s) by (apply Z.log2_lt_pow2; lia). lia.
Qed.

Lemma lor_low_high (r c s : Z) :
  0 <= s -> 0 <= r < 2 ^ s -> Z.lor r (Z.shiftl c s) = r + c * 2 ^ s.
Proof.
  intros Hs Hr.
  pose proof (land_low_high r c s Hs Hr) as Hland.
  rewrite <- Z.lxor_lor by assumption.
  rewrite <- Z.add_nocarry_lxor by assumption.
  rewrite Z.shiftl_mul_pow2 by assumption. reflexivity.
Qed.

Lemma and32_31 (b : Z) : 0 <= b < 2 ^ 31 -> and32 b 31 = b mod 32.
Proof.
  intros Hb. unfold and32.
  rewrite (wrap32_small b), (wrap32_small 31) by lia.
  rewrite land_31. apply wrap32_small.
  pose proof (Z.mod_pos_bound b 32). lia.
Qed.

Lemma shl32_fits (x s : Z) :
  0 <= s <= 30 -> 0 <= x -> x * 2 ^ s < 2 ^ 31 -> shl32 x s = x * 2 ^ s.
Proof.
  intros Hs Hx Hfit. unfold shl32.
  assert (Hp : 0 < 2 ^ s) by (apply Z.pow_pos_nonneg; lia).
  rewrite land_31, (Z.mod_small s 32) by lia.
  rewrite (wrap32_small x) by nia.
  rewrite Z.shiftl_mul_pow2 by lia.
  apply wrap32_small. nia.
Qed.

Lemma or32_low_high (r x s : Z) :
  0 <= s -> 0 <= r < 2 ^ s -> 0 <= x -> r + x * 2 ^ s < 2 ^ 31 ->
  or32 r (x * 2 ^ s) = r + x * 2 ^ s.
Proof.
  intros Hs Hr Hx Hfit. unfold or32.
  assert (Hp : 0 < 2 ^ s) by (apply Z.pow_pos_nonneg; lia).
  rewrite (wrap32_small r), (wrap32_small (x * 2 ^ s)) by nia.
  rewrite <- (Z.shiftl_mul_pow2 x s) by lia.
  rewrite lor_low_high by lia.
  rewrite Z.shiftl_mul_pow2 by lia.
  apply wrap32_small. nia.
Qed.

(** *** Reading back what the reference encoder wrote *)

Lemma charCodeAt_middle (pre : jsstring) (c : Z) (post : jsstring) :
  charCodeAt (pre ++ c :: post) (List.length pre) = Int c.
Proof.
  unfold charCodeAt. rewrite nth_error_app2 by lia.
  rewrite Nat.sub_diag. reflexivity.
Qed.

Lemma encodeUnsigned_length (fuel : nat) (v : Z) :
  (1 <= List.length (encodeUnsigned fuel v) <= S fuel)%nat.
Proof.
  revert v. induction fuel as [| fuel IH]; intros v; simpl.
  - lia.
  - destruct (32 <=? v); simpl; [specialize (IH (Z.shiftr v 5)) |]; lia.
Qed.

(** One iteration of the group loop at a code unit inside the string. *)
Lemma readGroup_at (fuel : nat) (pre : jsstring) (c : Z) (post : jsstring)
    (shift r : Z) :
  readGroup (S fuel) (pre ++ c :: post) (List.length pre) shift r
  = if 32 <=? c - 63
    then readGroup fuel (pre ++ c :: post) (S (List.length pre)) (shift + 5)
           (or32 r (shl32 (and32 (wrap32 (c - 63)) 31) shift))
    else Some (S (List.length pre),
               or32 r (shl32 (and32 (wrap32 (c - 63)) 31) shift)).
Proof. cbn [readGroup]. rewrite charCodeAt_middle. reflexivity. Qed.

(** The chunk that one code unit contributes to [result]. *)
Lemma chunk_fits (b x shift r : Z) :
  0 <= b < 2 ^ 31 -> b mod 32 = x ->
  0 <= shift <= 30 -> 0 <= r < 2 ^ shift -> r + x * 2 ^ shift < 2 ^ 31 ->
  or32 r (shl32 (and32 (wrap32 b) 31) shift) = r + x * 2 ^ shift.
Proof.
  intros Hb Hx Hs Hr Hfit.
  assert (Hp : 0 < 2 ^ shift) by (apply Z.pow_pos_nonneg; lia).
  pose proof (Z.mod_pos_bound b 32 ltac:(lia)) as Hm.
  rewrite (wrap32_small b) by lia.
  rewrite and32_31, Hx by lia.
  rewrite shl32_fits by nia.
  apply or32_low_high; lia.
Qed.

(** The last step of a group: a code unit without the continuation bit. *)
Lemma readGroup_last (rfuel : nat) (pre post : jsstring) (v shift r : Z) :
  0 <= v < 32 -> 0 <= shift <= 30 -> 0 <= r < 2 ^ shift ->
  r + v * 2 ^ shift < 2 ^ 31 ->
  readGroup (S rfuel) (pre ++ (v + 63) :: post) (List.length pre) shift r
  = Some (S (List.length pre), r + v * 2 ^ shift).
Proof.
  intros Hv Hs Hr Hfit. rewrite readGroup_at.
  replace (v + 63 - 63) with v by lia.
  destruct (Z.leb_spec 32 v) as [Hge | _]; [lia |].
  rewrite (chunk_fits v v) by (try apply Z.mod_small; lia). reflexivity.
Qed.

Lemma readGroup_encodeUnsigned (fuel : nat) :
  forall (v : Z) (pre post : jsstring) (shift r : Z) (rfuel : nat),
    0 <= v < 32 ^ Z.of_nat (S fuel) ->
    0 <= shift <= 30 -> 0 <= r < 2 ^ shift ->
    r + v * 2 ^ shift < 2 ^ 31 ->
    (List.length (encodeUnsigned fuel v) <= rfuel)%nat ->
    readGroup rfuel (pre ++ encodeUnsigned fuel v ++ post) (List.length pre)
      shift r
    = Some ((List.length pre + List.length (encodeUnsigned fuel v))%nat,
            r + v * 2 ^ shift).
Proof.
  induction fuel as [| fuel IH]; intros v pre post shift r rfuel Hv Hs Hr Hfit Hfuel.
  - cbn [encodeUnsigned List.length app] in *.
    destruct rfuel as [| rfuel]; [lia |].
    rewrite readGroup_last by lia. f_equal. f_equal. lia.
  - assert (Hp : 0 < 2 ^ shift) by (apply Z.pow_pos_nonneg; lia).
    cbn [encodeUnsigned] in *.
    destruct (Z.leb_spec 32 v) as [Hge | Hlt].
    + cbn [List.length app] in *.
      destruct rfuel as [| rfuel]; [lia |].
      pose proof (Z.mod_pos_bound v 32 ltac:(lia)) as Hm.
      pose proof (Z.div_mod v 32 ltac:(lia)) as Hdm.
      assert (Hc : Z.lor 32 (Z.land v 31) = 32 + v mod 32).
      { rewrite land_31, Z.lor_comm.
        pose proof (lor_low_high (v mod 32) 1 5 ltac:(lia)) as Hl.
        change (Z.shiftl 1 5) with 32 in Hl. change (2 ^ 5) with 32 in Hl.
        rewrite Hl by lia. lia. }
      rewrite Hc, readGroup_at.
      replace (32 + v mod 32 + 63 - 63) with (32 + v mod 32) by lia.
      destruct (Z.leb_spec 32 (32 + v mod 32)) as [_ | Hbad]; [| lia].
      assert (Hlow : (32 + v mod 32) mod 32 = v mod 32).
      { symmetry. apply (Z.mod_unique _ _ 1); lia. }
      assert (Hq : 1 <= v / 32) by (apply Z.div_le_lower_bound; lia).
      rewrite (chunk_fits _ (v mod 32)) by (try assumption; nia).
      rewrite Z.shiftr_div_pow2 by lia. change (2 ^ 5) with 32.
      assert (Hpow : 2 ^ (shift + 5) = 32 * 2 ^ shift)
        by (rewrite Z.pow_add_r by lia; change (2 ^ 5) with 32; lia).
      assert (Hs' : shift + 5 <= 30).
      { destruct (Z.le_gt_cases (shift + 5) 30) as [H | H]; [assumption |].
        assert (2 ^ 31 <= 2 ^ (shift + 5)) by (apply Z.pow_le_mono_r; lia).
        nia. }
      replace (pre ++ (32 + v mod 32 + 63) :: encodeUnsigned fuel (v / 32) ++ post)
        with ((pre ++ [32 + v mod 32 + 63]) ++ encodeUnsigned fuel (v / 32) ++ post)
        by (rewrite <- app_assoc; reflexivity).
      replace (S (List.length pre))
        with (List.length (pre ++ [32 + v mod 32 + 63]))
        by (rewrite length_app; simpl; lia).
      rewrite IH.
      * f_equal. f_equal.
        -- rewrite length_app. cbn [List.length]. lia.
        -- rewrite Hpow. nia.
      * split; [lia |].
        apply Z.div_lt_upper_bound; [lia |].
        rewrite Nat2Z.inj_succ, Z.pow_succ_r in Hv by lia. lia.
      * lia.
      * rewrite Hpow. nia.
      * rewrite Hpow. nia.
      * rewrite Z.shiftr_div_pow2 in Hfuel by lia. change (2 ^ 5) with 32 in Hfuel.
        lia.
    + cbn [List.length app] in *.
      destruct rfuel as [| rfuel]; [lia |].
      rewrite readGroup_last by lia.
      f_equal. f_equal. lia.
Qed.

(** *** Zig-zag *)

Lemma zigzag_range (d : Z) :
  - 2 ^ 30 <= d < 2 ^ 30 -> 0 <= zigzag d < 2 ^ 31.
Proof.
  intros Hd. unfold zigzag, Z.lnot.
  rewrite Z.shiftl_mul_pow2 by lia. change (2 ^ 1) with 2.
  destruct (Z.ltb_spec d 0); lia.
Qed.

Lemma zigzag_parity (d : Z) :
  (d < 0 /\ zigzag d = 2 * (- d - 1) + 1) \/ (0 <= d /\ zigzag d = 2 * d + 0).
Proof.
  unfold zigzag, Z.lnot. rewrite Z.shiftl_mul_pow2 by lia. change (2 ^ 1) with 2.
  destruct (Z.ltb_spec d 0); [left | right]; lia.
Qed.

Lemma unzigzag_zigzag (d : Z) :
  - 2 ^ 30 <= d < 2 ^ 30 -> unzigzag (zigzag d) = d.
Proof.
  intros Hd. pose proof (zigzag_range d Hd) as Hz.
  unfold unzigzag, and32, sar32, not32.
  rewrite (wrap32_small (zigzag d)), (wrap32_small 1) by lia.
  rewrite land_1, land_31. change (1 mod 32) with 1.
  rewrite Z.shiftr_div_pow2 by lia. change (2 ^ 1) with 2.
  destruct (zigzag_parity d) as [[Hneg Hv] | [Hpos Hv]].
  - assert (Hm : zigzag d mod 2 = 1)
      by (symmetry; apply (Z.mod_unique _ _ (- d - 1)); lia).
    assert (Hq : zigzag d / 2 = - d - 1)
      by (symmetry; apply (Z.div_unique _ _ _ 1); lia).
    rewrite Hm, Hq. change (wrap32 1 =? 0) with false. cbn [negb].
    rewrite wrap32_small by lia. unfold Z.lnot. lia.
  - assert (Hm : zigzag d mod 2 = 0)
      by (symmetry; apply (Z.mod_unique _ _ d); lia).
    assert (Hq : zigzag d / 2 = d)
      by (symmetry; apply (Z.div_unique _ _ _ 0); lia).
    rewrite Hm, Hq. change (wrap32 0 =? 0) with true. reflexivity.
Qed.

Lemma readGroup_encodeSigned (d : Z) (pre post : jsstring) (rfuel : nat) :
  - 2 ^ 30 <= d < 2 ^ 30 ->
  (List.length (encodeSigned d) <= rfuel)%nat ->
  readGroup rfuel (pre ++ encodeSigned d ++ post) (List.length pre) 0 0
  = Some ((List.length pre + List.length (encodeSigned d))%nat, zigzag d).
Proof.
  intros Hd Hfuel. pose proof (zigzag_range d Hd) as Hz.
  unfold encodeSigned in *. fold (zigzag d) in *.
  rewrite readGroup_encodeUnsigned.
  - f_equal. f_equal. change (2 ^ 0) with 1. lia.
  - change (32 ^ Z.of_nat 7) with (2 ^ 35). lia.
  - lia.
  - change (2 ^ 0) with 1. lia.
  - change (2 ^ 0) with 1. lia.
  - assumption.
Qed.

Lemma encodeSigned_length (d : Z) : (1 <= List.length (encodeSigned d))%nat.
Proof. unfold encodeSigned. apply encodeUnsigned_length. Qed.

Lemma encodeFrom_length (coords : list LatLngTuple) :
  forall plat plng : Z,
    (2 * List.length coords <= List.length (encodeFrom plat plng coords))%nat.
Proof.
  induction coords as [| [lat lng] rest IH]; intros plat plng;
    cbn [encodeFrom List.length]; [lia |].
  rewrite !length_app.
  pose proof (encodeSigned_length (round1e5 lat - plat)).
  pose proof (encodeSigned_length (round1e5 lng - plng)).
  specialize (IH (round1e5 lat) (round1e5 lng)). lia.
Qed.

(** *** The decoder on an encoded sequence *)

Lemma decodeLoop_encodeFrom (coords : list LatLngTuple) :
  forall (pre : jsstring) (plat plng : Z) (path : list LatLngTuple) (fuel : nat),
    Forall fits coords ->
    - 2 ^ 29 < plat < 2 ^ 29 -> - 2 ^ 29 < plng < 2 ^ 29 ->
    (List.length coords < fuel)%nat ->
    decodeLoop fuel (pre ++ encodeFrom plat plng coords) (List.length pre)
      plat plng path
    = Some (List.length (pre ++ encodeFrom plat plng coords),
            path ++ map rounded coords).
Proof.
  induction coords as [| [lat lng] rest IH];
    intros pre plat plng path fuel Hfits Hplat Hplng Hfuel.
  - destruct fuel as [| fuel]; [simpl in Hfuel; lia |].
    cbn [encodeFrom decodeLoop map]. rewrite !app_nil_r.
    rewrite Nat.ltb_irrefl. reflexivity.
  - destruct fuel as [| fuel]; [simpl in Hfuel; lia |].
    inversion Hfits as [| c l [Hlat Hlng] Hrest]; subst. cbn [fst snd] in *.
    cbn [encodeFrom decodeLoop].
    set (dlat := round1e5 lat - plat). set (dlng := round1e5 lng - plng).
    set (tail := encodeFrom (round1e5 lat) (round1e5 lng) rest).
    pose proof (encodeSigned_length dlat) as Hl1.
    pose proof (encodeSigned_length dlng) as Hl2.
    assert (Hlt : (List.length pre
                   <? List.length (pre ++ encodeSigned dlat ++ encodeSigned dlng ++ tail))%nat
                  = true).
    { apply Nat.ltb_lt. rewrite !length_app. lia. }
    rewrite Hlt.
    rewrite readGroup_encodeSigned
      by (subst dlat; try lia; rewrite !length_app; lia).
    rewrite unzigzag_zigzag by (subst dlat; lia).
    replace (pre ++ encodeSigned dlat ++ encodeSigned dlng ++ tail)
      with ((pre ++ encodeSigned dlat) ++ encodeSigned dlng ++ tail)
      by (rewrite <- app_assoc; reflexivity).
    rewrite <- length_app.
    rewrite readGroup_encodeSigned
      by (subst dlng; try lia; rewrite !length_app; lia).
    rewrite unzigzag_zigzag by (subst dlng; lia).
    replace ((pre ++ encodeSigned dlat) ++ encodeSigned dlng ++ tail)
      with (((pre ++ encodeSigned dlat) ++ encodeSigned dlng) ++ tail)
      by (rewrite <- app_assoc; reflexivity).
    rewrite <- length_app.
    replace (plat + dlat) with (round1e5 lat) by (subst dlat; lia).
    replace (plng + dlng) with (round1e5 lng) by (subst dlng; lia).
    subst tail. rewrite IH; try assumption; [| simpl in Hfuel; lia].
    f_equal. f_equal. rewrite <- app_assoc. reflexivity.
Qed.

(** *** Rounding to 1e-5 *)

Lemma round1e5_bounds (x : Q) :
  (-180 <= x <= 180)%Q -> - 18000000 <= round1e5 x <= 18000000.
Proof.
  intros [Hlo Hhi]. unfold round1e5. split.
  - change (- 18000000) with (Qfloor (- 35999999 # 2)).
    apply Qfloor_resp_le. lra.
  - change 18000000 with (Qfloor (36000001 # 2)).
    apply Qfloor_resp_le. lra.
Qed.

Lemma Coordinate_fits (c : LatLngTuple) : Coordinate c -> fits c.
Proof.
  intros [[Hlat1 Hlat2] [Hlng1 Hlng2]]. unfold fits.
  pose proof (round1e5_bounds (fst c) ltac:(split; lra)).
  pose proof (round1e5_bounds (snd c) ltac:(split; lra)).
  lia.
Qed.

Lemma div1e5_scale (k : Z) : (div1e5 k == inject_Z k * (1 # 100000))%Q.
Proof. unfold div1e5, Qeq. simpl. lia. Qed.

Lemma round1e5_close (x : Q) :
  (Qabs (div1e5 (round1e5 x) - x) <= 1 # 100000)%Q.
Proof.
  rewrite div1e5_scale. unfold round1e5.
  set (y := (x * 100000 + (1 # 2))%Q).
  pose proof (Qfloor_le y) as Hle.
  pose proof (Qlt_floor y) as Hlt.
  rewrite inject_Z_plus in Hlt. change (inject_Z 1) with 1%Q in Hlt.
  subst y. apply Qabs_Qle_condition. split; lra.
Qed.

(** *** Termination of the decoder *)

Lemma readGroup_progress (fuel : nat) :
  forall (encoded : jsstring) (index : nat) (shift result : Z) (i : nat) (r : Z),
    readGroup fuel encoded index shift result = Some (i, r) -> (index < i)%nat.
Proof.
  induction fuel as [| fuel IH]; intros encoded index shift result i r H;
    cbn [readGroup] in H; [discriminate |].
  destruct (ge (minus (charCodeAt encoded index) 63) 32).
  - apply IH in H. lia.
  - injection H as <- _. lia.
Qed.

Lemma charCodeAt_beyond (encoded : jsstring) (index : nat) :
  (List.length encoded <= index)%nat -> charCodeAt encoded index = NaN.
Proof.
  intros H. unfold charCodeAt.
  rewrite (proj2 (nth_error_None encoded index) H). reflexivity.
Qed.

(** A read at or beyond the end of the string: [NaN] adds no bits to
    [result] and ends the group. *)
Lemma readGroup_beyond (fuel : nat) (encoded : jsstring) (index : nat)
    (shift result : Z) :
  (List.length encoded <= index)%nat ->
  readGroup (S fuel) encoded index shift result
  = Some (S index, or32 result 0).
Proof.
  intros H. cbn [readGroup]. rewrite charCodeAt_beyond by exact H.
  cbn [minus ge ToInt32].
  replace (shl32 (and32 0 31) shift) with 0; [reflexivity |].
  unfold shl32. change (and32 0 31) with 0. change (wrap32 0) with 0.
  rewrite Z.shiftl_0_l. reflexivity.
Qed.

Lemma readGroup_total (fuel : nat) :
  forall (encoded : jsstring) (index : nat) (shift result : Z),
    (1 <= fuel)%nat -> (List.length encoded < index + fuel)%nat ->
    exists i r, readGroup fuel encoded index shift result = Some (i, r).
Proof.
  induction fuel as [| fuel IH]; intros encoded index shift result H1 Hfuel;
    [lia |].
  cbn [readGroup].
  destruct (ge (minus (charCodeAt encoded index) 63) 32) eqn:Hge; [| eauto].
  destruct (Nat.le_gt_cases (List.length encoded) index) as [Hout | Hin].
  - rewrite charCodeAt_beyond in Hge by assumption. discriminate.
  - apply IH; lia.
Qed.

Lemma decodeLoop_total (fuel : nat) :
  forall (encoded : jsstring) (index : nat) (lat lng : Z) (path : list LatLngTuple),
    (1 <= fuel)%nat -> (List.length encoded < index + fuel)%nat ->
    exists n p, decodeLoop fuel encoded index lat lng path = Some (n, p).
Proof.
  induction fuel as [| fuel IH]; intros encoded index lat lng path H1 Hfuel;
    [lia |].
  cbn [decodeLoop].
  destruct (Nat.ltb_spec index (List.length encoded)) as [Hin | Hout]; [| eauto].
  destruct (readGroup_total (S (List.length encoded)) encoded index 0 0)
    as (i1 & r1 & E1); [lia | lia |].
  rewrite E1. apply readGroup_progress in E1 as P1.
  destruct (readGroup_total (S (List.length encoded)) encoded i1 0 0)
    as (i2 & r2 & E2); [lia | lia |].
  rewrite E2. apply readGroup_progress in E2 as P2.
  apply IH; lia.
Qed.

Lemma decodeRun_total (encoded : jsstring) :
  exists n p, decodeRun encoded = Some (n, p).
Proof. unfold decodeRun. apply decodeLoop_total; lia. Qed.

(** *** Strings that end inside a group *)

Lemma readGroup_overrun (fuel : nat) :
  forall (body : jsstring) (c : Z) (index : nat) (shift result : Z)
         (i : nat) (r : Z),
    32 <= c - 63 -> (index <= List.length body)%nat ->
    readGroup fuel (body ++ [c]) index shift result = Some (i, r) ->
    i <> List.length (body ++ [c]).
Proof.
  induction fuel as [| fuel IH];
    intros body c index shift result i r Hc Hidx H; cbn [readGroup] in H;
    [discriminate |].
  rewrite length_app. cbn [List.length].
  destruct (Nat.eq_dec index (List.length body)) as [-> | Hne].
  - rewrite charCodeAt_middle in H. cbn [minus ge] in H.
    destruct (Z.leb_spec 32 (c - 63)); [| lia].
    apply readGroup_progress in H. lia.
  - destruct (ge (minus (charCodeAt (body ++ [c]) index) 63) 32).
    + apply IH in H; [| assumption | lia].
      rewrite length_app in H. cbn [List.length] in H. assumption.
    + injection H as <- _. lia.
Qed.

Lemma decodeLoop_overrun (fuel : nat) :
  forall (body : jsstring) (c : Z) (index : nat) (lat lng : Z)
         (path : list LatLngTuple) (n : nat) (p : list LatLngTuple),
    32 <= c - 63 -> (index <= List.length body)%nat ->
    decodeLoop fuel (body ++ [c]) index lat lng path = Some (n, p) ->
    (List.length (body ++ [c]) < n)%nat /\ (List.length path < List.length p)%nat.
Proof.
  induction fuel as [| fuel IH];
    intros body c index lat lng path n p Hc Hidx H; cbn [decodeLoop] in H;
    [discriminate |].
  assert (Hlen : List.length (body ++ [c]) = S (List.length body))
    by (rewrite length_app; cbn [List.length]; lia).
  destruct (Nat.ltb_spec index (List.length (body ++ [c]))) as [_ | Hout];
    [| lia].
  destruct (readGroup _ (body ++ [c]) index 0 0) as [[i1 r1] |] eqn:E1;
    [| discriminate].
  destruct (readGroup _ (body ++ [c]) i1 0 0) as [[i2 r2] |] eqn:E2;
    [| discriminate].
  pose proof (readGroup_progress _ _ _ _ _ _ _ E1) as P1.
  pose proof (readGroup_progress _ _ _ _ _ _ _ E2) as P2.
  assert (Hi2 : i2 <> List.length (body ++ [c])).
  { destruct (Nat.le_gt_cases i1 (List.length body)) as [Hin | Hbeyond].
    - exact (readGroup_overrun _ _ _ _ _ _ _ _ Hc Hin E2).
    - lia. }
  destruct (Nat.le_gt_cases i2 (List.length body)) as [Hin | Hbeyond].
  - apply IH in H; [| assumption | assumption].
    rewrite !length_app in H. cbn [List.length] in H. lia.
  - destruct fuel as [| fuel]; cbn [decodeLoop] in H; [discriminate |].
    destruct (Nat.ltb_spec i2 (List.length (body ++ [c]))) as [Hbad | _];
      [lia |].
    injection H as <- <-. rewrite !length_app. cbn [List.length]. lia.
Qed.

End PolylineFacts.

(** ** Facts about the map collaborator *)

Module LeafletFacts.
Import Leaflet.

Lemma marker_layers_app (l1 l2 : list Layer) :
  marker_layers (l1 ++ l2) = marker_layers l1 ++ marker_layers l2.
Proof. unfold marker_layers. apply flat_map_app. Qed.

Lemma marker_layers_removeLayer (id : positive) (l : list Layer) :
  marker_layers (removeLayer id l)
  = filter (fun m => negb (Pos.eqb (marker_id m) id)) (marker_layers l).
Proof.
  unfold marker_layers, removeLayer.
  induction l as [| [m | p] l IH]; cbn [filter flat_map layer_id app];
    [reflexivity | |].
  - destruct (Pos.eqb (marker_id m) id); cbn [negb filter flat_map app];
      rewrite IH; reflexivity.
  - destruct (Pos.eqb (polyline_id p) id); cbn [negb filter flat_map app];
      rewrite IH; reflexivity.
Qed.

Lemma marker_layers_remove_markers (ms : list Marker) :
  forall l : list Layer,
    marker_layers (remove_markers ms l)
    = filter (fun m => negb (existsb (fun m' => Pos.eqb (marker_id m) (marker_id m')) ms))
        (marker_layers l).
Proof.
  induction ms as [| m0 ms IH]; intros l.
  - cbn [remove_markers fold_left existsb negb].
    induction (marker_layers l) as [| m l' IHl]; cbn; congruence.
  - change (remove_markers (m0 :: ms) l)
      with (remove_markers ms (removeLayer (marker_id m0) l)).
    rewrite IH, marker_layers_removeLayer. cbn [existsb].
    induction (marker_layers l) as [| m l' IHl]; cbn; [reflexivity |].
    destruct (Pos.eqb (marker_id m) (marker_id m0)); cbn; [assumption |].
    destruct (existsb _ ms); cbn; congruence.
Qed.

(** Removing the markers that are on the map leaves no marker on it. *)
Lemma marker_layers_remove_own (l : list Layer) :
  marker_layers (remove_markers (marker_layers l) l) = [].
Proof.
  rewrite marker_layers_remove_markers.
  assert (H : forall ms0 ms : list Marker, incl ms ms0 ->
            filter (fun m => negb (existsb (fun m' => Pos.eqb (marker_id m) (marker_id m')) ms0)) ms = []).
  { intros ms0. induction ms as [| m ms IH]; intros Hincl; cbn; [reflexivity |].
    assert (Hin : existsb (fun m' => Pos.eqb (marker_id m) (marker_id m')) ms0 = true).
    { apply existsb_exists. exists m. split; [apply Hincl; left; reflexivity |].
      apply Pos.eqb_refl. }
    rewrite Hin. cbn. apply IH. intros x Hx. apply Hincl. right. assumption. }
  apply H. apply incl_refl.
Qed.

Lemma marker_layers_remove_all (ms : list Marker) (l : list Layer) :
  marker_layers l = ms -> marker_layers (remove_markers ms l) = [].
Proof. intros <-. apply marker_layers_remove_own. Qed.

Lemma marker_layers_polyline (l : list Layer) (p : Polyline) :
  marker_layers (l ++ [PolylineLayer p]) = marker_layers l.
Proof. rewrite marker_layers_app. cbn. apply app_nil_r. Qed.

Lemma marker_layers_marker (l : list Layer) (m : Marker) :
  marker_layers (l ++ [MarkerLayer m]) = marker_layers l ++ [m].
Proof. rewrite marker_layers_app. reflexivity. Qed.

Lemma marker_layers_removed_polyline (id : positive) (l : list Layer) :
  marker_layers l = [] -> marker_layers (removeLayer id l) = [].
Proof. intros H. rewrite marker_layers_removeLayer, H. reflexivity. Qed.

Ltac layer_facts :=
  rewrite ?marker_layers_polyline, ?marker_layers_marker;
  repeat first
    [ apply marker_layers_remove_all
    | apply marker_layers_removed_polyline ];
  rewrite ?marker_layers_polyline, ?marker_layers_marker.

End LeafletFacts.

(** ** Facts about the GraphHopper variant *)

Module IndexFacts.
Import Leaflet LeafletFacts Index.

Lemma remove_markers_state (ms : list Marker) :
  forall s : State,
    fold_left (fun s marker => mapInstance_removeLayer (marker_id marker) s) ms s
    = setLayers (remove_markers ms (layers s)) s.
Proof.
  induction ms as [| m ms IH]; intros s.
  - destruct s; reflexivity.
  - cbn [fold_left]. rewrite IH. destruct s; reflexivity.
Qed.

Lemma handleReset_mounted (c : Closure) (s : State) :
  seen_mapInstance c = true -> handleReset c s = after_reset c s.
Proof.
  intros Hc. unfold handleReset. rewrite Hc. cbn [negb].
  rewrite remove_markers_state.
  destruct s as [mi ms mv p et il cnt ref ph ly vw iv fr pd al].
  destruct c as [cm cms [cp |]]; destruct ref as [id |]; reflexivity.
Qed.

Lemma handleReset_unmounted (c : Closure) (s : State) :
  seen_mapInstance c = false -> handleReset c s = s.
Proof. intros Hc. unfold handleReset. rewrite Hc. reflexivity. Qed.

(** The effects find nothing to do after a render in the first phase with
    no timer running. *)
Lemma effects_idle (prev s : State) :
  matchIntervalRef s = None ->
  selectionState s = SELECTING_START \/ selectionState s = SELECTING_END
  \/ selectionState s = MATCH_FOUND ->
  effects prev s = s.
Proof.
  intros Href Hph. unfold effects, match_cleanup, clear_match_interval.
  rewrite Href.
  assert (Hf : fetch_effect s = s).
  { unfold fetch_effect. destruct Hph as [-> | [-> | ->]]; reflexivity. }
  assert (Hm : match_effect s = s).
  { unfold match_effect. destruct Hph as [-> | [-> | ->]]; reflexivity. }
  destruct (negb _); destruct (fetch_deps_changed prev s);
    rewrite ?Hf, ?Hm; reflexivity.
Qed.

(** No dependency of an effect changed. *)
Lemma effects_unchanged (prev s : State) :
  selectionState s = selectionState prev ->
  markersVersion s = markersVersion prev ->
  mapInstance s = mapInstance prev ->
  effects prev s = s.
Proof.
  intros H1 H2 H3. unfold effects, fetch_deps_changed.
  rewrite H1, H2, H3, Nat.eqb_refl, Bool.eqb_reflx.
  destruct (selectionState prev); reflexivity.
Qed.

Lemma effects_same (s : State) : effects s s = s.
Proof. apply effects_unchanged; reflexivity. Qed.

(** The render enters [PATH_CONFIRMED]: only the fetch effect acts. *)
Lemma effects_confirmed (prev s : State) :
  selectionState s = PATH_CONFIRMED ->
  selectionState prev <> PATH_CONFIRMED ->
  matchIntervalRef s = None ->
  effects prev s = fetch_effect s.
Proof.
  intros Hs Hprev Href.
  unfold effects, fetch_deps_changed, match_cleanup, clear_match_interval.
  rewrite Hs, Href.
  assert (Hm : match_effect (fetch_effect s) = fetch_effect s).
  { unfold match_effect, fetch_effect, fetchRoute_start. rewrite Hs.
    destruct (_ || _); [rewrite Hs; reflexivity |].
    destruct (markers s) as [| m0 [| m1 [| m2 ms]]]; cbn; rewrite ?Hs; reflexivity. }
  assert (Hne : SelectionState_eqb (selectionState prev) PATH_CONFIRMED = false)
    by (destruct (selectionState prev); try reflexivity; congruence).
  rewrite Hne. cbn [negb orb]. exact Hm.
Qed.

(** The render enters [SEARCHING_FOR_MATCH]: only the match effect acts. *)
Lemma effects_searching (prev s : State) :
  selectionState s = SEARCHING_FOR_MATCH ->
  selectionState prev <> SEARCHING_FOR_MATCH ->
  matchIntervalRef s = None ->
  effects prev s = match_effect s.
Proof.
  intros Hs Hprev Href.
  unfold effects, fetch_deps_changed, match_cleanup, clear_match_interval,
    fetch_effect.
  rewrite Hs, Href.
  assert (Hne : SelectionState_eqb (selectionState prev) SEARCHING_FOR_MATCH = false)
    by (destruct (selectionState prev); try reflexivity; congruence).
  rewrite Hne. cbn [negb orb]. rewrite Hs. reflexivity.
Qed.

Lemma reset_mounted (s : State) :
  mapInstance s = true -> reset s = after_reset (closure_of s) s.
Proof.
  intros H. unfold reset.
  rewrite handleReset_mounted by exact H.
  apply effects_idle; cbn; auto.
Qed.

(** A fetch whose [try] block throws: the alert, the reset of the closure,
    and nothing for the effects to do. *)
Lemma settle_thrown (prev : State) (req : Request) (r : Response) (s s' : State) :
  seen_mapInstance (closure req) = true ->
  fetchRoute_try r s = Thrown s' ->
  effects prev (fetchRoute_settle req r s)
  = after_reset (closure req) (alert alert_routing_failed s').
Proof.
  intros Hc Ht. unfold fetchRoute_settle. rewrite Ht.
  rewrite handleReset_mounted by exact Hc.
  rewrite effects_idle by (cbn; auto).
  destruct s'; reflexivity.
Qed.

Lemma Inv_initial : Inv initial.
Proof. split; cbn; try reflexivity; try congruence. Qed.

Local Arguments marker_layers : simpl never.
Local Arguments remove_markers : simpl never.
Local Arguments removeLayer : simpl never.
Local Arguments TEHRAN_COORDS : simpl never.
Local Arguments Math_round_div : simpl never.

(** The reachable states have one of six shapes; [shapes] splits a state
    that satisfies the invariant accordingly. *)
Ltac shapes ph pd ref ms il iv Hm Ht Hr Hs Hp :=
  destruct ph; destruct pd as [| ?req [| ?req2 ?pd]];
  try (exfalso; exact Hp);
  (first [ subst il | destruct Hp as (-> & ?Hph & ?Hcl); try discriminate ]);
  (destruct ref as [?id |];
   [ try (specialize (Hr ltac:(discriminate)); discriminate)
   | try (exfalso; apply Hs; reflexivity) ]);
  subst iv;
  try (destruct ms as [| ?m0 [| ?m1 [| ?m2 ?ms]]]; try discriminate).

Lemma eqb_succ (n : nat) : Nat.eqb n (S n) = false.
Proof. apply Nat.eqb_neq. lia. Qed.

Ltac run_effects :=
  first
    [ rewrite effects_unchanged by reflexivity
    | rewrite effects_idle by (cbn; auto)
    | rewrite effects_confirmed by (cbn; congruence)
    | rewrite effects_searching by (cbn; congruence) ].

Ltac compute_step :=
  unfold step, reset, settle; cbn -[effects];
  try run_effects;
  cbn; rewrite ?Pos.eqb_refl; cbn.

Ltac finish Hl :=
  split; compute_step;
  try reflexivity; try congruence; try discriminate;
  try (intuition congruence);
  try (layer_facts; rewrite ?Hl; reflexivity).

(** The shapes of a response that [fetchRoute_try] tells apart. *)
Ltac responses r :=
  destruct r as [| [|] ?status [[[[| [[| ?c ?cs] ?t] ?rest] |] ?msg] |]].

(** A press on a button that calls [handleReset]: disabled, or the reset. *)
Ltac press_reset Hl p :=
  unfold step;
  cbn [reset_enabled cancel_rendered end_rendered SelectionState_eqb
       selectionState isLoading negb andb];
  first [ rewrite reset_mounted by reflexivity; destruct p; finish Hl
        | finish Hl ].

Lemma step_Inv (e : Event) (s : State) : Inv s -> Inv (step e s).
Proof.
  intros HI. destruct (mapInstance s) eqn:Hmi.
  2: { rewrite (inv_unmounted s HI Hmi).
       destruct e; try apply Inv_initial.
       - split; cbn; try reflexivity; congruence.
       - unfold step, settle. destruct k; apply Inv_initial. }
  destruct HI as [_ Hm Ht Hr Hs Hp Hl].
  destruct s as [mi ms mv p et il cnt ref ph ly vw iv fr pd al].
  cbn in *. subst mi.
  destruct e.
  - shapes ph pd ref ms il iv Hm Ht Hr Hs Hp; compute_step; finish Hl.
  - shapes ph pd ref ms il iv Hm Ht Hr Hs Hp; compute_step; finish Hl.
  - shapes ph pd ref ms il iv Hm Ht Hr Hs Hp; compute_step; finish Hl.
  - shapes ph pd ref ms il iv Hm Ht Hr Hs Hp; press_reset Hl p.
  - shapes ph pd ref ms il iv Hm Ht Hr Hs Hp; press_reset Hl p.
  - shapes ph pd ref ms il iv Hm Ht Hr Hs Hp; press_reset Hl p.
  - shapes ph pd ref ms il iv Hm Ht Hr Hs Hp;
      unfold step; cbn [intervals existsb orb];
      try (finish Hl; fail).
    destruct (Pos.eqb_spec id id0) as [-> | Hne]; cbn [orb]; [| finish Hl].
    unfold interval_callback. cbn [matchedUsersCount].
    destruct (3 <=? cnt + 1); compute_step; finish Hl.
  - shapes ph pd ref ms il iv Hm Ht Hr Hs Hp;
      unfold step, settle; cbn [pending nth_error];
      try (destruct k; finish Hl; fail).
    destruct k as [| k]; cbn [nth_error]; [| destruct k; finish Hl].
    cbn [firstn skipn app].
    responses r;
      try (erewrite settle_thrown; [| rewrite Hcl; reflexivity | reflexivity];
           rewrite Hcl; destruct p; finish Hl; fail);
      compute_step; finish Hl.
Qed.

Lemma reachable_Inv (s : State) : reachable s -> Inv s.
Proof.
  induction 1 as [| e s _ IH]; [apply Inv_initial | apply step_Inv, IH].
Qed.

Lemma reachable_run (events : list Event) :
  forall s : State, reachable s -> reachable (run events s).
Proof.
  induction events as [| e events IH]; intros s Hs; [exact Hs |].
  apply IH. constructor. exact Hs.
Qed.

Lemma run_Inv (events : list Event) : Inv (run events initial).
Proof. apply reachable_Inv, reachable_run, reachable_initial. Qed.

(** Splits a state that satisfies the invariant [HI] into the initial state
    and the six shapes of a mounted state. *)
Ltac inv_shapes s HI :=
  let Hmi := fresh "Hmi" in
  destruct (mapInstance s) eqn:Hmi;
  [ let Hm := fresh "Hm" in let Ht := fresh "Ht" in let Hr := fresh "Hr" in
    let Hs := fresh "Hs" in let Hp := fresh "Hp" in let Hl := fresh "Hl" in
    destruct HI as [_ Hm Ht Hr Hs Hp Hl];
    destruct s as [mi ms mv p et il cnt ref ph ly vw iv fr pd al];
    cbn in Hmi, Hm, Ht, Hr, Hs, Hp, Hl; subst mi;
    shapes ph pd ref ms il iv Hm Ht Hr Hs Hp
  | rewrite (inv_unmounted s HI Hmi) in * ].

(** An event is its render followed by the effects of that render. *)
Lemma step_rendered (e : Event) (s : State) :
  step e s = effects s (rendered e s).
Proof.
  destruct e; unfold step, rendered, reset, settle;
    repeat match goal with
           | |- context [if ?b then _ else _] => destruct b
           | |- context [match nth_error ?l ?k with _ => _ end] =>
               destruct (nth_error l k)
           end;
    rewrite ?effects_same; reflexivity.
Qed.

(** *** Map clicks *)

Lemma markers_at_most_two (s : State) : Inv s -> (List.length (markers s) <= 2)%nat.
Proof.
  intros HI. pose proof (inv_markers s HI) as H.
  destruct (selectionState s); rewrite ?H; cbn; lia.
Qed.

(** A click changes nothing in the last three phases and while the loading
    flag is set. *)
Lemma click_ignored (latlng : LatLng) (s : State) :
  selectionState s = PATH_CONFIRMED \/ selectionState s = SEARCHING_FOR_MATCH
  \/ selectionState s = MATCH_FOUND \/ isLoading s = true ->
  step (MapClick latlng) s = s.
Proof.
  intros H. unfold step, click_registered, handleMapClick.
  destruct H as [H | [H | [H | H]]]; rewrite H;
    rewrite ?andb_false_r; cbn [SelectionState_eqb negb andb];
    rewrite ?andb_false_r; try reflexivity.
  destruct (mapInstance s && negb (isLoading s)); [apply effects_same | reflexivity].
Qed.

Lemma clicks_ignored (clicks : list LatLng) (s : State) :
  selectionState s = PATH_CONFIRMED \/ selectionState s = SEARCHING_FOR_MATCH
  \/ selectionState s = MATCH_FOUND \/ isLoading s = true ->
  run (map MapClick clicks) s = s.
Proof.
  intros H. induction clicks as [| c clicks IH]; [reflexivity |].
  cbn [map run fold_left]. rewrite click_ignored by exact H. exact IH.
Qed.

(** *** Reset *)

Lemma reset_fields (s : State) :
  Inv s ->
  selectionState (reset s) = SELECTING_START
  /\ markers (reset s) = []
  /\ path (reset s) = None
  /\ eta (reset s) = None
  /\ matchedUsersCount (reset s) = 0
  /\ isLoading (reset s) = false
  /\ matchIntervalRef (reset s) = None
  /\ intervals (reset s) = []
  /\ marker_layers (layers (reset s)) = [].
Proof.
  intros HI. inv_shapes s HI.
  7: { cbn. repeat split; reflexivity. }
  all: rewrite reset_mounted by reflexivity.
  all: destruct p; cbn; rewrite ?Pos.eqb_refl; cbn; repeat split;
    try reflexivity; layer_facts; assumption.
Qed.

(** *** Route fetch *)

Lemma fetchRoute_try_fails (r : Response) (s : State) :
  carries_route r = false -> fetchRoute_try r s = Thrown s.
Proof.
  intros H. responses r; try reflexivity; discriminate.
Qed.

Lemma settle_failure (k : nat) (r : Response) (s : State) :
  Inv s -> (k < List.length (pending s))%nat -> carries_route r = false ->
  selectionState s = PATH_CONFIRMED
  /\ selectionState (step (FetchSettles k r) s) = SELECTING_START
  /\ markers (step (FetchSettles k r) s) = []
  /\ path (step (FetchSettles k r) s) = None
  /\ eta (step (FetchSettles k r) s) = None
  /\ isLoading (step (FetchSettles k r) s) = false
  /\ pending (step (FetchSettles k r) s) = []
  /\ marker_layers (layers (step (FetchSettles k r) s)) = []
  /\ alerts (step (FetchSettles k r) s) = alerts s ++ [alert_routing_failed].
Proof.
  intros HI Hk Hr. inv_shapes s HI; cbn in Hk; try lia.
  destruct k as [| k]; [| lia].
  unfold step, settle. cbn [nth_error pending firstn skipn app].
  erewrite settle_thrown;
    [| rewrite Hcl; reflexivity | apply fetchRoute_try_fails; exact Hr].
  rewrite Hcl. destruct p; cbn; repeat split; try reflexivity;
    layer_facts; assumption.
Qed.





(** *** Match simulation *)

Lemma no_timer_no_tick (id : positive) (s : State) :
  intervals s = [] -> step (IntervalFires id) s = s.
Proof. intros H. unfold step. rewrite H. reflexivity. Qed.

Lemma no_timer_no_ticks (fires : list positive) (s : State) :
  intervals s = [] -> run (map IntervalFires fires) s = s.
Proof.
  intros H. induction fires as [| id fires IH]; [reflexivity |].
  cbn [map run fold_left]. rewrite no_timer_no_tick by exact H. exact IH.
Qed.

Lemma State_eta (s : State) :
  s = {| mapInstance := mapInstance s; markers := markers s;
         markersVersion := markersVersion s; path := path s; eta := eta s;
         isLoading := isLoading s; matchedUsersCount := matchedUsersCount s;
         matchIntervalRef := matchIntervalRef s;
         selectionState := selectionState s; layers := layers s;
         view := view s; intervals := intervals s; fresh := fresh s;
         pending := pending s; alerts := alerts s |}.
Proof. destruct s; reflexivity. Qed.

(** Evaluates the innermost [step] of the goal on an explicit state, to an
    explicit state. *)
Ltac eval_step :=
  match goal with
  | |- context [step ?e ?s] =>
      lazymatch s with
      | context [step _ _] => fail
      | _ =>
          let E := fresh "E" in
          eassert (E : step e s = _)
            by (compute_step;
                match goal with |- ?l = _ => rewrite (State_eta l) end;
                cbn; rewrite ?Pos.eqb_refl; cbn; reflexivity);
          rewrite E; clear E
      end
  end.

(** The simulation from the confirmation on. *)
Lemma simulation_runs (s : State) :
  Inv s -> confirm_enabled s = true ->
  let id := fresh s in
  let s0 := step PressConfirm s in
  selectionState s0 = SEARCHING_FOR_MATCH
  /\ matchedUsersCount s0 = 0
  /\ intervals s0 = [id]
  /\ map matchedUsersCount [ticks 1 id s0; ticks 2 id s0; ticks 3 id s0]
     = [1; 2; 3]
  /\ map selectionState [ticks 1 id s0; ticks 2 id s0; ticks 3 id s0]
     = [SEARCHING_FOR_MATCH; SEARCHING_FOR_MATCH; MATCH_FOUND]
  /\ intervals (ticks 3 id s0) = []
  /\ matchIntervalRef (ticks 3 id s0) = None.
Proof.
  intros HI Hc. inv_shapes s HI; try discriminate Hc.
  unfold ticks, Nat.iter. cbn [nat_rect fresh]. repeat eval_step.
  repeat split; reflexivity.
Qed.

(** The simulation cancelled after fewer than three ticks. *)
Lemma simulation_stopped (n : nat) (s : State) :
  Inv s -> confirm_enabled s = true -> (n < 3)%nat ->
  let s0 := step PressConfirm s in
  let stopped := step PressCancel (ticks n (fresh s) s0) in
  selectionState (ticks n (fresh s) s0) = SEARCHING_FOR_MATCH
  /\ selectionState stopped = SELECTING_START
  /\ intervals stopped = []
  /\ matchIntervalRef stopped = None.
Proof.
  intros HI Hc Hn. inv_shapes s HI; try discriminate Hc.
  destruct n as [| [| [| n]]]; [| | | lia];
    unfold ticks, Nat.iter; cbn [nat_rect fresh]; destruct p; repeat eval_step;
    repeat split; reflexivity.
Qed.

End IndexFacts.

(** ** Facts about the Google Directions variant *)

Module Part000Facts.
Import JS Polyline Leaflet LeafletFacts Part000.

Lemma remove_markers_state_g (ms : list Marker) :
  forall s : State,
    fold_left (fun s marker => mapInstance_removeLayer (marker_id marker) s) ms s
    = setLayers (remove_markers ms (layers s)) s.
Proof.
  induction ms as [| m ms IH]; intros s.
  - destruct s; reflexivity.
  - cbn [fold_left]. rewrite IH. destruct s; reflexivity.
Qed.

Lemma handleReset_mounted_g (c : Closure) (s : State) :
  seen_mapInstance c = true -> handleReset c s = after_reset c s.
Proof.
  intros Hc. unfold handleReset. rewrite Hc. cbn [negb].
  rewrite remove_markers_state_g.
  destruct s as [mi ms mv p et il ph ly vw fr pd al key].
  destruct c as [cm cms [cp |]]; reflexivity.
Qed.

Lemma handleReset_unmounted_g (c : Closure) (s : State) :
  seen_mapInstance c = false -> handleReset c s = s.
Proof. intros Hc. unfold handleReset. rewrite Hc. reflexivity. Qed.

Lemma effects_unchanged_g (prev s : State) :
  selectionState s = selectionState prev ->
  markersVersion s = markersVersion prev ->
  mapInstance s = mapInstance prev ->
  effects prev s = s.
Proof.
  intros H1 H2 H3. unfold effects, fetch_deps_changed.
  rewrite H1, H2, H3, Nat.eqb_refl, Bool.eqb_reflx.
  destruct (selectionState prev); reflexivity.
Qed.

Lemma effects_same_g (s : State) : effects s s = s.
Proof. apply effects_unchanged_g; reflexivity. Qed.

Lemma effects_idle_g (prev s : State) :
  selectionState s = SELECTING_START \/ selectionState s = SELECTING_END ->
  effects prev s = s.
Proof.
  intros H. unfold effects, fetch_effect.
  destruct H as [-> | ->]; destruct (fetch_deps_changed prev s); reflexivity.
Qed.

Lemma effects_confirmed_g (prev s : State) :
  selectionState s = PATH_CONFIRMED ->
  selectionState prev <> PATH_CONFIRMED ->
  effects prev s = fetch_effect s.
Proof.
  intros Hs Hprev. unfold effects, fetch_deps_changed. rewrite Hs.
  assert (Hne : SelectionState_eqb (selectionState prev) PATH_CONFIRMED = false)
    by (destruct (selectionState prev); try reflexivity; congruence).
  rewrite Hne. reflexivity.
Qed.

Lemma reset_mounted_g (s : State) :
  mapInstance s = true -> reset s = after_reset (closure_of s) s.
Proof.
  intros H. unfold reset.
  rewrite handleReset_mounted_g by exact H.
  apply effects_idle_g. left. reflexivity.
Qed.

Lemma reset_unmounted_g (s : State) : mapInstance s = false -> reset s = s.
Proof.
  intros H. unfold reset.
  rewrite handleReset_unmounted_g by exact H. apply effects_same_g.
Qed.

Lemma Inv_initial_g (apiKey : option string) : Inv (initial apiKey).
Proof. split; cbn; auto. Qed.

Local Arguments marker_layers : simpl never.
Local Arguments remove_markers : simpl never.
Local Arguments removeLayer : simpl never.
Local Arguments TEHRAN_COORDS : simpl never.
Local Arguments decodePolyline : simpl never.

(** The reachable states have one of five shapes. *)
Ltac shapes_g mi ph pd ms il p et Hu Hm Hp :=
  destruct mi;
  [ clear Hu;
    destruct ph; destruct pd as [| ?req [| ?req2 ?pd]];
    try (exfalso; exact Hp);
    (first [ subst il | destruct Hp as (-> & ?Hph & ?Hcl & _); try discriminate ]);
    try (destruct ms as [| ?m0 [| ?m1 [| ?m2 ?ms]]]; try discriminate)
  | destruct (Hu eq_refl) as (-> & -> & -> & ->); clear Hu;
    cbn in Hm, Hp; subst ms il ].

Ltac run_effects_g :=
  first
    [ rewrite effects_unchanged_g by reflexivity
    | rewrite effects_idle_g by (cbn; auto)
    | rewrite effects_confirmed_g by (cbn; congruence) ].

Ltac compute_step_g :=
  unfold step, reset, settle; cbn -[effects];
  try run_effects_g;
  cbn; rewrite ?Pos.eqb_refl; cbn.

Ltac finish_g Hl :=
  split; cbn; rewrite ?Pos.eqb_refl; cbn;
  try reflexivity; try congruence; try discriminate;
  try (intuition congruence);
  try (layer_facts; rewrite ?Hl; reflexivity).

(** The shapes of a response that [fetchRoute_try] tells apart. *)
Ltac responses_g r :=
  destruct r as [| | [?st [| [?pts [| ?leg ?lgs]] ?rest] ?em]];
  unfold fetchRoute_settle, fetchRoute_try, status_OK;
  cbn [status routes overview_polyline_points legs];
  try match goal with
      | |- context [String.eqb ?st "OK"] => destruct (String.eqb st "OK")
      end;
  try match goal with
      | |- context [decodePolyline ?pts] =>
          destruct (decodePolyline pts) as [[| ?pt ?decoded] |]
      end.

Lemma step_Inv_g (e : Event) (s : State) : Inv s -> Inv (step e s).
Proof.
  intros [Hu Hm Hp Hl].
  destruct s as [mi ms mv p et il ph ly vw fr pd al key].
  cbn in Hu, Hm, Hp, Hl.
  destruct e.
  - shapes_g mi ph pd ms il p et Hu Hm Hp; compute_step_g; finish_g Hl.
  - shapes_g mi ph pd ms il p et Hu Hm Hp; compute_step_g;
      try (finish_g Hl; fail).
    unfold fetch_effect, fetchRoute_start. cbn -[handleReset].
    destruct key as [[| c k] |]; cbn -[handleReset];
      try (rewrite handleReset_mounted_g by reflexivity; destruct p);
      finish_g Hl.
  - shapes_g mi ph pd ms il p et Hu Hm Hp; compute_step_g; finish_g Hl.
  - shapes_g mi ph pd ms il p et Hu Hm Hp; unfold step;
      cbn [buttons_enabled isLoading negb];
      first [ rewrite reset_mounted_g by reflexivity; destruct p
            | rewrite reset_unmounted_g by reflexivity
            | idtac ];
      finish_g Hl.
  - shapes_g mi ph pd ms il p et Hu Hm Hp;
      unfold step, settle; cbn [pending nth_error];
      try (destruct k; finish_g Hl; fail).
    destruct k as [| k]; cbn [nth_error]; [| destruct k; finish_g Hl].
    cbn [firstn skipn app]. unfold fetchRoute_settle. rewrite Hcl.
    cbn [closure_of mapInstance markers path].
    responses_g r; cbn -[effects handleReset];
      try rewrite handleReset_mounted_g by reflexivity;
      run_effects_g; destruct p; finish_g Hl.
Qed.

Lemma reachable_Inv_g (apiKey : option string) (s : State) :
  reachable apiKey s -> Inv s.
Proof.
  induction 1 as [| e s _ IH]; [apply Inv_initial_g | apply step_Inv_g, IH].
Qed.

Lemma reachable_run_g (apiKey : option string) (events : list Event) :
  forall s : State, reachable apiKey s -> reachable apiKey (run events s).
Proof.
  induction events as [| e events IH]; intros s Hs; [exact Hs |].
  apply IH. constructor. exact Hs.
Qed.

Lemma run_Inv_g (apiKey : option string) (events : list Event) :
  Inv (run events (initial apiKey)).
Proof.
  apply (reachable_Inv_g apiKey), reachable_run_g, reachable_initial.
Qed.

Ltac inv_shapes_g s HI :=
  let Hu := fresh "Hu" in let Hm := fresh "Hm" in
  let Hp := fresh "Hp" in let Hl := fresh "Hl" in
  destruct HI as [Hu Hm Hp Hl];
  destruct s as [mi ms mv p et il ph ly vw fr pd al key];
  cbn in Hu, Hm, Hp, Hl;
  shapes_g mi ph pd ms il p et Hu Hm Hp.

(** An event is its render followed by the effects of that render. *)
Lemma step_rendered_g (e : Event) (s : State) :
  step e s = effects s (rendered e s).
Proof.
  destruct e; unfold step, rendered, reset, settle;
    repeat match goal with
           | |- context [if ?b then _ else _] => destruct b
           | |- context [match nth_error ?l ?k with _ => _ end] =>
               destruct (nth_error l k)
           end;
    rewrite ?effects_same_g; reflexivity.
Qed.

(** *** Map clicks *)

Lemma markers_at_most_two_g (s : State) :
  Inv s -> (List.length (markers s) <= 2)%nat.
Proof.
  intros HI. pose proof (inv_markers s HI) as H.
  destruct (selectionState s); rewrite ?H; cbn; lia.
Qed.

Lemma click_ignored_g (latlng : LatLng) (s : State) :
  selectionState s = PATH_CONFIRMED \/ isLoading s = true ->
  step (MapClick latlng) s = s.
Proof.
  intros H. unfold step, click_registered, handleMapClick.
  destruct H as [H | H]; rewrite H; rewrite ?andb_false_r; try reflexivity.
  destruct (mapInstance s && negb (isLoading s)); [apply effects_same_g | reflexivity].
Qed.

Lemma clicks_ignored_g (clicks : list LatLng) (s : State) :
  selectionState s = PATH_CONFIRMED \/ isLoading s = true ->
  run (map MapClick clicks) s = s.
Proof.
  intros H. induction clicks as [| c clicks IH]; [reflexivity |].
  cbn [map run fold_left]. rewrite click_ignored_g by exact H. exact IH.
Qed.

(** *** Reset *)

Lemma reset_fields_g (s : State) :
  Inv s ->
  selectionState (reset s) = SELECTING_START
  /\ markers (reset s) = []
  /\ path (reset s) = None
  /\ eta (reset s) = None
  /\ isLoading (reset s) = false
  /\ marker_layers (layers (reset s)) = [].
Proof.
  intros HI. inv_shapes_g s HI.
  5: { rewrite reset_unmounted_g by reflexivity. cbn. repeat split; auto. }
  all: rewrite reset_mounted_g by reflexivity.
  all: destruct p; cbn; repeat split; try reflexivity; layer_facts; assumption.
Qed.

(** *** Route fetch *)

Lemma settle_failure_g (k : nat) (r : Response) (s : State) :
  Inv s -> (k < List.length (pending s))%nat -> carries_route r = false ->
  selectionState s = PATH_CONFIRMED
  /\ selectionState (step (FetchSettles k r) s) = SELECTING_START
  /\ markers (step (FetchSettles k r) s) = []
  /\ path (step (FetchSettles k r) s) = None
  /\ eta (step (FetchSettles k r) s) = None
  /\ isLoading (step (FetchSettles k r) s) = false
  /\ pending (step (FetchSettles k r) s) = []
  /\ marker_layers (layers (step (FetchSettles k r) s)) = []
  /\ alerts (step (FetchSettles k r) s) = alerts s ++ [failure_alert r].
Proof.
  intros HI Hk Hr. inv_shapes_g s HI; cbn in Hk; try lia.
  destruct k as [| k]; [| lia].
  unfold step, settle. cbn [nth_error pending firstn skipn app].
  unfold fetchRoute_settle. rewrite Hcl.
  cbn [closure_of mapInstance markers path].
  unfold carries_route, first_route in Hr. unfold failure_alert.
  destruct r as [| | [st [| route rest] em]];
    unfold fetchRoute_try, status_OK in *; cbn [status routes] in *;
    try destruct (String.eqb st "OK"); try discriminate Hr;
    cbn -[effects handleReset];
    rewrite handleReset_mounted_g by reflexivity;
    run_effects_g; destruct p; cbn; repeat split; try reflexivity;
    layer_facts; assumption.
Qed.





End Part000Facts.

(** * The claims *)

Import JS Polyline Leaflet Fixtures.

(** ** Polyline decoder *)

(** C5, as the code has it: the decoder applied to the reference fixture
    returns three points, (38.5, -120.2), (40.7, -120.95) and
    (43.252, -126.453), the first two being those the claim names. *)
Theorem C5_fixture_decodes_to_three_points :
  exists path,
    decodePolyline fixture = Some path
    /\ same_path path
         [(38.5, -120.2); (40.7, -120.95); (43.252, -126.453)]%Q.
Proof.
  eexists. split; [vm_compute; reflexivity |].
  repeat constructor.
Qed.

(** C5, as stated, fails: what the decoder returns for the fixture is not
    the two-point sequence [(38.5, -120.2), (40.7, -120.95)]; it has a third
    point. *)
Lemma C5_fixture_is_not_two_points :
  exists path,
    decodePolyline fixture = Some path
    /\ List.length path = 3%nat
    /\ ~ same_path path [(38.5, -120.2); (40.7, -120.95)]%Q.
Proof.
  eexists. split; [vm_compute; reflexivity |]. split; [reflexivity |].
  intros H. apply Forall2_length in H. discriminate H.
Qed.

(** C6, as the code has it: for every input string that ends in the middle
    of a group, the decoder raises no error and returns a path with at least
    one point; it reads beyond the end of the string (it makes more
    [charCodeAt] calls than the string has code units), and every read at or
    beyond the end gives [NaN], which adds no bits to the result and ends
    the group. *)
Theorem C6_unterminated_input_is_decoded (encoded : jsstring) :
  unterminated encoded ->
  exists n path,
    decodeRun encoded = Some (n, path)
    /\ decodePolyline encoded = Some path
    /\ (List.length encoded < n)%nat
    /\ path <> []
    /\ forall (fuel index : nat) (shift result : Z),
         (List.length encoded <= index)%nat ->
         charCodeAt encoded index = NaN
         /\ readGroup (S fuel) encoded index shift result
            = Some (S index, or32 result 0).
Proof.
  intros (body & c & -> & Hc).
  destruct (PolylineFacts.decodeRun_total (body ++ [c])) as (n & path & E).
  exists n, path. unfold decodePolyline. rewrite E.
  split; [reflexivity |]. split; [reflexivity |].
  unfold decodeRun in E.
  apply PolylineFacts.decodeLoop_overrun in E; [| exact Hc | lia].
  destruct E as [Hn Hpath]. split; [exact Hn |]. split.
  - intros ->. cbn in Hpath. lia.
  - intros fuel index shift result Hi. split.
    + apply PolylineFacts.charCodeAt_beyond. exact Hi.
    + apply PolylineFacts.readGroup_beyond. exact Hi.
Qed.

Lemma C6_unterminated_input_is_decoded_witness :
  exists n path,
    decodeRun (str "_") = Some (n, path)
    /\ decodePolyline (str "_") = Some path
    /\ (List.length (str "_") < n)%nat
    /\ path <> []
    /\ forall (fuel index : nat) (shift result : Z),
         (List.length (str "_") <= index)%nat ->
         charCodeAt (str "_") index = NaN
         /\ readGroup (S fuel) (str "_") index shift result
            = Some (S index, or32 result 0).
Proof.
  apply (C6_unterminated_input_is_decoded (str "_")).
  exists [], 95. split; [reflexivity | vm_compute; discriminate].
Defined.

(** C6, as stated, fails: the one-unit string ["_"] (a group with its
    continuation bit set and nothing after it) is decoded without error
    to the single point (0, 0), after three reads on a string of length
    one. *)
Lemma C6_no_error_on_unterminated_input :
  unterminated (str "_")
  /\ decodeRun (str "_") = Some (3%nat, [(div1e5 0, div1e5 0)])
  /\ decodePolyline (str "_") = Some [(div1e5 0, div1e5 0)]
  /\ readGroup 2 (str "_") 0 0 0 = Some (2%nat, 0).
Proof.
  split; [exists [], 95; split; [reflexivity | vm_compute; discriminate] |].
  repeat split; reflexivity.
Qed.

(** C7: for every sequence of coordinates (latitude in [-90, 90],
    longitude in [-180, 180]) the decoder applied to the output of the
    reference encoder returns a path of the same length whose components
    are each within 1e-5 of the original; it is the sequence of the
    coordinates rounded to 1e-5, and the decoder reads exactly the encoded
    string. *)
Theorem C7_decode_encode_round_trip (coords : list LatLngTuple) :
  Forall Coordinate coords ->
  decodePolyline (encodePolyline coords) = Some (map rounded coords)
  /\ decodeRun (encodePolyline coords)
     = Some (List.length (encodePolyline coords), map rounded coords)
  /\ Forall2
       (fun decoded original =>
          (Qabs (fst decoded - fst original) <= 1 # 100000)%Q
          /\ (Qabs (snd decoded - snd original) <= 1 # 100000)%Q)
       (map rounded coords) coords.
Proof.
  intros Hc.
  assert (E : decodeRun (encodePolyline coords)
              = Some (List.length (encodePolyline coords), map rounded coords)).
  { unfold decodeRun, encodePolyline.
    pose proof (PolylineFacts.decodeLoop_encodeFrom coords [] 0 0 []
                  (S (List.length (encodeFrom 0 0 coords)))) as H.
    cbn [app List.length] in H. apply H.
    - eapply Forall_impl; [| exact Hc]. apply PolylineFacts.Coordinate_fits.
    - lia.
    - lia.
    - pose proof (PolylineFacts.encodeFrom_length coords 0 0). lia. }
  unfold decodePolyline. rewrite E. split; [reflexivity |]. split; [reflexivity |].
  clear E Hc. induction coords as [| [lat lng] rest IH]; cbn [map]; constructor.
  - unfold rounded. cbn [fst snd].
    split; apply PolylineFacts.round1e5_close.
  - exact IH.
Qed.

Lemma C7_decode_encode_round_trip_witness :
  let coords := [(38.5, -120.2); (40.7, -120.95); (43.252, -126.453)]%Q in
  decodePolyline (encodePolyline coords) = Some (map rounded coords)
  /\ decodeRun (encodePolyline coords)
     = Some (List.length (encodePolyline coords), map rounded coords)
  /\ Forall2
       (fun decoded original =>
          (Qabs (fst decoded - fst original) <= 1 # 100000)%Q
          /\ (Qabs (snd decoded - snd original) <= 1 # 100000)%Q)
       (map rounded coords) coords.
Proof.
  apply C7_decode_encode_round_trip.
  repeat constructor; cbn; unfold Qle; cbn; lia.
Defined.

(** C10: the decoder applied to the empty string returns the empty path;
    the loop body is not entered and no code unit is read. *)
Theorem C10_empty_string_decodes_to_empty_path :
  decodePolyline [] = Some []
  /\ decodeRun [] = Some (0%nat, [])
  /\ forall (fuel : nat) (lat lng : Z) (path : list LatLngTuple),
       decodeLoop (S fuel) [] 0 lat lng path = Some (0%nat, path).
Proof. repeat split. Qed.

(** ** Selection state machine *)

(** C1: whatever events are delivered, the machine never holds more than
    two markers.  From the mounted state the first click stores exactly
    the start marker and moves to SelectingEnd, the second appends exactly
    the end marker, moves to PathConfirmed and raises the loading flag, and
    every later click leaves the state as it is: a click changes nothing in
    PathConfirmed, SearchingForMatch, MatchFound or while the loading flag
    is set.  (In the Google variant the fetch needs the API key; without
    one the second click ends in the reset of the missing-key branch.) *)
Theorem C1_at_most_two_markers :
  (forall events : list Index.Event,
      (List.length (Index.markers (Index.run events Index.initial)) <= 2)%nat)
  /\ (forall (c1 c2 : LatLng) (later : list LatLng),
         let s1 := Index.step (Index.MapClick c1) Index.mounted in
         let s2 := Index.step (Index.MapClick c2) s1 in
         Index.markers s1
         = [{| marker_id := 1; getLatLng := c1; marker_type := type_start |}]
         /\ Index.selectionState s1 = Index.SELECTING_END
         /\ Index.markers s2
            = Index.markers s1
              ++ [{| marker_id := 2; getLatLng := c2; marker_type := type_end |}]
         /\ Index.selectionState s2 = Index.PATH_CONFIRMED
         /\ Index.isLoading s2 = true
         /\ Index.run (map Index.MapClick later) s2 = s2)
  /\ (forall (s : Index.State) (c : LatLng),
         Index.selectionState s = Index.PATH_CONFIRMED
         \/ Index.selectionState s = Index.SEARCHING_FOR_MATCH
         \/ Index.selectionState s = Index.MATCH_FOUND
         \/ Index.isLoading s = true ->
         Index.step (Index.MapClick c) s = s)
  /\ (forall (apiKey : option string) (events : list Part000.Event),
         (List.length
            (Part000.markers (Part000.run events (Part000.initial apiKey)))
          <= 2)%nat)
  /\ (forall (k : ascii) (key : string) (c1 c2 : LatLng) (later : list LatLng),
         let s0 := Part000.mounted (Some (String k key)) in
         let s1 := Part000.step (Part000.MapClick c1) s0 in
         let s2 := Part000.step (Part000.MapClick c2) s1 in
         Part000.markers s1
         = [{| marker_id := 1; getLatLng := c1; marker_type := type_start |}]
         /\ Part000.selectionState s1 = Part000.SELECTING_END
         /\ Part000.markers s2
            = Part000.markers s1
              ++ [{| marker_id := 2; getLatLng := c2; marker_type := type_end |}]
         /\ Part000.selectionState s2 = Part000.PATH_CONFIRMED
         /\ Part000.isLoading s2 = true
         /\ Part000.run (map Part000.MapClick later) s2 = s2)
  /\ (forall (s : Part000.State) (c : LatLng),
         Part000.selectionState s = Part000.PATH_CONFIRMED
         \/ Part000.isLoading s = true ->
         Part000.step (Part000.MapClick c) s = s).
Proof.
  split; [| split; [| split; [| split; [| split]]]].
  - intros events. apply IndexFacts.markers_at_most_two, IndexFacts.run_Inv.
  - intros c1 c2 later. cbv zeta.
    repeat split; try reflexivity.
    apply IndexFacts.clicks_ignored. left. reflexivity.
  - intros s c H. apply IndexFacts.click_ignored, H.
  - intros apiKey events.
    apply Part000Facts.markers_at_most_two_g, Part000Facts.run_Inv_g.
  - intros k key c1 c2 later. cbv zeta.
    repeat split; try reflexivity.
    apply Part000Facts.clicks_ignored_g. left. reflexivity.
  - intros s c H. apply Part000Facts.click_ignored_g, H.
Qed.

Lemma C1_at_most_two_markers_witness :
  let s := Index.run Fixtures.two_clicks Index.initial in
  Index.step (Index.MapClick point_a) s = s.
Proof.
  apply (proj1 (proj2 (proj2 C1_at_most_two_markers))).
  left. reflexivity.
Defined.

(** C2: in every reachable state, whatever the phase, a reset leaves the
    phase SelectingStart, no markers (in the state and on the map), no path,
    no ETA, the match counter at 0, the loading flag down and no match
    timer running. *)
Theorem C2_reset_from_any_phase :
  (forall events : list Index.Event,
      let s := Index.reset (Index.run events Index.initial) in
      Index.selectionState s = Index.SELECTING_START
      /\ Index.markers s = []
      /\ Index.path s = None
      /\ Index.eta s = None
      /\ Index.matchedUsersCount s = 0
      /\ Index.isLoading s = false
      /\ Index.matchIntervalRef s = None
      /\ Index.intervals s = []
      /\ marker_layers (Index.layers s) = [])
  /\ (forall (apiKey : option string) (events : list Part000.Event),
         let s := Part000.reset (Part000.run events (Part000.initial apiKey)) in
         Part000.selectionState s = Part000.SELECTING_START
         /\ Part000.markers s = []
         /\ Part000.path s = None
         /\ Part000.eta s = None
         /\ Part000.isLoading s = false
         /\ marker_layers (Part000.layers s) = []).
Proof.
  split.
  - intros events. apply IndexFacts.reset_fields, IndexFacts.run_Inv.
  - intros apiKey events.
    apply Part000Facts.reset_fields_g, Part000Facts.run_Inv_g.
Qed.

(** C3, where the code misses it: a fetch that fails after the route has
    been drawn.  The response carries a route without points (GraphHopper),
    or a route without legs (Google): the [catch] block shows the alert and
    calls [handleReset], which clears the markers and goes back to
    SelectingStart, but reads the [path] of the render that started the
    fetch: the route of the failed fetch is still stored, and still on the
    map. *)
Theorem C3_failed_fetch_keeps_the_route :
  (let s' :=
     Index.run (Fixtures.two_clicks ++ [Index.FetchSettles 0 no_point_response])
       Index.initial in
   Index.selectionState s' = Index.SELECTING_START
   /\ Index.markers s' = []
   /\ Index.alerts s' = [Index.alert_routing_failed]
   /\ exists polyline,
        Index.path s' = Some polyline
        /\ polyline_layers (Index.layers s') = [polyline])
  /\ (let s' :=
        Part000.run
          (Fixtures.two_clicks_g ++ [Part000.FetchSettles 0 no_leg_directions])
          (Part000.initial (Some "key"%string)) in
      Part000.selectionState s' = Part000.SELECTING_START
      /\ Part000.markers s' = []
      /\ Part000.alerts s' = [Part000.alert_connection_failed]
      /\ exists polyline,
           Part000.path s' = Some polyline
           /\ List.length (getLatLngs polyline) = 3%nat
           /\ polyline_layers (Part000.layers s') = [polyline]).
Proof.
  split; vm_compute; repeat (split; [reflexivity |]); eexists;
    repeat (split; [reflexivity |]); reflexivity.
Qed.



(** ** Match simulator *)

(** C8: once the confirmation starts the simulation (count reset to 0, one
    timer running), the count after the first, second and third tick is 1,
    2 and 3; the phase becomes MatchFound at the third tick and not before,
    the timer is then stopped, and no later firing of any timer changes the
    state.  When the search is cancelled after fewer than three ticks, the
    timer is cleared and no later firing changes the state, which stays in
    SelectingStart: MatchFound is never signalled. *)
Theorem C8_match_simulation (events : list Index.Event) :
  let s := Index.run events Index.initial in
  let id := Index.fresh s in
  let s0 := Index.step Index.PressConfirm s in
  Index.confirm_enabled s = true ->
  Index.selectionState s0 = Index.SEARCHING_FOR_MATCH
  /\ Index.matchedUsersCount s0 = 0
  /\ Index.intervals s0 = [id]
  /\ map Index.matchedUsersCount
       [Index.ticks 1 id s0; Index.ticks 2 id s0; Index.ticks 3 id s0]
     = [1; 2; 3]
  /\ map Index.selectionState
       [Index.ticks 1 id s0; Index.ticks 2 id s0; Index.ticks 3 id s0]
     = [Index.SEARCHING_FOR_MATCH; Index.SEARCHING_FOR_MATCH; Index.MATCH_FOUND]
  /\ Index.intervals (Index.ticks 3 id s0) = []
  /\ (forall fires : list positive,
         Index.run (map Index.IntervalFires fires) (Index.ticks 3 id s0)
         = Index.ticks 3 id s0)
  /\ (forall (n : nat) (fires : list positive),
         (n < 3)%nat ->
         let stopped := Index.step Index.PressCancel (Index.ticks n id s0) in
         Index.selectionState (Index.ticks n id s0) = Index.SEARCHING_FOR_MATCH
         /\ Index.intervals stopped = []
         /\ Index.selectionState stopped = Index.SELECTING_START
         /\ Index.run (map Index.IntervalFires fires) stopped = stopped).
Proof.
  intros s id s0 Hc.
  pose proof (IndexFacts.run_Inv events) as HI.
  destruct (IndexFacts.simulation_runs _ HI Hc)
    as (H1 & H2 & H3 & H4 & H5 & H6 & H7).
  repeat (split; [assumption |]). split.
  - intros fires. apply IndexFacts.no_timer_no_ticks. exact H6.
  - intros n fires Hn stopped.
    destruct (IndexFacts.simulation_stopped n _ HI Hc Hn) as (S1 & S2 & S3 & S4).
    repeat (split; [assumption |]).
    apply IndexFacts.no_timer_no_ticks. exact S3.
Qed.

Lemma C8_match_simulation_witness :
  let s :=
    Index.run (Fixtures.two_clicks ++ [Index.FetchSettles 0 two_point_response])
      Index.initial in
  let id := Index.fresh s in
  let s0 := Index.step Index.PressConfirm s in
  Index.selectionState s0 = Index.SEARCHING_FOR_MATCH
  /\ Index.matchedUsersCount s0 = 0
  /\ Index.intervals s0 = [id]
  /\ map Index.matchedUsersCount
       [Index.ticks 1 id s0; Index.ticks 2 id s0; Index.ticks 3 id s0]
     = [1; 2; 3]
  /\ map Index.selectionState
       [Index.ticks 1 id s0; Index.ticks 2 id s0; Index.ticks 3 id s0]
     = [Index.SEARCHING_FOR_MATCH; Index.SEARCHING_FOR_MATCH; Index.MATCH_FOUND]
  /\ Index.intervals (Index.ticks 3 id s0) = []
  /\ (forall fires : list positive,
         Index.run (map Index.IntervalFires fires) (Index.ticks 3 id s0)
         = Index.ticks 3 id s0)
  /\ (forall (n : nat) (fires : list positive),
         (n < 3)%nat ->
         let stopped := Index.step Index.PressCancel (Index.ticks n id s0) in
         Index.selectionState (Index.ticks n id s0) = Index.SEARCHING_FOR_MATCH
         /\ Index.intervals stopped = []
         /\ Index.selectionState stopped = Index.SELECTING_START
         /\ Index.run (map Index.IntervalFires fires) stopped = stopped).
Proof.
  apply (C8_match_simulation
           (Fixtures.two_clicks ++ [Index.FetchSettles 0 two_point_response])).
  reflexivity.
Defined.

(** ** Route client *)




(** * Further properties *)

(** ** Stamps of layers *)

Module StampFacts.
Import Leaflet.

Lemma Forall_removeLayer (P : Layer -> Prop) (id : positive) (l : list Layer) :
  Forall P l -> Forall P (removeLayer id l).
Proof.
  intros H. unfold removeLayer. apply Forall_forall. intros x Hx.
  apply filter_In in Hx. destruct Hx as [Hx _].
  exact (proj1 (Forall_forall P l) H x Hx).
Qed.

Lemma Forall_remove_markers (P : Layer -> Prop) (ms : list Marker) :
  forall l : list Layer, Forall P l -> Forall P (remove_markers ms l).
Proof.
  unfold remove_markers.
  induction ms as [| m ms IH]; intros l H; [exact H |].
  cbn [fold_left]. apply IH, Forall_removeLayer, H.
Qed.

Lemma Forall_stamps_succ (fr : positive) (l : list Layer) :
  Forall (fun x => (layer_id x < fr)%positive) l ->
  Forall (fun x => (layer_id x < Pos.succ fr)%positive) l.
Proof. apply Forall_impl. intros x H. lia. Qed.

Lemma In_removeLayer (x : Layer) (id : positive) (l : list Layer) :
  In x l -> layer_id x <> id -> In x (removeLayer id l).
Proof.
  intros Hx Hne. unfold removeLayer. apply filter_In. split; [exact Hx |].
  apply negb_true_iff, Pos.eqb_neq, Hne.
Qed.

Lemma removeLayer_gone (x : Layer) (id : positive) (l : list Layer) :
  In x (removeLayer id l) -> layer_id x <> id.
Proof.
  unfold removeLayer. intros H. apply filter_In in H. destruct H as [_ H].
  apply negb_true_iff, Pos.eqb_neq in H. exact H.
Qed.

Lemma In_remove_markers (x : Layer) (ms : list Marker) :
  forall l : list Layer,
    In x l -> (forall m, In m ms -> layer_id x <> marker_id m) ->
    In x (remove_markers ms l).
Proof.
  unfold remove_markers.
  induction ms as [| m ms IH]; intros l Hx Hne; [exact Hx |].
  cbn [fold_left]. apply IH.
  - apply In_removeLayer; [exact Hx | apply Hne; left; reflexivity].
  - intros m' Hm'. apply Hne. right. exact Hm'.
Qed.

(** The markers among layers with stamps below [fr] have stamps below
    [fr]. *)
Lemma marker_layers_stamps (fr : positive) (l : list Layer) (m : Marker) :
  Forall (fun x => (layer_id x < fr)%positive) l ->
  In m (marker_layers l) -> (marker_id m < fr)%positive.
Proof.
  intros H Hm. unfold marker_layers in Hm. apply in_flat_map in Hm.
  destruct Hm as (x & Hx & Hmx).
  pose proof (proj1 (Forall_forall _ l) H x Hx) as Hlt.
  destruct x as [m' | q]; [| contradiction].
  destruct Hmx as [<- | []]. exact Hlt.
Qed.

Ltac stamps Hf :=
  repeat first
    [ apply Forall_removeLayer
    | apply Forall_remove_markers
    | apply Forall_app; split
    | apply Forall_cons
    | apply Forall_nil
    | exact Hf
    | apply Forall_stamps_succ; exact Hf ];
  cbn; try lia.

End StampFacts.

(** ** More about the GraphHopper variant *)

Module IndexMore.
Import Leaflet LeafletFacts Index IndexFacts IndexView.

Local Arguments marker_layers : simpl never.
Local Arguments remove_markers : simpl never.
Local Arguments removeLayer : simpl never.
Local Arguments TEHRAN_COORDS : simpl never.
Local Arguments Math_round_div : simpl never.

Lemma Inv2_initial : Inv2 initial.
Proof.
  split; cbn; try reflexivity; try discriminate.
  - intros req [].
Qed.

(** After [shapes]: the second invariant in the shape at hand. *)
Ltac use_inv2 Hc Hk Hq Hrt Hsel :=
  cbn in Hc, Hk, Hq, Hrt, Hsel;
  first
    [ destruct (Hrt eq_refl) as (?pl & -> & ?Hne & ?Heta & -> & ?Hin);
      clear Hrt Hsel
    | destruct (Hsel eq_refl) as [-> ->]; clear Hrt Hsel ].

Ltac finish2 :=
  split; unfold kinds_ok, routed, bottom_sheet_visible; cbn;
  try reflexivity; try lia; try assumption; try discriminate;
  try congruence;
  try (intros ?req ?Hin; cbn in *; intuition (subst; cbn; congruence));
  try (intros _; eexists; repeat split;
       try reflexivity; try assumption; try discriminate;
       try (apply in_or_app; auto; right; left; reflexivity));
  try (intros _ _; split; reflexivity).

Ltac press_reset2 :=
  unfold step;
  cbn [reset_enabled cancel_rendered end_rendered SelectionState_eqb
       selectionState isLoading negb andb];
  first [ rewrite reset_mounted by reflexivity; finish2 | finish2 ].

Lemma step_Inv2 (e : Event) (s : State) : Inv s -> Inv2 s -> Inv2 (step e s).
Proof.
  intros HI [Hc Hk Hq Hrt Hsel]. destruct (mapInstance s) eqn:Hmi.
  2: { rewrite (inv_unmounted s HI Hmi).
       destruct e; try apply Inv2_initial.
       - split; cbn; try reflexivity; try discriminate; auto. intros req [].
       - unfold step, settle. destruct k; apply Inv2_initial. }
  destruct HI as [_ Hm Ht Hr Hs Hp Hl].
  destruct s as [mi ms mv p et il cnt ref ph ly vw iv fr pd al].
  cbn in Hmi, Hm, Ht, Hr, Hs, Hp, Hl. subst mi.
  unfold kinds_ok, routed, bottom_sheet_visible in *.
  cbn in Hc, Hk, Hq, Hrt, Hsel. specialize (Hsel eq_refl).
  destruct e.
  - shapes ph pd ref ms il iv Hm Ht Hr Hs Hp; use_inv2 Hc Hk Hq Hrt Hsel;
      compute_step; finish2.
  - shapes ph pd ref ms il iv Hm Ht Hr Hs Hp; use_inv2 Hc Hk Hq Hrt Hsel;
      compute_step; finish2.
  - shapes ph pd ref ms il iv Hm Ht Hr Hs Hp; use_inv2 Hc Hk Hq Hrt Hsel;
      compute_step; finish2.
  - shapes ph pd ref ms il iv Hm Ht Hr Hs Hp; use_inv2 Hc Hk Hq Hrt Hsel;
      press_reset2.
  - shapes ph pd ref ms il iv Hm Ht Hr Hs Hp; use_inv2 Hc Hk Hq Hrt Hsel;
      press_reset2.
  - shapes ph pd ref ms il iv Hm Ht Hr Hs Hp; use_inv2 Hc Hk Hq Hrt Hsel;
      press_reset2.
  - shapes ph pd ref ms il iv Hm Ht Hr Hs Hp; use_inv2 Hc Hk Hq Hrt Hsel;
      unfold step; cbn [intervals existsb orb];
      try (finish2; fail).
    destruct (Pos.eqb_spec id id0) as [-> | Hne']; cbn [orb]; [| finish2].
    unfold interval_callback. cbn [matchedUsersCount].
    destruct (Z.leb_spec 3 (cnt + 1)); compute_step; finish2.
  - shapes ph pd ref ms il iv Hm Ht Hr Hs Hp; use_inv2 Hc Hk Hq Hrt Hsel;
      unfold step, settle; cbn [pending nth_error];
      try (destruct k; finish2; fail).
    destruct k as [| k]; cbn [nth_error]; [| destruct k; finish2].
    cbn [firstn skipn app].
    responses r;
      try (erewrite settle_thrown; [| rewrite Hcl; reflexivity | reflexivity];
           rewrite Hcl; finish2; fail);
      compute_step; finish2.
Qed.

Lemma run_Inv2 (events : list Event) : Inv2 (run events initial).
Proof.
  assert (H : forall s, reachable s -> Inv2 s).
  { induction 1 as [| e s Hs IH]; [apply Inv2_initial |].
    apply step_Inv2; [apply reachable_Inv, Hs | exact IH]. }
  apply H, reachable_run, reachable_initial.
Qed.

(** *** Stamps *)

Lemma Stamps_initial : Stamps initial.
Proof. split; cbn; [constructor | discriminate]. Qed.

Ltac finish3 Hf Hsp :=
  split; cbn;
  [ StampFacts.stamps Hf
  | intros ?q ?E;
    first [ discriminate E
          | injection E as <-; cbn; lia
          | specialize (Hsp _ E); lia ] ].

Lemma step_Stamps (e : Event) (s : State) : Inv s -> Stamps s -> Stamps (step e s).
Proof.
  intros HI [Hf Hsp]. destruct (mapInstance s) eqn:Hmi.
  2: { rewrite (inv_unmounted s HI Hmi).
       destruct e; try apply Stamps_initial.
       - split; cbn; [constructor | discriminate].
       - unfold step, settle. destruct k; apply Stamps_initial. }
  destruct HI as [_ Hm Ht Hr Hs Hp Hl].
  destruct s as [mi ms mv p et il cnt ref ph ly vw iv fr pd al].
  cbn in Hmi, Hm, Ht, Hr, Hs, Hp, Hl, Hf, Hsp. subst mi.
  destruct e.
  - shapes ph pd ref ms il iv Hm Ht Hr Hs Hp; compute_step; finish3 Hf Hsp.
  - shapes ph pd ref ms il iv Hm Ht Hr Hs Hp; compute_step; finish3 Hf Hsp.
  - shapes ph pd ref ms il iv Hm Ht Hr Hs Hp; compute_step; finish3 Hf Hsp.
  - shapes ph pd ref ms il iv Hm Ht Hr Hs Hp; unfold step;
      cbn [reset_enabled cancel_rendered end_rendered SelectionState_eqb
           selectionState isLoading negb andb];
      first [ rewrite reset_mounted by reflexivity; destruct p | idtac ];
      finish3 Hf Hsp.
  - shapes ph pd ref ms il iv Hm Ht Hr Hs Hp; unfold step;
      cbn [reset_enabled cancel_rendered end_rendered SelectionState_eqb
           selectionState isLoading negb andb];
      first [ rewrite reset_mounted by reflexivity; destruct p | idtac ];
      finish3 Hf Hsp.
  - shapes ph pd ref ms il iv Hm Ht Hr Hs Hp; unfold step;
      cbn [reset_enabled cancel_rendered end_rendered SelectionState_eqb
           selectionState isLoading negb andb];
      first [ rewrite reset_mounted by reflexivity; destruct p | idtac ];
      finish3 Hf Hsp.
  - shapes ph pd ref ms il iv Hm Ht Hr Hs Hp;
      unfold step; cbn [intervals existsb orb];
      try (finish3 Hf Hsp; fail).
    destruct (Pos.eqb_spec id id0) as [-> | Hne']; cbn [orb]; [| finish3 Hf Hsp].
    unfold interval_callback. cbn [matchedUsersCount].
    destruct (Z.leb_spec 3 (cnt + 1)); compute_step; finish3 Hf Hsp.
  - shapes ph pd ref ms il iv Hm Ht Hr Hs Hp;
      unfold step, settle; cbn [pending nth_error];
      try (destruct k; finish3 Hf Hsp; fail).
    destruct k as [| k]; cbn [nth_error]; [| destruct k; finish3 Hf Hsp].
    cbn [firstn skipn app].
    responses r;
      try (erewrite settle_thrown; [| rewrite Hcl; reflexivity | reflexivity];
           rewrite Hcl; destruct p; finish3 Hf Hsp; fail);
      compute_step; finish3 Hf Hsp.
Qed.

Lemma run_Stamps (events : list Event) : Stamps (run events initial).
Proof.
  assert (H : forall s, reachable s -> Stamps s).
  { induction 1 as [| e s Hs IH]; [apply Stamps_initial |].
    apply step_Stamps; [apply reachable_Inv, Hs | exact IH]. }
  apply H, reachable_run, reachable_initial.
Qed.

(** *** The render between a handler and its effects *)

Ltac finish_r :=
  unfold bottom_sheet_visible; cbn -[step];
  split; intros ?Hv; try discriminate;
  match goal with
  | |- _ \/ _ =>
      first
        [ left; eexists; repeat split;
          try reflexivity; try assumption; try discriminate;
          try (apply in_or_app; auto; right; left; reflexivity); fail
        | right; repeat split; eauto; compute_step; reflexivity ]
  | |- _ /\ _ => split; [reflexivity | intros _; reflexivity]
  end.

Lemma rendered_sheet (e : Event) (s : State) :
  Inv s -> Inv2 s ->
  (bottom_sheet_visible (rendered e s) = true ->
   (exists polyline,
       path (rendered e s) = Some polyline
       /\ getLatLngs polyline <> []
       /\ eta (rendered e s) <> None
       /\ view (rendered e s) = Some (ViewFitted (polyline_id polyline))
       /\ In (PolylineLayer polyline) (layers (rendered e s)))
   \/ ((exists latlng, e = MapClick latlng)
       /\ selectionState s = SELECTING_END
       /\ selectionState (rendered e s) = PATH_CONFIRMED
       /\ eta (rendered e s) = None
       /\ bottom_sheet_visible (step e s) = false))
  /\ (bottom_sheet_visible (rendered e s) = false ->
      eta (rendered e s) = None
      /\ (mapInstance (rendered e s) = true ->
          view (rendered e s) = Some (ViewAt TEHRAN_COORDS 13))).
Proof.
  intros HI [Hc Hk Hq Hrt Hsel]. destruct (mapInstance s) eqn:Hmi.
  2: { rewrite (inv_unmounted s HI Hmi).
       destruct e as [| latlng | | | | | id | [| k] r]; cbn -[step];
         (split; intros Hv; [discriminate Hv |]);
         split; try reflexivity; auto; discriminate. }
  destruct HI as [_ Hm Ht Hr Hs Hp Hl].
  destruct s as [mi ms mv p et il cnt ref ph ly vw iv fr pd al].
  cbn in Hmi, Hm, Ht, Hr, Hs, Hp, Hl. subst mi.
  unfold kinds_ok, routed in *. unfold bottom_sheet_visible in Hrt, Hsel.
  cbn in Hc, Hk, Hq, Hrt, Hsel. specialize (Hsel eq_refl).
  destruct e.
  - shapes ph pd ref ms il iv Hm Ht Hr Hs Hp; use_inv2 Hc Hk Hq Hrt Hsel;
      unfold rendered; cbn -[step]; finish_r.
  - shapes ph pd ref ms il iv Hm Ht Hr Hs Hp; use_inv2 Hc Hk Hq Hrt Hsel;
      unfold rendered; cbn -[step]; finish_r.
  - shapes ph pd ref ms il iv Hm Ht Hr Hs Hp; use_inv2 Hc Hk Hq Hrt Hsel;
      unfold rendered; cbn -[step]; finish_r.
  - shapes ph pd ref ms il iv Hm Ht Hr Hs Hp; use_inv2 Hc Hk Hq Hrt Hsel;
      unfold rendered;
      cbn [reset_enabled cancel_rendered end_rendered SelectionState_eqb
           selectionState isLoading negb andb];
      rewrite ?handleReset_mounted by reflexivity; finish_r.
  - shapes ph pd ref ms il iv Hm Ht Hr Hs Hp; use_inv2 Hc Hk Hq Hrt Hsel;
      unfold rendered;
      cbn [reset_enabled cancel_rendered end_rendered SelectionState_eqb
           selectionState isLoading negb andb];
      rewrite ?handleReset_mounted by reflexivity; finish_r.
  - shapes ph pd ref ms il iv Hm Ht Hr Hs Hp; use_inv2 Hc Hk Hq Hrt Hsel;
      unfold rendered;
      cbn [reset_enabled cancel_rendered end_rendered SelectionState_eqb
           selectionState isLoading negb andb];
      rewrite ?handleReset_mounted by reflexivity; finish_r.
  - shapes ph pd ref ms il iv Hm Ht Hr Hs Hp; use_inv2 Hc Hk Hq Hrt Hsel;
      unfold rendered; cbn [intervals existsb orb];
      try (finish_r; fail).
    destruct (Pos.eqb_spec id id0) as [-> | Hne']; cbn [orb]; [| finish_r].
    unfold interval_callback. cbn [matchedUsersCount].
    destruct (Z.leb_spec 3 (cnt + 1)); cbn -[step]; rewrite ?Pos.eqb_refl; finish_r.
  - shapes ph pd ref ms il iv Hm Ht Hr Hs Hp; use_inv2 Hc Hk Hq Hrt Hsel;
      unfold rendered; cbn [pending nth_error];
      try (destruct k; finish_r; fail).
    destruct k as [| k]; cbn [nth_error]; [| destruct k; finish_r].
    cbn [firstn skipn app]. unfold fetchRoute_settle.
    responses r; cbn -[handleReset step]; rewrite ?Hcl;
      rewrite ?handleReset_mounted by reflexivity; finish_r.
Qed.

(** *** A route without points *)

Lemma fetchRoute_try_without_points (r : Response) (route : Path) (s : State) :
  first_path r = Some route -> coordinates route = [] ->
  fetchRoute_try r s
  = Thrown
      (setEta (Some (about_minutes_walking (Math_round_div (time route) 60000)))
         (setPath (Some (polyline_of route s))
            (setFresh (Pos.succ (fresh s))
               (setLayers (layers s ++ [PolylineLayer (polyline_of route s)]) s)))).
Proof.
  intros H He. responses r; try discriminate; injection H as <-.
  - reflexivity.
  - discriminate He.
Qed.

(** The route of the response has no point: [fitBounds] throws when the
    polyline is on the map and stored, and the reset of the [catch] block,
    which still sees the path of the render that started the fetch, does
    not take it away. *)
Lemma settle_without_points (r : Response) (route : Path) (s : State) :
  Inv s -> Stamps s -> pending s <> [] ->
  first_path r = Some route -> coordinates route = [] ->
  selectionState (step (FetchSettles 0 r) s) = SELECTING_START
  /\ alerts (step (FetchSettles 0 r) s) = alerts s ++ [alert_routing_failed]
  /\ path (step (FetchSettles 0 r) s)
     = match path s with
       | None => Some (polyline_of route s)
       | Some _ => None
       end
  /\ In (PolylineLayer (polyline_of route s)) (layers (step (FetchSettles 0 r) s)).
Proof.
  intros HI [Hf Hsp] Hp Hr He. inv_shapes s HI; cbn in Hp; try congruence.
  cbn in Hf, Hsp.
  unfold step, settle. cbn [nth_error pending firstn skipn app].
  erewrite settle_thrown;
    [| rewrite Hcl; reflexivity
     | apply fetchRoute_try_without_points; eassumption].
  rewrite Hcl.
  assert (Hms : forall m, In m [m0; m1] -> (marker_id m < fr)%positive)
    by (intros m Hin; apply (StampFacts.marker_layers_stamps fr ly m Hf);
        rewrite Hl; exact Hin).
  destruct p as [p0 |]; cbn; repeat split; try reflexivity.
  - apply StampFacts.In_removeLayer;
      [| cbn; specialize (Hsp p0 eq_refl); lia].
    apply StampFacts.In_remove_markers;
      [apply in_or_app; right; left; reflexivity |].
    intros m Hin. specialize (Hms m Hin). cbn. lia.
  - apply StampFacts.In_remove_markers;
      [apply in_or_app; right; left; reflexivity |].
    intros m Hin. specialize (Hms m Hin). cbn. lia.
Qed.

(** The path that was stored when the fetch started is taken off the map
    by that reset. *)
Lemma settle_without_points_old_path (r : Response) (route : Path) (s : State)
    (old : Polyline) :
  Inv s -> pending s <> [] ->
  first_path r = Some route -> coordinates route = [] ->
  path s = Some old ->
  ~ In (PolylineLayer old) (layers (step (FetchSettles 0 r) s)).
Proof.
  intros HI Hp Hr He Hold. inv_shapes s HI; cbn in Hp; try congruence.
  cbn in Hold. subst p.
  unfold step, settle. cbn [nth_error pending firstn skipn app].
  erewrite settle_thrown;
    [| rewrite Hcl; reflexivity
     | apply fetchRoute_try_without_points; eassumption].
  rewrite Hcl. cbn. intros Hin.
  apply StampFacts.removeLayer_gone in Hin. apply Hin. reflexivity.
Qed.

(** The events of [way_back] lead to the first phase. *)
Lemma way_back_phase (latlng : LatLng) (s : State) :
  Inv s -> selectionState (run (way_back latlng s) s) = SELECTING_START.
Proof.
  intros HI. inv_shapes s HI.
  all: unfold way_back, run; cbn [selectionState isLoading fold_left];
    try reflexivity.
  all: try (unfold step, settle; cbn [pending nth_error firstn skipn app];
            erewrite settle_thrown; [| rewrite Hcl; reflexivity | reflexivity];
            reflexivity).
  all: try (destruct p); repeat eval_step; reflexivity.
Qed.

(** In the first phase nothing is left of a selection. *)
Lemma first_phase_clean (s : State) :
  Inv s -> Inv2 s -> selectionState s = SELECTING_START ->
  markers s = []
  /\ marker_layers (layers s) = []
  /\ eta s = None
  /\ isLoading s = false
  /\ pending s = []
  /\ intervals s = []
  /\ matchIntervalRef s = None
  /\ matchedUsersCount s = 0.
Proof.
  intros HI HI2 Hph.
  pose proof (inv_markers s HI) as Hm. rewrite Hph in Hm.
  pose proof (inv_layers s HI) as Hl. rewrite Hm in Hl.
  pose proof (inv2_count s HI2) as Hc. rewrite Hph in Hc.
  pose proof (inv_timer s HI) as Ht.
  pose proof (inv_ref s HI) as Hr.
  pose proof (inv_pending s HI) as Hp.
  assert (Href : matchIntervalRef s = None).
  { destruct (matchIntervalRef s); [| reflexivity].
    specialize (Hr ltac:(discriminate)). congruence. }
  rewrite Href in Ht.
  assert (Hpd : pending s = []).
  { destruct (pending s) as [| req [| req2 rest]];
      [reflexivity | | contradiction].
    destruct Hp as (_ & Hpc & _). congruence. }
  rewrite Hpd in Hp.
  assert (He : eta s = None).
  { destruct (mapInstance s) eqn:Hmi.
    - apply (inv2_selecting s HI2 Hmi).
      unfold routed, bottom_sheet_visible. rewrite Hph. reflexivity.
    - rewrite (inv_unmounted s HI Hmi). reflexivity. }
  repeat split; assumption.
Qed.

End IndexMore.

(** ** More about the Google Directions variant *)

Module Part000More.
Import JS Polyline Leaflet LeafletFacts Part000 Part000Facts Part000View.

Local Arguments marker_layers : simpl never.
Local Arguments remove_markers : simpl never.
Local Arguments removeLayer : simpl never.
Local Arguments TEHRAN_COORDS : simpl never.
Local Arguments decodePolyline : simpl never.

Lemma Inv2_initial_g (apiKey : option string) : Inv2 (initial apiKey).
Proof.
  split; cbn; try reflexivity; try discriminate; try congruence.
  - intros req [].
  - intros _. split; [reflexivity | discriminate].
Qed.

Ltac use_inv2_g Hk Hq Hkey Hrt Hsel :=
  cbn in Hk, Hq, Hkey, Hrt, Hsel;
  first
    [ destruct (Hrt eq_refl) as (?Hkey' & ?pl & -> & ?Hne & ?Heta & -> & ?Hin);
      clear Hrt Hsel
    | destruct (Hsel eq_refl) as [?Heta0 ?Hview]; clear Hrt Hsel;
      try subst; try (specialize (Hview eq_refl); subst) ].

Ltac finish2_g :=
  split; unfold kinds_ok, routed, bottom_sheet_visible; cbn;
  try reflexivity; try assumption; try discriminate; try congruence;
  try (intros ?req ?Hin; cbn in *; intuition (subst; cbn; congruence));
  try (intros _; split; [assumption |]; eexists; repeat split;
       try reflexivity; try assumption; try discriminate;
       try (apply in_or_app; auto; right; left; reflexivity));
  try (intros _; split; [reflexivity | intros _; reflexivity]);
  try (intros _; split; [reflexivity | auto]).

Lemma step_Inv2_g (e : Event) (s : State) : Inv s -> Inv2 s -> Inv2 (step e s).
Proof.
  intros [Hu Hm Hp Hl] [Hk Hq Hkey Hrt Hsel].
  destruct s as [mi ms mv p et il ph ly vw fr pd al key].
  cbn in Hu, Hm, Hp, Hl.
  unfold kinds_ok, routed, bottom_sheet_visible in *.
  cbn in Hk, Hq, Hkey, Hrt, Hsel.
  destruct e.
  - shapes_g mi ph pd ms il p et Hu Hm Hp; use_inv2_g Hk Hq Hkey Hrt Hsel;
      compute_step_g; finish2_g.
  - shapes_g mi ph pd ms il p et Hu Hm Hp; use_inv2_g Hk Hq Hkey Hrt Hsel;
      compute_step_g; try (finish2_g; fail).
    unfold fetch_effect, fetchRoute_start. cbn -[handleReset].
    destruct key as [[| c k] |]; cbn -[handleReset];
      try rewrite handleReset_mounted_g by reflexivity;
      finish2_g.
  - shapes_g mi ph pd ms il p et Hu Hm Hp; use_inv2_g Hk Hq Hkey Hrt Hsel;
      compute_step_g; finish2_g.
  - shapes_g mi ph pd ms il p et Hu Hm Hp; use_inv2_g Hk Hq Hkey Hrt Hsel;
      unfold step; cbn [buttons_enabled isLoading negb];
      first [ rewrite reset_mounted_g by reflexivity
            | rewrite reset_unmounted_g by reflexivity
            | idtac ];
      finish2_g.
  - shapes_g mi ph pd ms il p et Hu Hm Hp; use_inv2_g Hk Hq Hkey Hrt Hsel;
      unfold step, settle; cbn [pending nth_error];
      try (destruct k; finish2_g; fail).
    destruct k as [| k]; cbn [nth_error]; [| destruct k; finish2_g].
    cbn [firstn skipn app]. unfold fetchRoute_settle. rewrite Hcl.
    cbn [closure_of mapInstance markers path].
    specialize (Hkey ltac:(discriminate)).
    responses_g r; cbn -[effects handleReset];
      try rewrite handleReset_mounted_g by reflexivity;
      run_effects_g; finish2_g.
Qed.

Lemma run_Inv2_g (apiKey : option string) (events : list Event) :
  Inv2 (run events (initial apiKey)).
Proof.
  assert (H : forall s, reachable apiKey s -> Inv2 s).
  { induction 1 as [| e s Hs IH]; [apply Inv2_initial_g |].
    apply step_Inv2_g; [apply (reachable_Inv_g apiKey), Hs | exact IH]. }
  apply H, reachable_run_g, reachable_initial.
Qed.

(** *** Stamps *)

Lemma Stamps_initial_g (apiKey : option string) : Stamps (initial apiKey).
Proof. split; cbn; [constructor | discriminate]. Qed.

Ltac finish3_g Hf Hsp :=
  split; cbn;
  [ StampFacts.stamps Hf
  | intros ?q ?E;
    first [ discriminate E
          | injection E as <-; cbn; lia
          | specialize (Hsp _ E); lia ] ].

Lemma step_Stamps_g (e : Event) (s : State) :
  Inv s -> Stamps s -> Stamps (step e s).
Proof.
  intros [Hu Hm Hp Hl] [Hf Hsp].
  destruct s as [mi ms mv p et il ph ly vw fr pd al key].
  cbn in Hu, Hm, Hp, Hl, Hf, Hsp.
  destruct e.
  - shapes_g mi ph pd ms il p et Hu Hm Hp; compute_step_g; finish3_g Hf Hsp.
  - shapes_g mi ph pd ms il p et Hu Hm Hp; compute_step_g;
      try (finish3_g Hf Hsp; fail).
    unfold fetch_effect, fetchRoute_start. cbn -[handleReset].
    destruct key as [[| c k] |]; cbn -[handleReset];
      try (rewrite handleReset_mounted_g by reflexivity; destruct p);
      finish3_g Hf Hsp.
  - shapes_g mi ph pd ms il p et Hu Hm Hp; compute_step_g; finish3_g Hf Hsp.
  - shapes_g mi ph pd ms il p et Hu Hm Hp; unfold step;
      cbn [buttons_enabled isLoading negb];
      first [ rewrite reset_mounted_g by reflexivity; destruct p
            | rewrite reset_unmounted_g by reflexivity
            | idtac ];
      finish3_g Hf Hsp.
  - shapes_g mi ph pd ms il p et Hu Hm Hp;
      unfold step, settle; cbn [pending nth_error];
      try (destruct k; finish3_g Hf Hsp; fail).
    destruct k as [| k]; cbn [nth_error]; [| destruct k; finish3_g Hf Hsp].
    cbn [firstn skipn app]. unfold fetchRoute_settle. rewrite Hcl.
    cbn [closure_of mapInstance markers path].
    responses_g r; cbn -[effects handleReset];
      try rewrite handleReset_mounted_g by reflexivity;
      run_effects_g; destruct p; finish3_g Hf Hsp.
Qed.

Lemma run_Stamps_g (apiKey : option string) (events : list Event) :
  Stamps (run events (initial apiKey)).
Proof.
  assert (H : forall s, reachable apiKey s -> Stamps s).
  { induction 1 as [| e s Hs IH]; [apply Stamps_initial_g |].
    apply step_Stamps_g; [apply (reachable_Inv_g apiKey), Hs | exact IH]. }
  apply H, reachable_run_g, reachable_initial.
Qed.

(** No event changes the key. *)
Lemma API_KEY_handleReset (c : Closure) (s : State) :
  API_KEY (handleReset c s) = API_KEY s.
Proof.
  destruct (seen_mapInstance c) eqn:E;
    [rewrite handleReset_mounted_g | rewrite handleReset_unmounted_g];
    try exact E; reflexivity.
Qed.

Lemma API_KEY_effects (prev s : State) : API_KEY (effects prev s) = API_KEY s.
Proof.
  unfold effects, fetch_effect, fetchRoute_start.
  destruct (fetch_deps_changed prev s); [| reflexivity].
  destruct (_ && _); [| reflexivity].
  destruct (markers s) as [| m0 [| m1 [| m2 ms]]]; try reflexivity.
  destruct (negb _); [rewrite API_KEY_handleReset |]; reflexivity.
Qed.

Lemma API_KEY_settle (req : Request) (r : Response) (s : State) :
  API_KEY (fetchRoute_settle req r s) = API_KEY s.
Proof.
  unfold fetchRoute_settle, fetchRoute_try.
  destruct r as [| | data]; cbn -[handleReset];
    try (rewrite API_KEY_handleReset; reflexivity).
  destruct (status_OK data); cbn -[handleReset];
    [| rewrite API_KEY_handleReset; reflexivity].
  destruct (routes data) as [| route rest]; cbn -[handleReset];
    [rewrite API_KEY_handleReset; reflexivity |].
  destruct (decodePolyline _) as [[| pt decoded] |]; cbn -[handleReset];
    destruct (legs route); cbn -[handleReset];
    rewrite ?API_KEY_handleReset; reflexivity.
Qed.

Lemma API_KEY_step (e : Event) (s : State) : API_KEY (step e s) = API_KEY s.
Proof.
  destruct e; unfold step, reset, settle.
  - destruct (mapInstance s); [| rewrite API_KEY_effects]; reflexivity.
  - destruct (click_registered s); [| reflexivity].
    rewrite API_KEY_effects. unfold handleMapClick.
    destruct (selectionState s); reflexivity.
  - destruct (buttons_enabled s); [| reflexivity].
    rewrite API_KEY_effects. reflexivity.
  - destruct (buttons_enabled s); [| reflexivity].
    rewrite API_KEY_effects. apply API_KEY_handleReset.
  - destruct (nth_error (pending s) k); [| reflexivity].
    rewrite API_KEY_effects, API_KEY_settle. reflexivity.
Qed.

Lemma API_KEY_run (events : list Event) :
  forall s : State, API_KEY (run events s) = API_KEY s.
Proof.
  induction events as [| e events IH]; intros s; [reflexivity |].
  cbn [run fold_left]. fold (run events (step e s)).
  rewrite IH. apply API_KEY_step.
Qed.

(** The events of [way_back] lead to the first phase. *)
Lemma way_back_phase_g (latlng : LatLng) (s : State) :
  Inv s -> selectionState (run (way_back latlng s) s) = SELECTING_START.
Proof.
  intros HI. inv_shapes_g s HI.
  all: unfold way_back, run; cbn [selectionState isLoading fold_left];
    try reflexivity.
  - destruct p; destruct key as [[| c k] |]; reflexivity.
  - destruct req as [o d c]. unfold closure_of in Hcl.
    cbn [closure mapInstance markers path] in Hcl. subst c.
    destruct p; reflexivity.
Qed.

(** In the first phase nothing is left of a selection. *)
Lemma first_phase_clean_g (s : State) :
  Inv s -> Inv2 s -> selectionState s = SELECTING_START ->
  markers s = []
  /\ marker_layers (layers s) = []
  /\ eta s = None
  /\ isLoading s = false
  /\ pending s = [].
Proof.
  intros HI HI2 Hph.
  pose proof (inv_markers s HI) as Hm. rewrite Hph in Hm.
  pose proof (inv_layers s HI) as Hl. rewrite Hm in Hl.
  pose proof (inv_pending s HI) as Hp.
  assert (Hpd : pending s = []).
  { destruct (pending s) as [| req [| req2 rest]];
      [reflexivity | | contradiction].
    destruct Hp as (_ & Hpc & _). congruence. }
  rewrite Hpd in Hp.
  assert (He : eta s = None).
  { apply (inv2_selecting s HI2).
    unfold routed, bottom_sheet_visible. rewrite Hph. reflexivity. }
  repeat split; assumption.
Qed.

(** *** The render between a handler and its effects *)

Ltac finish_r_g key :=
  unfold bottom_sheet_visible; cbn -[step];
  split; intros ?Hv; try discriminate;
  match goal with
  | |- _ \/ _ =>
      first
        [ left; split; [assumption |]; eexists; repeat split;
          try reflexivity; try assumption; try discriminate;
          try (apply in_or_app; auto; right; left; reflexivity); fail
        | right; repeat split; eauto;
          unfold step; cbn -[effects];
          rewrite effects_confirmed_g by (cbn; congruence);
          unfold fetch_effect, fetchRoute_start; cbn -[handleReset];
          destruct key as [[| ?c ?k] |]; cbn -[handleReset];
          rewrite ?handleReset_mounted_g by reflexivity; reflexivity ]
  | |- _ /\ _ => split; [reflexivity | auto]
  end.

Lemma rendered_sheet_g (e : Event) (s : State) :
  Inv s -> Inv2 s ->
  (bottom_sheet_visible (rendered e s) = true ->
   (truthy (API_KEY s) = true
    /\ exists polyline,
         path (rendered e s) = Some polyline
         /\ getLatLngs polyline <> []
         /\ eta (rendered e s) <> None
         /\ view (rendered e s) = Some (ViewFitted (polyline_id polyline))
         /\ In (PolylineLayer polyline) (layers (rendered e s)))
   \/ ((exists latlng, e = MapClick latlng)
       /\ selectionState s = SELECTING_END
       /\ selectionState (rendered e s) = PATH_CONFIRMED
       /\ eta (rendered e s) = None
       /\ bottom_sheet_visible (step e s) = false))
  /\ (bottom_sheet_visible (rendered e s) = false ->
      eta (rendered e s) = None
      /\ (mapInstance (rendered e s) = true ->
          view (rendered e s) = Some (ViewAt TEHRAN_COORDS 13))).
Proof.
  intros [Hu Hm Hp Hl] [Hk Hq Hkey Hrt Hsel].
  destruct s as [mi ms mv p et il ph ly vw fr pd al key].
  cbn in Hu, Hm, Hp, Hl.
  unfold kinds_ok, routed in *. unfold bottom_sheet_visible in Hrt, Hsel.
  cbn in Hk, Hq, Hkey, Hrt, Hsel.
  destruct e.
  - shapes_g mi ph pd ms il p et Hu Hm Hp; use_inv2_g Hk Hq Hkey Hrt Hsel;
      unfold rendered; cbn -[step]; finish_r_g key.
  - shapes_g mi ph pd ms il p et Hu Hm Hp; use_inv2_g Hk Hq Hkey Hrt Hsel;
      unfold rendered; cbn -[step]; finish_r_g key.
  - shapes_g mi ph pd ms il p et Hu Hm Hp; use_inv2_g Hk Hq Hkey Hrt Hsel;
      unfold rendered; cbn -[step]; finish_r_g key.
  - shapes_g mi ph pd ms il p et Hu Hm Hp; use_inv2_g Hk Hq Hkey Hrt Hsel;
      unfold rendered; cbn [buttons_enabled isLoading negb];
      first [ rewrite handleReset_mounted_g by reflexivity
            | rewrite handleReset_unmounted_g by reflexivity
            | idtac ];
      finish_r_g key.
  - shapes_g mi ph pd ms il p et Hu Hm Hp; use_inv2_g Hk Hq Hkey Hrt Hsel;
      unfold rendered; cbn [pending nth_error];
      try (destruct k; finish_r_g key; fail).
    destruct k as [| k]; cbn [nth_error]; [| destruct k; finish_r_g key].
    cbn [firstn skipn app]. unfold fetchRoute_settle. rewrite Hcl.
    cbn [closure_of mapInstance markers path].
    specialize (Hkey ltac:(discriminate)).
    responses_g r; cbn -[handleReset step];
      rewrite ?handleReset_mounted_g by reflexivity; finish_r_g key.
Qed.

(** *** A route without points or without legs *)

(** The first route of the response has no point, so that [fitBounds]
    throws, or no leg, so that reading the duration throws: either happens
    when the polyline is on the map and stored, and the reset of the
    [catch] block, which still sees the path of the render that started the
    fetch, does not take it away. *)
Lemma settle_without_points_g (r : Response) (route : Route)
    (decodedPath : list LatLngTuple) (s : State) :
  Inv s -> Stamps s -> pending s <> [] ->
  first_route r = Some route ->
  decodePolyline (overview_polyline_points route) = Some decodedPath ->
  decodedPath = [] \/ legs route = [] ->
  selectionState (step (FetchSettles 0 r) s) = SELECTING_START
  /\ alerts (step (FetchSettles 0 r) s) = alerts s ++ [alert_connection_failed]
  /\ path (step (FetchSettles 0 r) s)
     = match path s with
       | None => Some (polyline_of decodedPath s)
       | Some _ => None
       end
  /\ In (PolylineLayer (polyline_of decodedPath s))
       (layers (step (FetchSettles 0 r) s)).
Proof.
  intros HI [Hf Hsp] Hp Hr Hd Hor. inv_shapes_g s HI; cbn in Hp; try congruence.
  cbn in Hf, Hsp.
  unfold first_route in Hr.
  destruct r as [| | data]; try discriminate.
  destruct (status_OK data) eqn:Hok; [| discriminate].
  destruct (routes data) as [| route0 rest] eqn:Hro; [discriminate |].
  injection Hr as ->.
  unfold step, settle. cbn [nth_error pending firstn skipn app].
  unfold fetchRoute_settle, fetchRoute_try. rewrite Hcl, Hok, Hro, Hd.
  cbn [closure_of mapInstance markers path].
  assert (Hms : forall m, In m [m0; m1] -> (marker_id m < fr)%positive)
    by (intros m Hin; apply (StampFacts.marker_layers_stamps fr ly m Hf);
        rewrite Hl; exact Hin).
  destruct (legs route) as [| leg lgs]; destruct decodedPath as [| pt decoded];
    try (destruct Hor; discriminate);
    cbn -[effects handleReset];
    rewrite handleReset_mounted_g by reflexivity;
    run_effects_g; destruct p as [p0 |]; cbn; repeat split; try reflexivity;
    try (apply StampFacts.In_removeLayer;
         [| cbn; specialize (Hsp p0 eq_refl); lia]);
    (apply StampFacts.In_remove_markers;
     [apply in_or_app; right; left; reflexivity |];
     intros m Hin; specialize (Hms m Hin); cbn; lia).
Qed.

Lemma settle_without_points_old_path_g (r : Response) (route : Route)
    (decodedPath : list LatLngTuple) (s : State) (old : Polyline) :
  Inv s -> pending s <> [] ->
  first_route r = Some route ->
  decodePolyline (overview_polyline_points route) = Some decodedPath ->
  decodedPath = [] \/ legs route = [] ->
  path s = Some old ->
  ~ In (PolylineLayer old) (layers (step (FetchSettles 0 r) s)).
Proof.
  intros HI Hp Hr Hd Hor Hold. inv_shapes_g s HI; cbn in Hp; try congruence.
  cbn in Hold. subst p.
  unfold first_route in Hr.
  destruct r as [| | data]; try discriminate.
  destruct (status_OK data) eqn:Hok; [| discriminate].
  destruct (routes data) as [| route0 rest] eqn:Hro; [discriminate |].
  injection Hr as ->.
  unfold step, settle. cbn [nth_error pending firstn skipn app].
  unfold fetchRoute_settle, fetchRoute_try. rewrite Hcl, Hok, Hro, Hd.
  cbn [closure_of mapInstance markers path].
  destruct (legs route) as [| leg lgs]; destruct decodedPath as [| pt decoded];
    try (destruct Hor; discriminate);
    cbn -[effects handleReset];
    rewrite handleReset_mounted_g by reflexivity;
    run_effects_g; cbn; intros Hin;
    apply StampFacts.removeLayer_gone in Hin; apply Hin; reflexivity.
Qed.

(** *** Without an API key *)

(** Without a key no path is ever stored. *)
Lemma keyless_path_step (e : Event) (s : State) :
  Inv s -> Inv2 s -> truthy (API_KEY s) = false -> path s = None ->
  path (step e s) = None.
Proof.
  intros HI HI2 Hkey Hpath.
  pose proof (inv2_key s HI2) as Hpk.
  inv_shapes_g s HI; cbn in Hkey, Hpath, Hpk; subst;
    try (specialize (Hpk ltac:(discriminate)); congruence);
    destruct key as [[| c k] |]; try discriminate Hkey;
    destruct e as [| latlng | | | [| n] r]; compute_step_g; reflexivity.
Qed.

Lemma keyless_path (apiKey : option string) (events : list Event) :
  truthy apiKey = false -> path (run events (initial apiKey)) = None.
Proof.
  intros Hkey.
  assert (H : forall s, reachable apiKey s -> path s = None /\ API_KEY s = apiKey).
  { induction 1 as [| e s Hs [IH1 IH2]]; [split; reflexivity |].
    split; [| rewrite API_KEY_step; exact IH2].
    apply keyless_path_step; try assumption.
    - apply (reachable_Inv_g apiKey), Hs.
    - clear IH1 IH2. induction Hs as [| e' s' Hs' IH'];
        [apply Inv2_initial_g |].
      apply step_Inv2_g; [apply (reachable_Inv_g apiKey), Hs' | exact IH'].
    - rewrite IH2. exact Hkey. }
  apply H, reachable_run_g, reachable_initial.
Qed.

(** Without a key the render between a handler and its effects holds no
    request, path or ETA either, and it has the phase PATH_CONFIRMED only
    when the handler is that of a click in SELECTING_END. *)
Lemma keyless_rendered (e : Event) (s : State) :
  Inv s -> Inv2 s -> truthy (API_KEY s) = false -> path s = None ->
  pending (rendered e s) = []
  /\ isLoading (rendered e s) = false
  /\ path (rendered e s) = None
  /\ eta (rendered e s) = None
  /\ (selectionState (rendered e s) = PATH_CONFIRMED ->
      (exists latlng, e = MapClick latlng)
      /\ selectionState s = SELECTING_END).
Proof.
  intros HI HI2 Hkey Hpath.
  pose proof (inv2_key s HI2) as Hpk.
  pose proof (inv2_routed s HI2) as Hrt.
  pose proof (inv2_selecting s HI2) as Hsel.
  unfold routed, bottom_sheet_visible in Hrt, Hsel.
  inv_shapes_g s HI; cbn in Hkey, Hpath, Hpk, Hrt, Hsel; subst;
    try (specialize (Hpk ltac:(discriminate)); congruence);
    try (destruct (Hrt eq_refl) as [Hk' _]; congruence);
    try (destruct (Hsel eq_refl) as [-> _]);
    destruct e as [| latlng | | | [| n] r]; unfold rendered; cbn;
    repeat split; try reflexivity; try discriminate; eauto.
Qed.

(** The render that a click in SELECTING_END leaves, before its effect. *)
Lemma click_rendered_g (latlng : LatLng) (s : State) :
  Inv s -> selectionState s = SELECTING_END ->
  selectionState (rendered (MapClick latlng) s) = PATH_CONFIRMED
  /\ List.length (markers (rendered (MapClick latlng) s)) = 2%nat
  /\ bottom_sheet_visible (rendered (MapClick latlng) s) = true.
Proof.
  intros HI Hph. inv_shapes_g s HI; cbn in Hph; try discriminate Hph.
  repeat split.
Qed.

(** Without a key the second click ends in the alert and the reset. *)
Lemma keyless_second_click (latlng : LatLng) (s : State) :
  Inv s -> Inv2 s -> truthy (API_KEY s) = false ->
  selectionState s = SELECTING_END ->
  selectionState (step (MapClick latlng) s) = SELECTING_START
  /\ alerts (step (MapClick latlng) s) = alerts s ++ [alert_api_key_missing].
Proof.
  intros HI HI2 Hkey Hph.
  pose proof (inv2_key s HI2) as Hpk.
  inv_shapes_g s HI; cbn in Hkey, Hph, Hpk; try discriminate Hph;
    destruct key as [[| c k] |]; try discriminate Hkey;
    destruct p; split; reflexivity.
Qed.

End Part000More.

(** ** More about the polyline decoder *)

Module PolylineMore.
Import JS Polyline PolylineFacts.

(** A group ends at most one read beyond the end of the string. *)
Lemma readGroup_bound (fuel : nat) :
  forall (encoded : jsstring) (index : nat) (shift result : Z) (i : nat) (r : Z),
    readGroup fuel encoded index shift result = Some (i, r) ->
    (i <= S (Nat.max index (List.length encoded)))%nat.
Proof.
  induction fuel as [| fuel IH]; intros encoded index shift result i r H;
    cbn [readGroup] in H; [discriminate |].
  destruct (ge (minus (charCodeAt encoded index) 63) 32) eqn:Hge.
  - destruct (Nat.le_gt_cases (List.length encoded) index) as [Hout | Hin].
    + rewrite charCodeAt_beyond in Hge by assumption. discriminate.
    + apply IH in H. lia.
  - injection H as <- _. lia.
Qed.

(** The loop ends at the length of the string or at most two reads beyond
    it, every pass takes at least two reads and adds one point, and a pass is
    made whenever the loop starts inside the string. *)
Lemma decodeLoop_bound (fuel : nat) :
  forall (encoded : jsstring) (index : nat) (lat lng : Z)
         (path : list LatLngTuple) (n : nat) (p : list LatLngTuple),
    decodeLoop fuel encoded index lat lng path = Some (n, p) ->
    (List.length encoded <= n)%nat
    /\ (index <= n)%nat
    /\ (n <= Nat.max index (List.length encoded + 2))%nat
    /\ (2 * List.length p + index
        <= 2 * List.length path + Nat.max index (List.length encoded + 1))%nat
    /\ (List.length path <= List.length p)%nat
    /\ ((index < List.length encoded)%nat ->
        (List.length path < List.length p)%nat).
Proof.
  induction fuel as [| fuel IH]; intros encoded index lat lng path n p H;
    cbn [decodeLoop] in H; [discriminate |].
  destruct (Nat.ltb_spec index (List.length encoded)) as [Hin | Hout].
  - destruct (readGroup _ encoded index 0 0) as [[i1 r1] |] eqn:E1;
      [| discriminate].
    destruct (readGroup _ encoded i1 0 0) as [[i2 r2] |] eqn:E2;
      [| discriminate].
    pose proof (readGroup_progress _ _ _ _ _ _ _ E1) as P1.
    pose proof (readGroup_progress _ _ _ _ _ _ _ E2) as P2.
    pose proof (readGroup_bound _ _ _ _ _ _ _ E1) as B1.
    pose proof (readGroup_bound _ _ _ _ _ _ _ E2) as B2.
    apply IH in H. rewrite length_app in H. cbn [List.length] in H. lia.
  - injection H as <- <-. lia.
Qed.

(** A group that has been read is read alike with more fuel. *)
Lemma readGroup_fuel (fuel : nat) :
  forall (fuel' : nat) (encoded : jsstring) (index : nat) (shift result : Z)
         (x : nat * Z),
    readGroup fuel encoded index shift result = Some x -> (fuel <= fuel')%nat ->
    readGroup fuel' encoded index shift result = Some x.
Proof.
  induction fuel as [| fuel IH]; intros fuel' encoded index shift result x H Hle;
    cbn [readGroup] in H; [discriminate |].
  destruct fuel' as [| fuel']; [lia |]. cbn [readGroup].
  destruct (ge (minus (charCodeAt encoded index) 63) 32); [| exact H].
  apply (IH fuel'); [exact H | lia].
Qed.

Lemma decodeLoop_fuel (fuel : nat) :
  forall (fuel' : nat) (encoded : jsstring) (index : nat) (lat lng : Z)
         (path : list LatLngTuple) (x : nat * list LatLngTuple),
    decodeLoop fuel encoded index lat lng path = Some x -> (fuel <= fuel')%nat ->
    decodeLoop fuel' encoded index lat lng path = Some x.
Proof.
  induction fuel as [| fuel IH]; intros fuel' encoded index lat lng path x H Hle;
    cbn [decodeLoop] in H; [discriminate |].
  destruct fuel' as [| fuel']; [lia |]. cbn [decodeLoop].
  destruct (index <? List.length encoded)%nat; [| exact H].
  destruct (readGroup _ encoded index 0 0) as [[i1 r1] |]; [| discriminate].
  destruct (readGroup _ encoded i1 0 0) as [[i2 r2] |]; [| discriminate].
  apply (IH fuel'); [exact H | lia].
Qed.

(** Two runs of the loop from the same point agree, whatever their fuel. *)
Lemma decodeLoop_agree (fuel fuel' : nat) (encoded : jsstring) (index : nat)
    (lat lng : Z) (path : list LatLngTuple) (x y : nat * list LatLngTuple) :
  decodeLoop fuel encoded index lat lng path = Some x ->
  decodeLoop fuel' encoded index lat lng path = Some y ->
  x = y.
Proof.
  intros Hx Hy.
  apply (decodeLoop_fuel _ (Nat.max fuel fuel')) in Hx; [| lia].
  apply (decodeLoop_fuel _ (Nat.max fuel fuel')) in Hy; [| lia].
  congruence.
Qed.

Lemma charCodeAt_app1 (s t : jsstring) (index : nat) :
  (index < List.length s)%nat -> charCodeAt (s ++ t) index = charCodeAt s index.
Proof.
  intros H. unfold charCodeAt. rewrite nth_error_app1 by exact H. reflexivity.
Qed.

Lemma charCodeAt_app2 (s t : jsstring) (index : nat) :
  charCodeAt (s ++ t) (List.length s + index) = charCodeAt t index.
Proof.
  unfold charCodeAt. rewrite nth_error_app2 by lia.
  replace (List.length s + index - List.length s)%nat with index by lia.
  reflexivity.
Qed.

(** A group that ends inside [s] is read alike in [s ++ t]. *)
Lemma readGroup_app1 (fuel : nat) :
  forall (s t : jsstring) (index : nat) (shift result : Z) (i : nat) (r : Z),
    readGroup fuel s index shift result = Some (i, r) ->
    (i <= List.length s)%nat ->
    readGroup fuel (s ++ t) index shift result = Some (i, r).
Proof.
  induction fuel as [| fuel IH]; intros s t index shift result i r H Hi;
    [discriminate |].
  pose proof (readGroup_progress _ _ _ _ _ _ _ H) as P.
  cbn [readGroup] in H |- *. rewrite charCodeAt_app1 by lia.
  destruct (ge (minus (charCodeAt s index) 63) 32); [| exact H].
  apply IH; assumption.
Qed.

(** A group of [t] is read alike behind [s], with the indices moved. *)
Lemma readGroup_app2 (fuel : nat) :
  forall (s t : jsstring) (index : nat) (shift result : Z) (i : nat) (r : Z),
    readGroup fuel t index shift result = Some (i, r) ->
    readGroup fuel (s ++ t) (List.length s + index) shift result
    = Some ((List.length s + i)%nat, r).
Proof.
  induction fuel as [| fuel IH]; intros s t index shift result i r H;
    [discriminate |].
  cbn [readGroup] in H |- *. rewrite charCodeAt_app2.
  destruct (ge (minus (charCodeAt t index) 63) 32).
  - replace (S (List.length s + index)) with (List.length s + S index)%nat by lia.
    apply IH. exact H.
  - injection H as <- <-. f_equal. f_equal. lia.
Qed.

(** The loop over [t] behind [s]: the same passes, the indices moved and
    the points appended to those at hand. *)
Lemma decodeLoop_app2 (fuel : nat) :
  forall (s t : jsstring) (index : nat) (lat lng : Z)
         (pre path : list LatLngTuple) (n : nat) (q : list LatLngTuple),
    decodeLoop fuel t index lat lng path = Some (n, q) ->
    decodeLoop fuel (s ++ t) (List.length s + index) lat lng (pre ++ path)
    = Some ((List.length s + n)%nat, pre ++ q).
Proof.
  induction fuel as [| fuel IH]; intros s t index lat lng pre path n q H;
    [discriminate |].
  cbn [decodeLoop] in H |- *. rewrite length_app.
  destruct (Nat.ltb_spec index (List.length t)) as [Hin | Hout].
  - destruct (Nat.ltb_spec (List.length s + index)
                (List.length s + List.length t)) as [_ | Hbad]; [| lia].
    destruct (readGroup _ t index 0 0) as [[i1 r1] |] eqn:E1; [| discriminate].
    destruct (readGroup _ t i1 0 0) as [[i2 r2] |] eqn:E2; [| discriminate].
    apply (readGroup_fuel _ (S (List.length s + List.length t))) in E1; [| lia].
    apply (readGroup_fuel _ (S (List.length s + List.length t))) in E2; [| lia].
    rewrite (readGroup_app2 _ s t _ _ _ _ _ E1).
    rewrite (readGroup_app2 _ s t _ _ _ _ _ E2).
    rewrite <- app_assoc. apply IH. exact H.
  - destruct (Nat.ltb_spec (List.length s + index)
                (List.length s + List.length t)) as [Hbad | _]; [lia |].
    injection H as <- <-. reflexivity.
Qed.

Lemma div1e5_add (a b : Z) : (div1e5 (a + b) == div1e5 a + div1e5 b)%Q.
Proof. unfold div1e5, Qeq, Qplus. cbn. lia. Qed.

(** The loop started from other accumulators: the same reads, and every
    point moved by the difference. *)
Lemma decodeLoop_translate (fuel : nat) :
  forall (encoded : jsstring) (index : nat) (lat lng lat' lng' : Z)
         (path path' : list LatLngTuple) (n : nat) (q : list LatLngTuple),
    decodeLoop fuel encoded index lat lng path = Some (n, q) ->
    exists q1 q1',
      q = path ++ q1
      /\ decodeLoop fuel encoded index lat' lng' path' = Some (n, path' ++ q1')
      /\ Forall2
           (fun c' c =>
              (fst c' == fst c + div1e5 (lat' - lat))%Q
              /\ (snd c' == snd c + div1e5 (lng' - lng))%Q)
           q1' q1.
Proof.
  induction fuel as [| fuel IH];
    intros encoded index lat lng lat' lng' path path' n q H;
    [discriminate |].
  cbn [decodeLoop] in H |- *.
  destruct (index <? List.length encoded)%nat.
  - destruct (readGroup _ encoded index 0 0) as [[i1 r1] |]; [| discriminate].
    destruct (readGroup _ encoded i1 0 0) as [[i2 r2] |]; [| discriminate].
    destruct (IH _ _ _ _ (lat' + unzigzag r1) (lng' + unzigzag r2) _
                (path' ++ [(div1e5 (lat' + unzigzag r1),
                            div1e5 (lng' + unzigzag r2))]) _ _ H)
      as (q1 & q1' & -> & E & F).
    eexists (_ :: q1), (_ :: q1').
    rewrite <- !app_assoc in *. cbn [app] in *.
    split; [reflexivity |]. split; [exact E |].
    constructor.
    + cbn [fst snd]. split.
      * rewrite <- div1e5_add.
        replace (lat + unzigzag r1 + (lat' - lat)) with (lat' + unzigzag r1)
          by lia.
        reflexivity.
      * rewrite <- div1e5_add.
        replace (lng + unzigzag r2 + (lng' - lng)) with (lng' + unzigzag r2)
          by lia.
        reflexivity.
    + replace (lat' + unzigzag r1 - (lat + unzigzag r1)) with (lat' - lat) in F
        by lia.
      replace (lng' + unzigzag r2 - (lng + unzigzag r2)) with (lng' - lng) in F
        by lia.
      exact F.
  - injection H as <- <-. exists [], []. rewrite !app_nil_r.
    repeat split. constructor.
Qed.

Lemma last_default (l : list LatLngTuple) (d d' : LatLngTuple) :
  l <> [] -> last l d = last l d'.
Proof.
  induction l as [| a [| b l] IH]; intros H; [contradiction | reflexivity |].
  change (last (b :: l) d = last (b :: l) d'). apply IH. discriminate.
Qed.

(** A run over [s] that ends at the length of [s], seen inside the run over
    [s ++ t]: that run comes to the index [length s] with the points of [s]
    and with accumulators that are those of the last point. *)
Lemma decodeLoop_handover (fuel : nat) :
  forall (fuel' : nat) (s t : jsstring) (index : nat) (lat lng : Z)
         (path p : list LatLngTuple) (x : nat * list LatLngTuple),
    decodeLoop fuel s index lat lng path = Some (List.length s, p) ->
    last path (div1e5 lat, div1e5 lng) = (div1e5 lat, div1e5 lng) ->
    decodeLoop fuel' (s ++ t) index lat lng path = Some x ->
    exists (fuel'' : nat) (late lnge : Z),
      last p (div1e5 lat, div1e5 lng) = (div1e5 late, div1e5 lnge)
      /\ decodeLoop fuel'' (s ++ t) (List.length s) late lnge p = Some x.
Proof.
  induction fuel as [| fuel IH];
    intros fuel' s t index lat lng path p x H Hlast H';
    [discriminate |].
  destruct fuel' as [| fuel']; [discriminate |].
  cbn [decodeLoop] in H.
  destruct (Nat.ltb_spec index (List.length s)) as [Hin | Hout].
  - cbn [decodeLoop] in H'. rewrite length_app in H'.
    destruct (Nat.ltb_spec index (List.length s + List.length t)) as [_ | Hbad];
      [| lia].
    destruct (readGroup _ s index 0 0) as [[i1 r1] |] eqn:E1; [| discriminate].
    destruct (readGroup _ s i1 0 0) as [[i2 r2] |] eqn:E2; [| discriminate].
    pose proof (readGroup_progress _ _ _ _ _ _ _ E2) as P2.
    destruct (decodeLoop_bound _ _ _ _ _ _ _ _ H) as (_ & Hi2 & _).
    apply (readGroup_app1 _ s t) in E1; [| lia].
    apply (readGroup_app1 _ s t) in E2; [| lia].
    apply (readGroup_fuel _ (S (List.length s + List.length t))) in E1; [| lia].
    apply (readGroup_fuel _ (S (List.length s + List.length t))) in E2; [| lia].
    rewrite E1, E2 in H'.
    destruct (IH _ _ _ _ _ _ _ _ _ H (last_last _ _ _) H')
      as (fuel'' & late & lnge & L & R).
    exists fuel'', late, lnge. split; [| exact R].
    rewrite <- L.
    destruct (decodeLoop_translate _ _ _ _ _ 0 0 _ [] _ _ H) as (q1 & _ & -> & _).
    apply last_default. rewrite <- app_assoc. destruct path; discriminate.
  - injection H as Hidx <-. subst index.
    exists (S fuel'), lat, lng. split; [exact Hlast | exact H'].
Qed.

End PolylineMore.

(** ** More about the duration text *)

Module Part000TextFacts.
Import JS Part000Text.

Lemma starts_prefix (w v : jsstring) :
  forall s : jsstring, starts (w ++ v) s = true -> starts w s = true.
Proof.
  induction w as [| x w IH]; intros s H; [reflexivity |].
  destruct s as [| c rest]; [discriminate H |].
  cbn [app starts] in H |- *. apply andb_true_iff in H. destruct H as [H1 H2].
  rewrite H1. exact (IH rest H2).
Qed.

Lemma includes_cons (c : Z) (s w : jsstring) :
  includes s w = true -> includes (c :: s) w = true.
Proof. intros H. cbn [includes]. rewrite H. apply orb_true_r. Qed.

Section Replace.

Variables (alternatives : list jsstring) (replacement w : jsstring).

Hypothesis replacement_not_empty : replacement <> [].
Hypothesis w_not_empty : w <> [].
Hypothesis apart : forall c : Z, In c w -> ~ In c replacement.

(** A prefix of the output made of code units of [w] is copied from the
    input. *)
Lemma starts_copied (v : jsstring) :
  (forall c, In c v -> In c w) ->
  forall s : jsstring,
    starts v (replace_from alternatives replacement 0 s) = true ->
    starts v s = true.
Proof.
  induction v as [| x v IH]; intros Hv s H; [reflexivity |].
  destruct s as [| c rest]; [discriminate H |].
  cbn [replace_from] in H.
  destruct (first_match alternatives (c :: rest)) as [len |].
  - destruct replacement as [| r rs]; [contradiction |].
    cbn [app starts] in H. apply andb_true_iff in H. destruct H as [H _].
    apply Z.eqb_eq in H. subst r.
    exfalso. apply (apart x); [apply Hv | ]; left; reflexivity.
  - cbn [starts] in H |- *. apply andb_true_iff in H. destruct H as [H1 H2].
    rewrite H1. apply IH; [| exact H2].
    intros c' Hc'. apply Hv. right. exact Hc'.
Qed.

(** An occurrence of [w] behind code units that [w] does not have. *)
Lemma includes_behind (r : jsstring) (x : jsstring) :
  (forall c, In c r -> ~ In c w) ->
  includes (r ++ x) w = true -> includes x w = true.
Proof.
  induction r as [| c r IH]; intros Hr H; [exact H |].
  cbn [app includes] in H. apply orb_true_iff in H. destruct H as [H | H].
  - destruct w as [| y w']; [contradiction |].
    cbn [starts] in H. apply andb_true_iff in H. destruct H as [H _].
    apply Z.eqb_eq in H. subst y.
    exfalso. apply (Hr c); left; reflexivity.
  - apply IH; [| exact H]. intros c' Hc'. apply Hr. right. exact Hc'.
Qed.

Lemma replacement_apart (c : Z) : In c replacement -> ~ In c w.
Proof. intros H Hw. exact (apart c Hw H). Qed.

(** The replacement creates no occurrence of [w]. *)
Lemma replace_from_includes (s : jsstring) :
  forall skip : nat,
    includes (replace_from alternatives replacement skip s) w = true ->
    includes s w = true.
Proof.
  induction s as [| c rest IH]; intros skip H; [exact H |].
  cbn [replace_from] in H. destruct skip as [| k].
  - destruct (first_match alternatives (c :: rest)) as [len |] eqn:E.
    + apply includes_cons, (IH (Nat.pred len)).
      exact (includes_behind _ _ replacement_apart H).
    + cbn [includes] in H. apply orb_true_iff in H. destruct H as [H | H].
      * cbn [includes]. apply orb_true_iff. left.
        apply starts_copied; [auto |]. cbn [replace_from]. rewrite E. exact H.
      * apply includes_cons, (IH 0%nat), H.
  - apply includes_cons, (IH k), H.
Qed.

Hypothesis covered :
  forall s : jsstring, starts w s = true -> first_match alternatives s <> None.

(** When the pattern matches wherever [w] does, no occurrence of [w] is
    left. *)
Lemma replace_from_clears (s : jsstring) :
  forall skip : nat,
    includes (replace_from alternatives replacement skip s) w = false.
Proof.
  induction s as [| c rest IH]; intros skip.
  - cbn. destruct w; [contradiction | reflexivity].
  - cbn [replace_from]. destruct skip as [| k]; [| apply IH].
    destruct (first_match alternatives (c :: rest)) as [len |] eqn:E.
    + destruct (includes (replacement ++ _) w) eqn:H; [| reflexivity].
      apply (includes_behind _ _ replacement_apart) in H.
      rewrite IH in H. discriminate H.
    + cbn [includes]. rewrite IH, orb_false_r.
      destruct (starts w (c :: _)) eqn:H; [| reflexivity].
      exfalso. apply (covered (c :: rest)); [| exact E].
      apply starts_copied; [auto |]. cbn [replace_from]. rewrite E. exact H.
Qed.

End Replace.

(** When the pattern matches only where [w] does, a string without [w] is
    left as it is. *)
Lemma replace_nothing (alternatives : list jsstring) (replacement w : jsstring) :
  (forall (s : jsstring) (len : nat),
      first_match alternatives s = Some len -> starts w s = true) ->
  forall s : jsstring,
    includes s w = false -> replace alternatives replacement s = s.
Proof.
  intros Honly. unfold replace.
  induction s as [| c rest IH]; intros H; [reflexivity |].
  cbn [includes] in H. apply orb_false_iff in H. destruct H as [H1 H2].
  cbn [replace_from].
  destruct (first_match alternatives (c :: rest)) as [len |] eqn:E.
  - apply Honly in E. congruence.
  - rewrite (IH H2). reflexivity.
Qed.

(** The two patterns of [farsiDuration]. *)
Lemma minutes_covered (s : jsstring) :
  starts (str "min") s = true <-> first_match [str "mins"; str "min"] s <> None.
Proof.
  cbn [first_match]. split.
  - intros H. destruct (starts (str "mins") s); [discriminate |].
    rewrite H. discriminate.
  - intros H. destruct (starts (str "mins") s) eqn:E.
    + exact (starts_prefix (str "min") (str "s") s E).
    + destruct (starts (str "min") s); [reflexivity | contradiction].
Qed.

Lemma hours_covered (s : jsstring) :
  starts (str "hour") s = true <-> first_match [str "hours"; str "hour"] s <> None.
Proof.
  cbn [first_match]. split.
  - intros H. destruct (starts (str "hours") s); [discriminate |].
    rewrite H. discriminate.
  - intros H. destruct (starts (str "hours") s) eqn:E.
    + exact (starts_prefix (str "hour") (str "s") s E).
    + destruct (starts (str "hour") s); [reflexivity | contradiction].
Qed.

Ltac apart_words :=
  let H := fresh "H" in let H' := fresh "H'" in
  intros H H'; cbn in H, H';
  repeat match goal with
         | H0 : _ \/ _ |- _ => destruct H0
         | H0 : False |- _ => contradiction
         end;
  subst; discriminate.

Lemma min_apart_minute_word (c : Z) : In c (str "min") -> ~ In c minute_word.
Proof. apart_words. Qed.

Lemma min_apart_hour_word (c : Z) : In c (str "min") -> ~ In c hour_word.
Proof. apart_words. Qed.

Lemma hour_apart_hour_word (c : Z) : In c (str "hour") -> ~ In c hour_word.
Proof. apart_words. Qed.

End Part000TextFacts.

(** * Further theorems *)

(** ** Polyline decoder *)

(** X1: the decoder returns a path for every string, whatever its code
    units.  It reads every code unit and at most two positions beyond the
    end of the string; every point takes at least two reads, so a string of
    [n] code units gives at most [(n + 1) / 2] points; and the path is empty
    for the empty string only. *)
Theorem X1_decoder_reads_and_points (encoded : jsstring) :
  exists n path,
    decodeRun encoded = Some (n, path)
    /\ decodePolyline encoded = Some path
    /\ (List.length encoded <= n <= List.length encoded + 2)%nat
    /\ (2 * List.length path <= List.length encoded + 1)%nat
    /\ (path = [] <-> encoded = []).
Proof.
  destruct (PolylineFacts.decodeRun_total encoded) as (n & path & E).
  exists n, path. split; [exact E |].
  split; [unfold decodePolyline; rewrite E; reflexivity |].
  unfold decodeRun in E.
  destruct (PolylineMore.decodeLoop_bound _ _ _ _ _ _ _ _ E)
    as (H1 & _ & H2 & H3 & _ & H4).
  cbn [List.length] in H3, H4.
  split; [lia |]. split; [lia |]. split.
  - intros ->. destruct encoded as [| c encoded]; [reflexivity |].
    cbn [List.length] in H4. lia.
  - intros ->. injection E as _ <-. reflexivity.
Qed.

(** X2: decoding a concatenation.  When the decoder reads [s] to its end
    and no further, giving the points [p], then the points of [s ++ t] are
    [p] followed by the points of [t], each moved by the last point of [p]
    (by nothing when [p] is empty): the second string continues the deltas
    of the first. *)
Theorem X2_decoding_a_concatenation (s t : jsstring) (p q : list LatLngTuple) :
  decodeRun s = Some (List.length s, p) ->
  decodePolyline t = Some q ->
  exists q',
    decodePolyline (s ++ t) = Some (p ++ q')
    /\ same_path q'
         (map (fun c => (fst c + fst (last p (0, 0)),
                         snd c + snd (last p (0, 0)))%Q) q).
Proof.
  intros Hs Ht.
  destruct (PolylineFacts.decodeRun_total (s ++ t)) as (n' & p' & E').
  unfold decodeRun in Hs.
  pose proof E' as R. unfold decodeRun in R.
  destruct (PolylineMore.decodeLoop_handover _ _ s t 0 0 0 [] p _ Hs eq_refl R)
    as (f & late & lnge & L & R').
  unfold decodePolyline, decodeRun in Ht.
  destruct (decodeLoop _ t 0 0 0 []) as [[m q0] |] eqn:Et; [| discriminate].
  cbn [option_map snd] in Ht. injection Ht as ->.
  destruct (PolylineMore.decodeLoop_translate _ _ _ 0 0 late lnge [] [] _ _ Et)
    as (q1 & q1' & Eq & E2 & F).
  cbn [app] in Eq, E2. subst q1.
  pose proof (PolylineMore.decodeLoop_app2 _ s t 0 late lnge p [] _ _ E2) as E3.
  rewrite Nat.add_0_r, app_nil_r in E3.
  pose proof (PolylineMore.decodeLoop_agree _ _ _ _ _ _ _ _ _ R' E3) as X.
  injection X as -> ->.
  exists q1'. split; [unfold decodePolyline; rewrite E'; reflexivity |].
  assert (O : (fst (last p (0, 0)) == div1e5 late)%Q
              /\ (snd (last p (0, 0)) == div1e5 lnge)%Q).
  { destruct p as [| a p].
    - cbn [last] in L |- *. injection L as <- <-. split; reflexivity.
    - rewrite (PolylineMore.last_default (a :: p) _ (div1e5 0, div1e5 0))
        by discriminate.
      rewrite L. split; reflexivity. }
  destruct O as [O1 O2]. rewrite !Z.sub_0_r in F. unfold same_path.
  clear - F O1 O2.
  induction F as [| c' c l' l [H1 H2] F IH]; cbn [map]; constructor.
  - cbn [fst snd]. rewrite H1, H2, O1, O2. split; reflexivity.
  - exact IH.
Qed.

Lemma X2_decoding_a_concatenation_witness :
  let s := str "_p~iF~ps|U" in
  let t := str "_ulLnnqC" in
  let p := [(div1e5 3850000, div1e5 (-12020000))] in
  let q := [(div1e5 220000, div1e5 (-75000))] in
  exists q',
    decodePolyline (s ++ t) = Some (p ++ q')
    /\ same_path q'
         (map (fun c => (fst c + fst (last p (0, 0)),
                         snd c + snd (last p (0, 0)))%Q) q).
Proof.
  apply X2_decoding_a_concatenation; reflexivity.
Defined.

(** ** What holds between two events, and in the render before its effects *)

(** X3: at most one route request is on its way at any time; the loading
    flag is up exactly while one is, and then the phase is PATH_CONFIRMED
    with both markers set.  Both variants. *)
Theorem X3_one_fetch_at_a_time :
  (forall events : list Index.Event,
      let s := Index.run events Index.initial in
      (List.length (Index.pending s) <= 1)%nat
      /\ (Index.isLoading s = true <-> Index.pending s <> [])
      /\ (Index.isLoading s = true ->
          Index.selectionState s = Index.PATH_CONFIRMED
          /\ List.length (Index.markers s) = 2%nat))
  /\ (forall (apiKey : option string) (events : list Part000.Event),
         let s := Part000.run events (Part000.initial apiKey) in
         (List.length (Part000.pending s) <= 1)%nat
         /\ (Part000.isLoading s = true <-> Part000.pending s <> [])
         /\ (Part000.isLoading s = true ->
             Part000.selectionState s = Part000.PATH_CONFIRMED
             /\ List.length (Part000.markers s) = 2%nat)).
Proof.
  split.
  - intros events s.
    pose proof (Index.inv_pending s (IndexFacts.run_Inv events)) as Hp.
    pose proof (Index.inv_markers s (IndexFacts.run_Inv events)) as Hm.
    destruct (Index.pending s) as [| req [| req2 rest]]; [| | contradiction].
    + rewrite Hp. cbn. repeat split; try lia; try congruence.
    + destruct Hp as (Hl & Hph & _). rewrite Hph in Hm. rewrite Hl. cbn.
      repeat split; try lia; try congruence; discriminate.
  - intros apiKey events s.
    pose proof (Part000.inv_pending s (Part000Facts.run_Inv_g apiKey events)) as Hp.
    pose proof (Part000.inv_markers s (Part000Facts.run_Inv_g apiKey events)) as Hm.
    destruct (Part000.pending s) as [| req [| req2 rest]]; [| | contradiction].
    + rewrite Hp. cbn. repeat split; try lia; try congruence.
    + destruct Hp as (Hl & Hph & _). rewrite Hph in Hm. rewrite Hl. cbn.
      repeat split; try lia; try congruence; discriminate.
Qed.

(** X4: the match simulation.  One interval timer runs, the one held by the
    ref, exactly while the phase is SEARCHING_FOR_MATCH; in every other
    phase no timer runs and the ref is null.  The counter is 0, 1 or 2
    while searching, 3 in MATCH_FOUND and 0 in the three phases before. *)
Theorem X4_timer_and_counter_by_phase (events : list Index.Event) :
  let s := Index.run events Index.initial in
  (Index.selectionState s = Index.SEARCHING_FOR_MATCH ->
   exists id,
     Index.intervals s = [id] /\ Index.matchIntervalRef s = Some id
     /\ 0 <= Index.matchedUsersCount s < 3)
  /\ (Index.selectionState s = Index.MATCH_FOUND ->
      Index.intervals s = [] /\ Index.matchIntervalRef s = None
      /\ Index.matchedUsersCount s = 3)
  /\ (Index.selectionState s <> Index.SEARCHING_FOR_MATCH ->
      Index.selectionState s <> Index.MATCH_FOUND ->
      Index.intervals s = [] /\ Index.matchIntervalRef s = None
      /\ Index.matchedUsersCount s = 0).
Proof.
  intros s.
  pose proof (IndexFacts.run_Inv events) as HI.
  pose proof (IndexMore.run_Inv2 events) as HI2.
  pose proof (Index.inv_timer s HI) as Ht.
  pose proof (Index.inv_ref s HI) as Hr.
  pose proof (Index.inv_searching s HI) as Hs.
  pose proof (IndexView.inv2_count s HI2) as Hc.
  destruct (Index.matchIntervalRef s) as [id |].
  - specialize (Hr ltac:(discriminate)). rewrite Hr in *.
    split; [| split]; [| discriminate | congruence].
    intros _. exists id. auto.
  - assert (Hne : Index.selectionState s <> Index.SEARCHING_FOR_MATCH)
      by (intros E; apply (Hs E); reflexivity).
    split; [| split]; [contradiction | |].
    + intros E. rewrite E in Hc. auto.
    + intros _ Hnf.
      destruct (Index.selectionState s); try contradiction; auto.
Qed.

(** X5: the markers.  The state holds no marker in SELECTING_START, the
    start marker in SELECTING_END, and the start marker followed by the end
    marker in every later phase; and the markers on the map are those of
    the state, in the same order.  Both variants. *)
Theorem X5_markers_by_phase :
  (forall events : list Index.Event,
      let s := Index.run events Index.initial in
      map marker_type (Index.markers s)
      = match Index.selectionState s with
        | Index.SELECTING_START => []
        | Index.SELECTING_END => [type_start]
        | _ => [type_start; type_end]
        end
      /\ marker_layers (Index.layers s) = Index.markers s)
  /\ (forall (apiKey : option string) (events : list Part000.Event),
         let s := Part000.run events (Part000.initial apiKey) in
         map marker_type (Part000.markers s)
         = match Part000.selectionState s with
           | Part000.SELECTING_START => []
           | Part000.SELECTING_END => [type_start]
           | Part000.PATH_CONFIRMED => [type_start; type_end]
           end
         /\ marker_layers (Part000.layers s) = Part000.markers s).
Proof.
  split.
  - intros events s.
    pose proof (IndexFacts.run_Inv events) as HI.
    pose proof (IndexView.inv2_kinds s (IndexMore.run_Inv2 events)) as Hk.
    pose proof (Index.inv_markers s HI) as Hm.
    split; [| exact (Index.inv_layers s HI)].
    unfold IndexView.kinds_ok in Hk. rewrite Hk.
    destruct (Index.selectionState s); rewrite Hm; reflexivity.
  - intros apiKey events s.
    pose proof (Part000Facts.run_Inv_g apiKey events) as HI.
    pose proof (Part000View.inv2_kinds s (Part000More.run_Inv2_g apiKey events))
      as Hk.
    pose proof (Part000.inv_markers s HI) as Hm.
    split; [| exact (Part000.inv_layers s HI)].
    unfold Part000View.kinds_ok in Hk. rewrite Hk.
    destruct (Part000.selectionState s); rewrite Hm; reflexivity.
Qed.

(** X6: the request on its way asks for the route between the markers of
    the state: its first point is the position of the start marker and its
    second point that of the end marker.  Both variants. *)
Theorem X6_request_between_the_markers :
  (forall events : list Index.Event,
      let s := Index.run events Index.initial in
      Forall
        (fun req =>
           map getLatLng (Index.markers s)
           = [Index.origin req; Index.destination req])
        (Index.pending s))
  /\ (forall (apiKey : option string) (events : list Part000.Event),
         let s := Part000.run events (Part000.initial apiKey) in
         Forall
           (fun req =>
              map getLatLng (Part000.markers s)
              = [Part000.origin req; Part000.destination req])
           (Part000.pending s)).
Proof.
  split.
  - intros events s. apply Forall_forall.
    exact (IndexView.inv2_request s (IndexMore.run_Inv2 events)).
  - intros apiKey events s. apply Forall_forall.
    exact (Part000View.inv2_request s (Part000More.run_Inv2_g apiKey events)).
Qed.

(** X7: what a visible bottom sheet stands on.  Between two events (the
    handler, the render that follows and its effects being done), whenever
    the bottom sheet is visible (a phase from PATH_CONFIRMED on, not
    loading), a path of at least one point is stored and drawn on the map,
    the ETA is set and the view the code set last is fitted to that path;
    in the Google variant the API key is then set.  Whenever it is not
    visible, the ETA is null and, once the map exists, the view the code set
    last is Tehran at zoom 13.  The render between a handler and its
    effects is the same but for one: the render that the click in
    SELECTING_END leaves has the phase PATH_CONFIRMED and the loading flag
    down, so the sheet is visible there with no ETA and the route not yet
    asked for; the effect of that render raises the loading flag (without
    a key: resets), and the render that follows hides the sheet. *)
Theorem X7_route_behind_the_bottom_sheet :
  (forall (events : list Index.Event) (e : Index.Event),
      let s := Index.run events Index.initial in
      let r := Index.rendered e s in
      (IndexView.bottom_sheet_visible s = true ->
       exists polyline,
         Index.path s = Some polyline
         /\ getLatLngs polyline <> []
         /\ Index.eta s <> None
         /\ Index.view s = Some (ViewFitted (polyline_id polyline))
         /\ In (PolylineLayer polyline) (Index.layers s))
      /\ (IndexView.bottom_sheet_visible s = false ->
          Index.eta s = None
          /\ (Index.mapInstance s = true ->
              Index.view s = Some (ViewAt TEHRAN_COORDS 13)))
      /\ (IndexView.bottom_sheet_visible r = true ->
          (exists polyline,
              Index.path r = Some polyline
              /\ getLatLngs polyline <> []
              /\ Index.eta r <> None
              /\ Index.view r = Some (ViewFitted (polyline_id polyline))
              /\ In (PolylineLayer polyline) (Index.layers r))
          \/ ((exists latlng, e = Index.MapClick latlng)
              /\ Index.selectionState s = Index.SELECTING_END
              /\ Index.selectionState r = Index.PATH_CONFIRMED
              /\ Index.eta r = None
              /\ IndexView.bottom_sheet_visible (Index.step e s) = false))
      /\ (IndexView.bottom_sheet_visible r = false ->
          Index.eta r = None
          /\ (Index.mapInstance r = true ->
              Index.view r = Some (ViewAt TEHRAN_COORDS 13))))
  /\ (forall (apiKey : option string) (events : list Part000.Event)
             (e : Part000.Event),
         let s := Part000.run events (Part000.initial apiKey) in
         let r := Part000.rendered e s in
         (Part000View.bottom_sheet_visible s = true ->
          Part000.truthy apiKey = true
          /\ exists polyline,
               Part000.path s = Some polyline
               /\ getLatLngs polyline <> []
               /\ Part000.eta s <> None
               /\ Part000.view s = Some (ViewFitted (polyline_id polyline))
               /\ In (PolylineLayer polyline) (Part000.layers s))
         /\ (Part000View.bottom_sheet_visible s = false ->
             Part000.eta s = None
             /\ (Part000.mapInstance s = true ->
                 Part000.view s = Some (ViewAt TEHRAN_COORDS 13)))
         /\ (Part000View.bottom_sheet_visible r = true ->
             (Part000.truthy apiKey = true
              /\ exists polyline,
                   Part000.path r = Some polyline
                   /\ getLatLngs polyline <> []
                   /\ Part000.eta r <> None
                   /\ Part000.view r = Some (ViewFitted (polyline_id polyline))
                   /\ In (PolylineLayer polyline) (Part000.layers r))
             \/ ((exists latlng, e = Part000.MapClick latlng)
                 /\ Part000.selectionState s = Part000.SELECTING_END
                 /\ Part000.selectionState r = Part000.PATH_CONFIRMED
                 /\ Part000.eta r = None
                 /\ Part000View.bottom_sheet_visible (Part000.step e s) = false))
         /\ (Part000View.bottom_sheet_visible r = false ->
             Part000.eta r = None
             /\ (Part000.mapInstance r = true ->
                 Part000.view r = Some (ViewAt TEHRAN_COORDS 13)))).
Proof.
  split.
  - intros events e s r.
    pose proof (IndexFacts.run_Inv events) as HI.
    pose proof (IndexMore.run_Inv2 events) as HI2.
    fold s in HI, HI2.
    split; [exact (IndexView.inv2_routed s HI2) |].
    split; [| exact (IndexMore.rendered_sheet e s HI HI2)].
    intros Hv. destruct (Index.mapInstance s) eqn:Hmi.
    + destruct (IndexView.inv2_selecting s HI2 Hmi Hv) as [He Hw]. auto.
    + rewrite (Index.inv_unmounted s HI Hmi).
      split; [reflexivity | discriminate].
  - intros apiKey events e s r.
    pose proof (Part000Facts.run_Inv_g apiKey events) as HI.
    pose proof (Part000More.run_Inv2_g apiKey events) as HI2.
    fold s in HI, HI2.
    assert (Hkey : Part000.API_KEY s = apiKey)
      by (unfold s; apply Part000More.API_KEY_run).
    split.
    { intros Hv. destruct (Part000View.inv2_routed s HI2 Hv) as [Hk Hp].
      rewrite Hkey in Hk. auto. }
    split; [exact (Part000View.inv2_selecting s HI2) |].
    pose proof (Part000More.rendered_sheet_g e s HI HI2) as H.
    rewrite Hkey in H. exact H.
Qed.

(** X8: the render shows exactly one of its three panels in every state,
    reachable or not: the instruction banner, the loading banner or the
    visible bottom sheet.  Both variants. *)
Theorem X8_exactly_one_panel :
  (forall s : Index.State, IndexView.panels_shown s = 1%nat)
  /\ (forall s : Part000.State, Part000View.panels_shown s = 1%nat).
Proof.
  split; intros s.
  - unfold IndexView.panels_shown, IndexView.instruction_banner,
      IndexView.loading_banner, IndexView.bottom_sheet_visible.
    destruct (Index.selectionState s), (Index.isLoading s); reflexivity.
  - unfold Part000View.panels_shown, Part000View.instruction_banner,
      Part000View.loading_banner, Part000View.bottom_sheet_visible.
    destruct (Part000.selectionState s), (Part000.isLoading s); reflexivity.
Qed.

(** X9: there is always a way back to the first phase.  From every state
    the components reach, the events of [way_back] (nothing in
    SELECTING_START; the reset, cancel or end button where the render
    offers one; in SELECTING_END and while a fetch is on its way, where it
    offers none, the second click and the failure of the fetch) lead to
    SELECTING_START, and in that phase nothing is left of the selection: no
    markers in the state or on the map, no ETA, no request on its way, the
    loading flag down, no timer running and the counter at 0. *)
Theorem X9_always_a_way_back :
  (forall (events : list Index.Event) (latlng : LatLng),
      let s := Index.run events Index.initial in
      let s' := Index.run (IndexView.way_back latlng s) s in
      Index.selectionState s' = Index.SELECTING_START
      /\ Index.markers s' = []
      /\ marker_layers (Index.layers s') = []
      /\ Index.eta s' = None
      /\ Index.isLoading s' = false
      /\ Index.pending s' = []
      /\ Index.intervals s' = []
      /\ Index.matchIntervalRef s' = None
      /\ Index.matchedUsersCount s' = 0)
  /\ (forall (apiKey : option string) (events : list Part000.Event)
             (latlng : LatLng),
         let s := Part000.run events (Part000.initial apiKey) in
         let s' := Part000.run (Part000View.way_back latlng s) s in
         Part000.selectionState s' = Part000.SELECTING_START
         /\ Part000.markers s' = []
         /\ marker_layers (Part000.layers s') = []
         /\ Part000.eta s' = None
         /\ Part000.isLoading s' = false
         /\ Part000.pending s' = []).
Proof.
  split.
  - intros events latlng s s'.
    assert (Hph : Index.selectionState s' = Index.SELECTING_START)
      by apply IndexMore.way_back_phase, IndexFacts.run_Inv.
    split; [exact Hph |].
    assert (E : s' = Index.run (events ++ IndexView.way_back latlng s) Index.initial)
      by (unfold s', s, Index.run; rewrite fold_left_app; reflexivity).
    apply IndexMore.first_phase_clean; [| | exact Hph]; rewrite E.
    + apply IndexFacts.run_Inv.
    + apply IndexMore.run_Inv2.
  - intros apiKey events latlng s s'.
    assert (Hph : Part000.selectionState s' = Part000.SELECTING_START)
      by apply Part000More.way_back_phase_g, Part000Facts.run_Inv_g.
    split; [exact Hph |].
    assert (E : s' = Part000.run (events ++ Part000View.way_back latlng s)
                       (Part000.initial apiKey))
      by (unfold s', s, Part000.run; rewrite fold_left_app; reflexivity).
    apply Part000More.first_phase_clean_g; [| | exact Hph]; rewrite E.
    + apply Part000Facts.run_Inv_g.
    + apply Part000More.run_Inv2_g.
Qed.

(** ** The Google variant without an API key *)

(** X10: when [process.env.API_KEY] is missing or empty, no request ever
    leaves.  Between two events no fetch is on its way, the loading flag is
    down, no path and no ETA is stored and the phase is not
    PATH_CONFIRMED; the render between a handler and its effects holds no
    request, path or ETA either, and its phase is PATH_CONFIRMED in one
    case only, the render that a click in SELECTING_END leaves.  That
    render has both markers and a visible bottom sheet; its effect shows
    the alert that the key was not found and resets the selection, so that
    the click ends in SELECTING_START with no markers in the state or on
    the map. *)
Theorem X10_without_an_api_key
    (apiKey : option string) (events : list Part000.Event)
    (e : Part000.Event) (latlng : LatLng) :
  Part000.truthy apiKey = false ->
  let s := Part000.run events (Part000.initial apiKey) in
  let r := Part000.rendered e s in
  let clicked := Part000.rendered (Part000.MapClick latlng) s in
  let s' := Part000.step (Part000.MapClick latlng) s in
  (Part000.pending s = []
   /\ Part000.isLoading s = false
   /\ Part000.path s = None
   /\ Part000.eta s = None
   /\ Part000.selectionState s <> Part000.PATH_CONFIRMED)
  /\ (Part000.pending r = []
      /\ Part000.isLoading r = false
      /\ Part000.path r = None
      /\ Part000.eta r = None
      /\ (Part000.selectionState r = Part000.PATH_CONFIRMED ->
          (exists l, e = Part000.MapClick l)
          /\ Part000.selectionState s = Part000.SELECTING_END))
  /\ (Part000.selectionState s = Part000.SELECTING_END ->
      Part000.selectionState clicked = Part000.PATH_CONFIRMED
      /\ List.length (Part000.markers clicked) = 2%nat
      /\ Part000View.bottom_sheet_visible clicked = true
      /\ Part000.selectionState s' = Part000.SELECTING_START
      /\ Part000.markers s' = []
      /\ marker_layers (Part000.layers s') = []
      /\ Part000.alerts s'
         = Part000.alerts s ++ [Part000.alert_api_key_missing]).
Proof.
  intros Hkey s r clicked s'.
  pose proof (Part000Facts.run_Inv_g apiKey events) as HI.
  pose proof (Part000More.run_Inv2_g apiKey events) as HI2.
  fold s in HI, HI2.
  assert (Hk : Part000.truthy (Part000.API_KEY s) = false)
    by (unfold s; rewrite Part000More.API_KEY_run; exact Hkey).
  assert (Hpd : Part000.pending s = []).
  { destruct (Part000.pending s) eqn:E; [reflexivity |].
    pose proof (Part000View.inv2_key s HI2) as H. rewrite E in H.
    specialize (H ltac:(discriminate)). congruence. }
  assert (Hld : Part000.isLoading s = false).
  { pose proof (Part000.inv_pending s HI) as H. rewrite Hpd in H. exact H. }
  assert (Hv : Part000View.routed s = false).
  { destruct (Part000View.routed s) eqn:E; [| reflexivity].
    destruct (Part000View.inv2_routed s HI2 E) as [H _]. congruence. }
  assert (Hpath : Part000.path s = None)
    by (apply Part000More.keyless_path; exact Hkey).
  split; [| split].
  - split; [exact Hpd |]. split; [exact Hld |]. split; [exact Hpath |].
    split; [apply (Part000View.inv2_selecting s HI2 Hv) |].
    intros E. unfold Part000View.routed, Part000View.bottom_sheet_visible in Hv.
    rewrite E, Hld in Hv. discriminate Hv.
  - exact (Part000More.keyless_rendered e s HI HI2 Hk Hpath).
  - intros Hph.
    destruct (Part000More.click_rendered_g latlng s HI Hph) as (R1 & R2 & R3).
    destruct (Part000More.keyless_second_click latlng s HI HI2 Hk Hph)
      as [H1 H2].
    assert (E : s' = Part000.run (events ++ [Part000.MapClick latlng])
                       (Part000.initial apiKey))
      by (unfold s', s, Part000.run; rewrite fold_left_app; reflexivity).
    assert (HI' : Part000.Inv s')
      by (rewrite E; apply Part000Facts.run_Inv_g).
    assert (HI2' : Part000View.Inv2 s')
      by (rewrite E; apply Part000More.run_Inv2_g).
    destruct (Part000More.first_phase_clean_g s' HI' HI2' H1)
      as (C1 & C2 & _).
    repeat (split; [assumption |]). assumption.
Qed.

Lemma X10_without_an_api_key_witness :
  let s := Part000.run [Part000.Mount; Part000.MapClick point_a]
             (Part000.initial None) in
  let r := Part000.rendered (Part000.MapClick point_b) s in
  let clicked := Part000.rendered (Part000.MapClick point_b) s in
  let s' := Part000.step (Part000.MapClick point_b) s in
  (Part000.pending s = []
   /\ Part000.isLoading s = false
   /\ Part000.path s = None
   /\ Part000.eta s = None
   /\ Part000.selectionState s <> Part000.PATH_CONFIRMED)
  /\ (Part000.pending r = []
      /\ Part000.isLoading r = false
      /\ Part000.path r = None
      /\ Part000.eta r = None
      /\ (Part000.selectionState r = Part000.PATH_CONFIRMED ->
          (exists l, Part000.MapClick point_b = Part000.MapClick l)
          /\ Part000.selectionState s = Part000.SELECTING_END))
  /\ (Part000.selectionState s = Part000.SELECTING_END ->
      Part000.selectionState clicked = Part000.PATH_CONFIRMED
      /\ List.length (Part000.markers clicked) = 2%nat
      /\ Part000View.bottom_sheet_visible clicked = true
      /\ Part000.selectionState s' = Part000.SELECTING_START
      /\ Part000.markers s' = []
      /\ marker_layers (Part000.layers s') = []
      /\ Part000.alerts s'
         = Part000.alerts s ++ [Part000.alert_api_key_missing]).
Proof.
  apply (X10_without_an_api_key None
           [Part000.Mount; Part000.MapClick point_a]
           (Part000.MapClick point_b) point_b).
  reflexivity.
Defined.

(** ** Responses that carry a route the client cannot show *)

(** X11: a response that carries a route without points (GraphHopper: a
    first path with no coordinates; Google: a first route whose geometry
    decodes to no point) or, in the Google variant, a route without legs,
    is handled as a failure, but only after the polyline has been put on
    the map and stored: the user gets the alert and the selection is reset
    (first phase, no markers in the state or on the map, no ETA, loading
    flag down, no request left), and the polyline built from the response
    stays on the map.  It stays in [path] too when no path was stored
    before; when one was, that one is taken off the map and [path] becomes
    null. *)
Theorem X11_route_that_cannot_be_shown :
  (forall (events : list Index.Event) (r : Index.Response) (route : Index.Path),
      let s := Index.run events Index.initial in
      let s' := Index.step (Index.FetchSettles 0 r) s in
      Index.pending s <> [] ->
      Index.first_path r = Some route -> Index.coordinates route = [] ->
      Index.selectionState s' = Index.SELECTING_START
      /\ Index.markers s' = []
      /\ marker_layers (Index.layers s') = []
      /\ Index.eta s' = None
      /\ Index.isLoading s' = false
      /\ Index.pending s' = []
      /\ Index.alerts s' = Index.alerts s ++ [Index.alert_routing_failed]
      /\ Index.path s'
         = match Index.path s with
           | None => Some (Index.polyline_of route s)
           | Some _ => None
           end
      /\ In (PolylineLayer (Index.polyline_of route s)) (Index.layers s')
      /\ (forall old,
             Index.path s = Some old ->
             ~ In (PolylineLayer old) (Index.layers s')))
  /\ (forall (apiKey : option string) (events : list Part000.Event)
             (r : Part000.Response) (route : Part000.Route)
             (decodedPath : list LatLngTuple),
         let s := Part000.run events (Part000.initial apiKey) in
         let s' := Part000.step (Part000.FetchSettles 0 r) s in
         Part000.pending s <> [] ->
         Part000.first_route r = Some route ->
         decodePolyline (Part000.overview_polyline_points route)
         = Some decodedPath ->
         decodedPath = [] \/ Part000.legs route = [] ->
         Part000.selectionState s' = Part000.SELECTING_START
         /\ Part000.markers s' = []
         /\ marker_layers (Part000.layers s') = []
         /\ Part000.eta s' = None
         /\ Part000.isLoading s' = false
         /\ Part000.pending s' = []
         /\ Part000.alerts s'
            = Part000.alerts s ++ [Part000.alert_connection_failed]
         /\ Part000.path s'
            = match Part000.path s with
              | None => Some (Part000.polyline_of decodedPath s)
              | Some _ => None
              end
         /\ In (PolylineLayer (Part000.polyline_of decodedPath s))
              (Part000.layers s')
         /\ (forall old,
                Part000.path s = Some old ->
                ~ In (PolylineLayer old) (Part000.layers s'))).
Proof.
  split.
  - intros events r route s s' Hp Hr He.
    destruct (IndexMore.settle_without_points r route s
                (IndexFacts.run_Inv events) (IndexMore.run_Stamps events)
                Hp Hr He) as (H1 & H2 & H3 & H4).
    fold s' in H1, H2, H3, H4.
    assert (E : s' = Index.run (events ++ [Index.FetchSettles 0 r]) Index.initial)
      by (unfold s', s, Index.run; rewrite fold_left_app; reflexivity).
    assert (HI' : Index.Inv s') by (rewrite E; apply IndexFacts.run_Inv).
    assert (HI2' : IndexView.Inv2 s') by (rewrite E; apply IndexMore.run_Inv2).
    destruct (IndexMore.first_phase_clean s' HI' HI2' H1)
      as (C1 & C2 & C3 & C4 & C5 & _).
    repeat (split; [assumption |]).
    intros old Hold.
    exact (IndexMore.settle_without_points_old_path r route s old
             (IndexFacts.run_Inv events) Hp Hr He Hold).
  - intros apiKey events r route decodedPath s s' Hp Hr Hd Hor.
    destruct (Part000More.settle_without_points_g r route decodedPath s
                (Part000Facts.run_Inv_g apiKey events)
                (Part000More.run_Stamps_g apiKey events)
                Hp Hr Hd Hor) as (H1 & H2 & H3 & H4).
    fold s' in H1, H2, H3, H4.
    assert (E : s' = Part000.run (events ++ [Part000.FetchSettles 0 r])
                       (Part000.initial apiKey))
      by (unfold s', s, Part000.run; rewrite fold_left_app; reflexivity).
    assert (HI' : Part000.Inv s') by (rewrite E; apply Part000Facts.run_Inv_g).
    assert (HI2' : Part000View.Inv2 s')
      by (rewrite E; apply Part000More.run_Inv2_g).
    destruct (Part000More.first_phase_clean_g s' HI' HI2' H1)
      as (C1 & C2 & C3 & C4 & C5).
    repeat (split; [assumption |]).
    intros old Hold.
    exact (Part000More.settle_without_points_old_path_g r route decodedPath s old
             (Part000Facts.run_Inv_g apiKey events) Hp Hr Hd Hor Hold).
Qed.

Lemma X11_route_that_cannot_be_shown_witness :
  (let s := Index.run Fixtures.two_clicks Index.initial in
   let s' := Index.step (Index.FetchSettles 0 no_point_response) s in
   let route := {| Index.coordinates := []; Index.time := 95000 |} in
   Index.selectionState s' = Index.SELECTING_START
   /\ Index.markers s' = []
   /\ marker_layers (Index.layers s') = []
   /\ Index.eta s' = None
   /\ Index.isLoading s' = false
   /\ Index.pending s' = []
   /\ Index.alerts s' = Index.alerts s ++ [Index.alert_routing_failed]
   /\ Index.path s'
      = match Index.path s with
        | None => Some (Index.polyline_of route s)
        | Some _ => None
        end
   /\ In (PolylineLayer (Index.polyline_of route s)) (Index.layers s')
   /\ (forall old,
          Index.path s = Some old ->
          ~ In (PolylineLayer old) (Index.layers s')))
  /\ (let s :=
        Part000.run
          (Fixtures.two_clicks_g
             ++ [Part000.FetchSettles 0 no_leg_directions;
                 Part000.MapClick point_a; Part000.MapClick point_b])
          (Part000.initial (Some "key"%string)) in
      let s' := Part000.step (Part000.FetchSettles 0 no_leg_directions) s in
      let decodedPath :=
        [(div1e5 3850000, div1e5 (-12020000));
         (div1e5 4070000, div1e5 (-12095000));
         (div1e5 4325200, div1e5 (-12645300))] in
      Part000.selectionState s' = Part000.SELECTING_START
      /\ Part000.markers s' = []
      /\ marker_layers (Part000.layers s') = []
      /\ Part000.eta s' = None
      /\ Part000.isLoading s' = false
      /\ Part000.pending s' = []
      /\ Part000.alerts s'
         = Part000.alerts s ++ [Part000.alert_connection_failed]
      /\ Part000.path s'
         = match Part000.path s with
           | None => Some (Part000.polyline_of decodedPath s)
           | Some _ => None
           end
      /\ In (PolylineLayer (Part000.polyline_of decodedPath s))
           (Part000.layers s')
      /\ (forall old,
             Part000.path s = Some old ->
             ~ In (PolylineLayer old) (Part000.layers s'))).
Proof.
  split.
  - apply (proj1 X11_route_that_cannot_be_shown Fixtures.two_clicks
             no_point_response
             {| Index.coordinates := []; Index.time := 95000 |}).
    + vm_compute. discriminate.
    + reflexivity.
    + reflexivity.
  - apply (proj2 X11_route_that_cannot_be_shown (Some "key"%string)
             (Fixtures.two_clicks_g
                ++ [Part000.FetchSettles 0 no_leg_directions;
                    Part000.MapClick point_a; Part000.MapClick point_b])
             no_leg_directions
             {| Part000.overview_polyline_points := fixture;
                Part000.legs := [] |}).
    + vm_compute. discriminate.
    + reflexivity.
    + reflexivity.
    + right. reflexivity.
Defined.

(** ** The duration text of the ETA label *)

(** X12: the units of the ETA label of the Google variant.  Whatever the
    duration text of the response, the text put into the label holds
    neither [min] nor [hour] any more; and a duration text that holds
    neither of the two (one in days only, say) is put into the label as it
    came. *)
Theorem X12_units_of_the_duration_text :
  (forall durationText : jsstring,
      Part000Text.includes (Part000Text.farsiDuration durationText) (str "min")
      = false
      /\ Part000Text.includes (Part000Text.farsiDuration durationText)
           (str "hour")
         = false)
  /\ (forall durationText : jsstring,
         Part000Text.includes durationText (str "min") = false ->
         Part000Text.includes durationText (str "hour") = false ->
         Part000Text.farsiDuration durationText = durationText).
Proof.
  assert (Hmw : Part000Text.minute_word <> []) by (cbv; discriminate).
  assert (Hhw : Part000Text.hour_word <> []) by (cbv; discriminate).
  assert (Hmin : str "min" <> []) by (cbv; discriminate).
  assert (Hhour : str "hour" <> []) by (cbv; discriminate).
  split.
  - intros durationText. unfold Part000Text.farsiDuration, Part000Text.replace.
    split.
    + destruct (Part000Text.includes _ (str "min")) eqn:H; [| reflexivity].
      apply (Part000TextFacts.replace_from_includes _ _ _ Hhw Hmin
               Part000TextFacts.min_apart_hour_word) in H.
      rewrite (Part000TextFacts.replace_from_clears _ _ _ Hmw Hmin
                 Part000TextFacts.min_apart_minute_word
                 (fun s => proj1 (Part000TextFacts.minutes_covered s))) in H.
      discriminate H.
    + apply (Part000TextFacts.replace_from_clears _ _ _ Hhw Hhour
               Part000TextFacts.hour_apart_hour_word
               (fun s => proj1 (Part000TextFacts.hours_covered s))).
  - intros durationText Hm Hh. unfold Part000Text.farsiDuration.
    assert (E : Part000Text.replace [str "mins"; str "min"]
                  Part000Text.minute_word durationText
                = durationText).
    { apply (Part000TextFacts.replace_nothing _ _ (str "min")); [| exact Hm].
      intros s len E. apply Part000TextFacts.minutes_covered. congruence. }
    rewrite E.
    apply (Part000TextFacts.replace_nothing _ _ (str "hour")); [| exact Hh].
    intros s len E'. apply Part000TextFacts.hours_covered. congruence.
Qed.

Lemma X12_units_of_the_duration_text_witness :
  (Part000Text.includes (Part000Text.farsiDuration (str "1 hour 5 mins"))
     (str "min")
   = false
   /\ Part000Text.includes (Part000Text.farsiDuration (str "1 hour 5 mins"))
        (str "hour")
      = false)
  /\ Part000Text.farsiDuration (str "2 days") = str "2 days".
Proof.
  split.
  - apply (proj1 X12_units_of_the_duration_text (str "1 hour 5 mins")).
  - apply (proj2 X12_units_of_the_duration_text (str "2 days")); reflexivity.
Defined.

(** ** Fetches that fail before a route is drawn *)

(** X13: a fetch that fails before any route is drawn.  When the request
    rejects, the status is not a success, the body does not parse or the
    response carries no route by the tests of the code ([data.paths]
    missing or empty; in the Google variant a status other than OK, or no
    first route), the machine goes from PATH_CONFIRMED to SELECTING_START
    with a full reset: no markers in the state or on the map, no path, no
    ETA, the loading flag down, no fetch left, and one more alert shown to
    the user (in the Google variant the alert of the branch taken). *)
Theorem X13_failure_without_a_route_resets :
  (forall (events : list Index.Event) (k : nat) (r : Index.Response),
      let s := Index.run events Index.initial in
      let s' := Index.step (Index.FetchSettles k r) s in
      (k < List.length (Index.pending s))%nat ->
      Index.carries_route r = false ->
      Index.selectionState s = Index.PATH_CONFIRMED
      /\ Index.selectionState s' = Index.SELECTING_START
      /\ Index.markers s' = []
      /\ Index.path s' = None
      /\ Index.eta s' = None
      /\ Index.isLoading s' = false
      /\ Index.pending s' = []
      /\ marker_layers (Index.layers s') = []
      /\ Index.alerts s' = Index.alerts s ++ [Index.alert_routing_failed])
  /\ (forall (apiKey : option string) (events : list Part000.Event) (k : nat)
             (r : Part000.Response),
         let s := Part000.run events (Part000.initial apiKey) in
         let s' := Part000.step (Part000.FetchSettles k r) s in
         (k < List.length (Part000.pending s))%nat ->
         Part000.carries_route r = false ->
         Part000.selectionState s = Part000.PATH_CONFIRMED
         /\ Part000.selectionState s' = Part000.SELECTING_START
         /\ Part000.markers s' = []
         /\ Part000.path s' = None
         /\ Part000.eta s' = None
         /\ Part000.isLoading s' = false
         /\ Part000.pending s' = []
         /\ marker_layers (Part000.layers s') = []
         /\ Part000.alerts s' = Part000.alerts s ++ [Part000.failure_alert r]).
Proof.
  split.
  - intros events k r s s' Hk Hr.
    apply IndexFacts.settle_failure; [apply IndexFacts.run_Inv | exact Hk | exact Hr].
  - intros apiKey events k r s s' Hk Hr.
    apply Part000Facts.settle_failure_g;
      [apply Part000Facts.run_Inv_g | exact Hk | exact Hr].
Qed.

Lemma X13_failure_without_a_route_resets_witness :
  (let s := Index.run Fixtures.two_clicks Index.initial in
   let s' := Index.step (Index.FetchSettles 0 Index.NetworkError) s in
   Index.selectionState s = Index.PATH_CONFIRMED
   /\ Index.selectionState s' = Index.SELECTING_START
   /\ Index.markers s' = []
   /\ Index.path s' = None
   /\ Index.eta s' = None
   /\ Index.isLoading s' = false
   /\ Index.pending s' = []
   /\ marker_layers (Index.layers s') = []
   /\ Index.alerts s' = Index.alerts s ++ [Index.alert_routing_failed])
  /\ (let s := Part000.run Fixtures.two_clicks_g (Part000.initial (Some "key"%string)) in
      let s' := Part000.step (Part000.FetchSettles 0 Part000.JsonError) s in
      Part000.selectionState s = Part000.PATH_CONFIRMED
      /\ Part000.selectionState s' = Part000.SELECTING_START
      /\ Part000.markers s' = []
      /\ Part000.path s' = None
      /\ Part000.eta s' = None
      /\ Part000.isLoading s' = false
      /\ Part000.pending s' = []
      /\ marker_layers (Part000.layers s') = []
      /\ Part000.alerts s'
         = Part000.alerts s ++ [Part000.failure_alert Part000.JsonError]).
Proof.
  split.
  - apply (proj1 X13_failure_without_a_route_resets Fixtures.two_clicks 0%nat Index.NetworkError).
    + vm_compute. lia.
    + reflexivity.
  - apply (proj2 X13_failure_without_a_route_resets (Some "key"%string) Fixtures.two_clicks_g 0%nat
             Part000.JsonError).
    + vm_compute. lia.
    + reflexivity.
Defined.
